(** * fasttest: the test execution engine and its visual-regression subsystem

    A shallow embedding of [pkg/fasttest] (the chromedp-backed runner with
    screenshot and snapshot baselines) together with the properties the
    specification states about it.

    Layout:
    - Part I    the pieces of the Go runtime the runner calls
                ([strings], [fmt], [bytes], [os], [image], [image/png]);
    - Part II   the runner: data model, file names of baselines, image and
                HTML comparison, the step executor, [runTest];
    - Part III  the worker pool of [Run] as a transition system;
    - then the vocabulary of the statements and a stub browser and library
      to run the runner on;
    - Part IV   the properties: the file names of baselines, the comparison
                of screenshots, normalized HTML, screenshot baselines, one
                test, the worker pool. *)

From Stdlib Require Import ZArith PrimFloat Uint63 DecimalString Ascii String.
From Stdlib.Strings Require Import Byte.
From Stdlib Require Import List Permutation Lia Bool.
From stdpp Require Import gmap strings list.

Local Open Scope Z_scope.

(* ===================================================================== *)
(** * Part I: the Go runtime, as far as the runner uses it *)
(* ===================================================================== *)

(** ** Machine integers

    [int] is 64 bits wide on the platforms chromedp supports; arithmetic on
    it wraps around in two's complement. *)

Definition wrap64 (z : Z) : Z := (z + 2 ^ 63) mod 2 ^ 64 - 2 ^ 63.

Definition max_int : Z := 2 ^ 63 - 1.

(** [float64(n)] for an [int] [n]. *)
Definition float64_of_int (z : Z) : float :=
  if z <? 0 then PrimFloat.opp (PrimFloat.of_uint63 (Uint63.of_Z (- z)))
  else PrimFloat.of_uint63 (Uint63.of_Z z).

(** ** Package [strings]

    A Go string is a sequence of bytes, which is what [string] is. *)

Module strings.

(** [CutPrefix s prefix]: [s] without the leading [prefix], when it has it. *)
Fixpoint CutPrefix (s prefix : string) : option string :=
  match prefix, s with
  | EmptyString, _ => Some s
  | String a p', String b s' => if Ascii.eqb a b then CutPrefix s' p' else None
  | String _ _, EmptyString => None
  end.

Definition HasPrefix (s prefix : string) : bool :=
  match CutPrefix s prefix with Some _ => true | None => false end.

(** [Contains s substr]: [substr] occurs in [s]. *)
Fixpoint Contains (s substr : string) : bool :=
  HasPrefix s substr ||
  match s with
  | EmptyString => false
  | String _ s' => Contains s' substr
  end.

(** [replaceFrom old new skip s]: the scan of [ReplaceAll], left to right
    over the non-overlapping occurrences of [old]; [skip] counts the bytes
    of the occurrence just replaced that are still to be passed over. *)
Fixpoint replaceFrom (old new : string) (skip : nat) (s : string) : string :=
  match s with
  | EmptyString => EmptyString
  | String c s' =>
      match skip with
      | S k => replaceFrom old new k s'
      | O =>
          if HasPrefix s old
          then new +:+ replaceFrom old new (Nat.pred (String.length old)) s'
          else String c (replaceFrom old new O s')
      end
  end.

(** [ReplaceAll s old new], for a non-empty [old] (every call in the runner
    passes a non-empty literal; Go's rune-wise insertion for an empty [old]
    is not modelled). *)
Definition ReplaceAll (s old new : string) : string := replaceFrom old new O s.

(** [splitFrom sep skip cur s]: the scan of [Split]; [cur] is the piece
    read so far, [skip] as in [replaceFrom]. *)
Fixpoint splitFrom (sep : string) (skip : nat) (cur s : string) : list string :=
  match s with
  | EmptyString => [cur]
  | String c s' =>
      match skip with
      | S k => splitFrom sep k cur s'
      | O =>
          if HasPrefix s sep
          then cur :: splitFrom sep (Nat.pred (String.length sep)) EmptyString s'
          else splitFrom sep O (cur +:+ String c EmptyString) s'
      end
  end.

(** [Split s sep], for a non-empty [sep]. *)
Definition Split (s sep : string) : list string := splitFrom sep O EmptyString s.

(** The bytes of [s] in reverse order. *)
Fixpoint reverse (s : string) : string :=
  match s with
  | EmptyString => EmptyString
  | String c s' => reverse s' +:+ String c EmptyString
  end.

Definition CutSuffix (s suffix : string) : option string :=
  reverse <$> CutPrefix (reverse s) (reverse suffix).

Definition TrimSuffix (s suffix : string) : string :=
  match CutSuffix s suffix with Some r => r | None => s end.

(** White space as [unicode.IsSpace] defines it, in UTF-8: the six ASCII
    characters, U+0085 and U+00A0 of Latin-1, and beyond Latin-1 the
    characters with the White_Space property. *)
Definition asciiSpace : list string :=
  [ String "009" ""; String "010" ""; String "011" ""; String "012" "";
    String "013" ""; " " ]%string.

Definition utf8 (bs : list nat) : string :=
  string_of_list_ascii (map ascii_of_nat bs).

Definition unicodeSpace : list string :=
  [ utf8 [194; 133]%nat;        (* U+0085 *)
    utf8 [194; 160]%nat;        (* U+00A0 *)
    utf8 [225; 154; 128]%nat;   (* U+1680 *)
    utf8 [226; 128; 128]%nat; utf8 [226; 128; 129]%nat;  (* U+2000 ... *)
    utf8 [226; 128; 130]%nat; utf8 [226; 128; 131]%nat;
    utf8 [226; 128; 132]%nat; utf8 [226; 128; 133]%nat;
    utf8 [226; 128; 134]%nat; utf8 [226; 128; 135]%nat;
    utf8 [226; 128; 136]%nat; utf8 [226; 128; 137]%nat;
    utf8 [226; 128; 138]%nat;   (* ... U+200A *)
    utf8 [226; 128; 168]%nat;   (* U+2028 *)
    utf8 [226; 128; 169]%nat;   (* U+2029 *)
    utf8 [226; 128; 175]%nat;   (* U+202F *)
    utf8 [226; 129; 159]%nat;   (* U+205F *)
    utf8 [227; 128; 128]%nat ]. (* U+3000 *)

Definition spaces : list string := asciiSpace ++ unicodeSpace.

(** [cutAny cutset s]: [s] without the first element of [cutset] it
    starts with, if there is one. *)
Fixpoint cutAny (cutset : list string) (s : string) : option string :=
  match cutset with
  | [] => None
  | p :: ps =>
      match CutPrefix s p with
      | Some r => Some r
      | None => cutAny ps s
      end
  end.

(** [trimLeftAny cutset fuel s]: leading elements of [cutset] removed from
    [s], one per round. *)
Fixpoint trimLeftAny (cutset : list string) (fuel : nat) (s : string) : string :=
  match fuel with
  | O => s
  | S k =>
      match cutAny cutset s with
      | Some r => trimLeftAny cutset k r
      | None => s
      end
  end.

(** [TrimSpace s]: leading white space goes first, then the trailing white
    space of what is left, found from the end of the string backwards.
    Each round removes at least one byte, so [length s] rounds are enough. *)
Definition TrimSpace (s : string) : string :=
  let s1 := trimLeftAny spaces (String.length s) s in
  reverse (trimLeftAny (map reverse spaces) (String.length s1) (reverse s1)).

End strings.

(** ** Package [fmt] *)

(** The [%d] verb on an [int]. *)
Definition itoa (z : Z) : string := NilZero.string_of_int (Z.to_int z).

(** An [error] value: either made by a library outside the runner (chromedp,
    [os], [image/png]) or by [fmt.Errorf], which is kept as its format and
    arguments. *)
Inductive error : Type :=
| ExternalError (pkg msg : string)
| Errorf (format : string) (args : list fmtArg)
with fmtArg : Type :=
| ArgString (s : string)
| ArgInt (n : Z)
| ArgFloat (f : float)
| ArgError (e : error).

(** ** Package [bytes] *)

Module bytes.

Fixpoint Equal (a b : list byte) : bool :=
  match a, b with
  | [], [] => true
  | x :: a', y :: b' => Byte.eqb x y && Equal a' b'
  | _, _ => false
  end.

(** [Buffer.Bytes] after the writes [written]: a buffer nothing was
    written to hands out [nil]. *)
Definition Buffer_Bytes (written : list byte) : option (list byte) :=
  match written with
  | [] => None
  | _ => Some written
  end.

End bytes.

(** ** Package [os]

    The file system is a finite map from paths to file contents; a call can
    also fail for a reason of the platform (permissions, a full disk), which
    [fault] decides per call. Directories are not modelled beyond that.

    [os.WriteFile] opens the file with [O_WRONLY|O_CREATE|O_TRUNC], writes
    and closes, and returns the first error of the three. A write that
    fails can therefore leave the file behind, empty or with a part of the
    data: [partial] says which, [None] when the file could not even be
    opened, so that nothing changed, and [Some k] when it was created or
    truncated and [k] bytes of the data, or all of them if there are
    fewer, reached it before the error. *)

Module os.

Inductive Op : Type :=
| MkdirAllOp (path : string)
| StatOp (name : string)
| ReadFileOp (name : string)
| WriteFileOp (name : string).

Record FS : Type := mkFS {
  files : gmap string (list byte);
  fault : Op -> option error;
  partial : string -> option nat
}.

Definition ErrNotExist : error := ExternalError "os" "file does not exist".

Definition MkdirAll (fs : FS) (path : string) : option error :=
  fault fs (MkdirAllOp path).

Definition Stat (fs : FS) (name : string) : option error :=
  match fault fs (StatOp name) with
  | Some e => Some e
  | None =>
      match files fs !! name with
      | Some _ => None
      | None => Some ErrNotExist
      end
  end.

Definition ReadFile (fs : FS) (name : string) : list byte + error :=
  match fault fs (ReadFileOp name) with
  | Some e => inr e
  | None =>
      match files fs !! name with
      | Some data => inl data
      | None => inr ErrNotExist
      end
  end.

Definition WriteFile (fs : FS) (name : string) (data : list byte)
  : FS * option error :=
  match fault fs (WriteFileOp name) with
  | Some e =>
      (match partial fs name with
       | None => fs
       | Some k => mkFS (<[name := take k data]> (files fs)) (fault fs) (partial fs)
       end, Some e)
  | None => (mkFS (<[name := data]> (files fs)) (fault fs) (partial fs), None)
  end.

End os.

(** ** Packages [image] and [image/color] *)

Module color.

(** A [color.Color], seen through its [RGBA] method: four [uint32]. *)
Record Color : Type := mkColor { r32 : Z; g32 : Z; b32 : Z; a32 : Z }.

(** The struct [color.RGBA]: four [uint8]. *)
Record RGBA : Type := mkRGBA { R : Z; G : Z; B : Z; A : Z }.

End color.

Module image.

Record Point : Type := Pt { X : Z; Y : Z }.

Record Rectangle : Type := Rect { Min : Point; Max : Point }.

Definition Dx (r : Rectangle) : Z := wrap64 (X (Max r) - X (Min r)).
Definition Dy (r : Rectangle) : Z := wrap64 (Y (Max r) - Y (Min r)).

(** [==] on the struct [Rectangle]. *)
Definition Rectangle_eqb (r s : Rectangle) : bool :=
  (X (Min r) =? X (Min s)) && (Y (Min r) =? Y (Min s)) &&
  (X (Max r) =? X (Max s)) && (Y (Max r) =? Y (Max s)).

(** [Point.In]. *)
Definition In (x y : Z) (r : Rectangle) : bool :=
  (X (Min r) <=? x) && (x <? X (Max r)) &&
  (Y (Min r) <=? y) && (y <? Y (Max r)).

(** The interface [image.Image]. *)
Record Image : Type := mkImage {
  Bounds : Rectangle;
  At : Z -> Z -> color.Color
}.

(** [*image.RGBA]: the pixels that were set; every other pixel of the
    rectangle is transparent black, as [NewRGBA] leaves it. *)
Record RGBAImage : Type := mkRGBAImage {
  RGBA_Rect : Rectangle;
  Pix : gmap (Z * Z) color.RGBA
}.

Definition NewRGBA (r : Rectangle) : RGBAImage := mkRGBAImage r ∅.

(** The method [Set] of [RGBA]: nothing happens outside the rectangle. *)
Definition Set_ (m : RGBAImage) (x y : Z) (c : color.RGBA) : RGBAImage :=
  if In x y (RGBA_Rect m)
  then mkRGBAImage (RGBA_Rect m) (<[(x, y) := c]> (Pix m))
  else m.

End image.

(** ** Packages [image/png] and [path/filepath]

    Neither is part of the runner; they are taken as given. What the
    runner relies on is that a decoded PNG has its origin at (0, 0) and a
    width and a height between 1 and 2^31 - 1, the range of the IHDR chunk
    that the decoder accepts. *)

Definition png_bounds (r : image.Rectangle) : Prop :=
  image.Min r = image.Pt 0 0 /\
  0 < image.X (image.Max r) < 2 ^ 31 /\
  0 < image.Y (image.Max r) < 2 ^ 31.

Class GoLib : Type := {
  png_Decode : list byte -> image.Image + error;
  png_Encode : image.RGBAImage -> list byte + error;
  filepath_Join : string -> string -> string;
  png_Decode_bounds :
    forall data img, png_Decode data = inl img -> png_bounds (image.Bounds img)
}.





(* ===================================================================== *)
(** * Part II: the runner *)
(* ===================================================================== *)

(** ** Data model *)

Module ConsoleError.
Record t : Type := mk {
  Message : string;
  Type_ : string;
  Timestamp : Z;
  URL : string
}.
End ConsoleError.

Module Config.
Record t : Type := mk {
  Headless : bool;
  Timeout : Z;
  FailOnConsoleError : bool;
  ErrorFilter : option (ConsoleError.t -> bool);   (* [None] is a nil func *)
  ScreenshotDir : string;
  UpdateScreenshots : bool;
  ScreenshotThreshold : float;
  SnapshotDir : string;
  UpdateSnapshots : bool
}.
End Config.

Module Step.
Record t : Type := mk {
  Action : string;
  Target : string;
  Value : string
}.
End Step.

Module Test.
Record t : Type := mk {
  Name : string;
  Steps : list Step.t
}.
End Test.

Module TestResult.
Record t : Type := mk {
  Name : string;
  Passed : bool;
  Error : option error;
  Duration : Z;
  Errors : list ConsoleError.t
}.
End TestResult.

(** The struct [Runner]. [allocCtx] records whether [Start] has set the
    allocator context; the mutex and the unused [consoleErrors] carry no
    state of their own. *)
Record Runner : Type := mkRunner {
  allocCtx : bool;
  config : Config.t;
  tests : list Test.t;
  results : list TestResult.t;
  screenshotCounter : gmap string Z;
  snapshotCounter : gmap string Z
}.

Definition second : Z := 1000000000.

Definition defaultConfig : Config.t :=
  Config.mk true (10 * second) true None "__screenshots__" false 0%float
            "__snapshots__" false.

Definition NewRunner (config : option Config.t) : Runner :=
  let config := match config with Some c => c | None => defaultConfig end in
  let config :=
    if String.eqb (Config.ScreenshotDir config) ""
    then Config.mk (Config.Headless config) (Config.Timeout config)
           (Config.FailOnConsoleError config) (Config.ErrorFilter config)
           "__screenshots__" (Config.UpdateScreenshots config)
           (Config.ScreenshotThreshold config) (Config.SnapshotDir config)
           (Config.UpdateSnapshots config)
    else config in
  let config :=
    if String.eqb (Config.SnapshotDir config) ""
    then Config.mk (Config.Headless config) (Config.Timeout config)
           (Config.FailOnConsoleError config) (Config.ErrorFilter config)
           (Config.ScreenshotDir config) (Config.UpdateScreenshots config)
           (Config.ScreenshotThreshold config) "__snapshots__"
           (Config.UpdateSnapshots config)
    else config in
  mkRunner false config [] [] ∅ ∅.

Definition Start (r : Runner) : Runner :=
  mkRunner true (config r) (tests r) (results r)
           (screenshotCounter r) (snapshotCounter r).

Definition AddTest (r : Runner) (test : Test.t) : Runner :=
  mkRunner (allocCtx r) (config r) (tests r ++ [test]) (results r)
           (screenshotCounter r) (snapshotCounter r).

Definition with_screenshotCounter (r : Runner) (m : gmap string Z) : Runner :=
  mkRunner (allocCtx r) (config r) (tests r) (results r) m (snapshotCounter r).

Definition with_snapshotCounter (r : Runner) (m : gmap string Z) : Runner :=
  mkRunner (allocCtx r) (config r) (tests r) (results r) (screenshotCounter r) m.

(** ** The browser

    chromedp and the browser behind it are outside the runner. [B] is the
    state of the browser process together with the wall clock; an action run
    through [chromedp.Run] changes it, may fail, and may make the page log
    to its console while it runs. *)

Record ConsoleEvent : Type := mkConsoleEvent {
  ev_Type : string;                 (* [ev.Type] of an EventConsoleAPICalled *)
  ev_Args : list (option string);   (* [ev.Args[i].Value], [None] for nil *)
  ev_Now : Z;                       (* [time.Now()] when the listener runs *)
  ev_Location : string              (* what [chromedp.Location] reads then *)
}.

(** The actions the runner hands to [chromedp.Run], each with the type of
    what it reads from the page. *)
Module chromedp.

Definition NodeID : Type := Z.

Inductive Action : Type -> Type :=
| Navigate (url : string) : Action unit
| Click (sel : string) : Action unit                  (* with [NodeVisible] *)
| SendKeys (sel v : string) : Action unit             (* with [NodeVisible] *)
| WaitVisible (sel : string) : Action unit
| WaitReady (sel : string) : Action unit
| Text (sel : string) (nodeVisible : bool) : Action string
| Nodes (sel : string) : Action (list NodeID)
| Location : Action string
| Title : Action string
| AttributeValue (sel name : string) : Action (string * bool)
| SetValue (sel v : string) : Action unit
| MouseClickNode (n : NodeID) : Action unit
| PollContains (sel v : string) : Action unit         (* the [Poll] of wait_for_text *)
| FullScreenshot (quality : Z) : Action (list byte)
| Evaluate (expression : string) : Action string.

End chromedp.

Class Browser (B : Type) : Type := {
  (** [chromedp.NewContext] followed by [context.WithTimeout]. *)
  NewContext : B -> Z -> B;
  (** The two deferred [cancel()]. *)
  Cancel : B -> B;
  (** [time.Now()], in nanoseconds. *)
  Now : B -> Z;
  (** [ctx.Deadline()], [None] when there is none. *)
  Deadline : B -> option Z;
  (** The [select] of wait_for_url: [true] when the ticker fires, [false]
      when the context is done first. *)
  Select : B -> B * list ConsoleEvent * bool;
  (** [chromedp.Run(ctx, action)]: the browser after it, the console events
      raised while it ran, and what it read or its error. *)
  chromedp_Run : forall {A : Type}, chromedp.Action A -> B -> B * list ConsoleEvent * (A + error)
}.

(** What a method of the runner works on besides the runner itself. *)
Record World (B : Type) : Type := mkWorld {
  browser : B;
  disk : os.FS
}.
Arguments mkWorld {B} _ _.
Arguments browser {B} _.
Arguments disk {B} _.

(** ** File names of baselines *)

(** [m[k]] on a [map[string]int]: zero when [k] is absent. *)
Definition counterOf (m : gmap string Z) (k : string) : Z := default 0 (m !! k).

(** [m[k]++]. *)
Definition increment (m : gmap string Z) (k : string) : gmap string Z :=
  <[k := wrap64 (counterOf m k + 1)]> m.

(** The three [strings.ReplaceAll] that make a test name safe for a path. *)
Definition safeTestName (testName : string) : string :=
  let s := strings.ReplaceAll testName " " "_" in
  let s := strings.ReplaceAll s "/" "_" in
  strings.ReplaceAll s "\" "_".

(** The block [if filename == "" { ... }] that opens [takeScreenshot] (with
    [ext] = ".png" and the screenshot counters) and [takeSnapshot] (".html",
    the snapshot counters): the counters after it and the file name. *)
Definition resolveFilename (ext : string) (counters : gmap string Z)
    (filename testName : string) : gmap string Z * string :=
  if String.eqb filename ""
  then
    let safe := safeTestName testName in
    let counters := increment counters testName in
    let counter := counterOf counters testName in
    (counters,
     if counter =? 1
     then safe +:+ ext                                  (* "%s.png" *)
     else safe +:+ "_" +:+ itoa counter +:+ ext)        (* "%s_%d.png" *)
  else (counters, filename).


(** ** Comparing two screenshots *)

Definition colorsEqual (c1 c2 : color.Color) : bool :=
  (color.r32 c1 =? color.r32 c2) && (color.g32 c1 =? color.g32 c2) &&
  (color.b32 c1 =? color.b32 c2) && (color.a32 c1 =? color.a32 c2).

Definition sampleStep : Z := 10.

Definition numWorkers : Z := 4.

(** [uint8((r1 + g1 + b1) / 3 / 256)], on [uint32]. *)
Definition grayOf (c1 : color.Color) : Z :=
  (((color.r32 c1 + color.g32 c1 + color.b32 c1) mod 2 ^ 32) / 3 / 256) mod 2 ^ 8.

Section Loops.

Variables baselineImg currentImg : image.Image.
Variable bounds : image.Rectangle.

(** The inner loop of the sampling pass over row [y], from column [x]:
    [true] when it leaves through [needsDiff = true; break]. *)
Fixpoint sampleRow (fuel : nat) (y x : Z) : bool :=
  match fuel with
  | O => false
  | S k =>
      if x <? image.X (image.Max bounds)
      then
        if negb (colorsEqual (image.At baselineImg x y) (image.At currentImg x y))
        then true
        else sampleRow k y (wrap64 (x + sampleStep))
      else false
  end.

(** The outer loop of the sampling pass from row [y]: the value of
    [needsDiff] when it ends. A loop over [n] columns or rows in steps of
    ten ends within [n] rounds. *)
Fixpoint sampleRows (fuel : nat) (y : Z) : bool :=
  match fuel with
  | O => false
  | S k =>
      if y <? image.Y (image.Max bounds)
      then
        if sampleRow (Z.to_nat (image.Dx bounds)) y (image.X (image.Min bounds))
        then true
        else sampleRows k (wrap64 (y + sampleStep))
      else false
  end.

Definition needsDiff : bool :=
  sampleRows (Z.to_nat (image.Dy bounds)) (image.Y (image.Min bounds)).

(** The inner loop of one worker of the full pass over row [y], from
    column [x]: [localDiff] and the diff image after it. Here [x + 1]
    stays below [Max.X]. *)
Fixpoint fullRow (fuel : nat) (y x : Z) (acc : Z * image.RGBAImage)
  : Z * image.RGBAImage :=
  match fuel with
  | O => acc
  | S k =>
      if x <? image.X (image.Max bounds)
      then
        let c1 := image.At baselineImg x y in
        let c2 := image.At currentImg x y in
        let '(localDiff, diffImg) := acc in
        fullRow k y (x + 1)
          (if negb (colorsEqual c1 c2)
           then (wrap64 (localDiff + 1),
                 image.Set_ diffImg x y (color.mkRGBA 255 0 0 255))
           else (localDiff,
                 image.Set_ diffImg x y
                   (color.mkRGBA (grayOf c1) (grayOf c1) (grayOf c1) 128)))
      else acc
  end.

(** The rows [y], [y + 1], ... below [endY]. *)
Fixpoint fullRows (fuel : nat) (y endY : Z) (acc : Z * image.RGBAImage)
  : Z * image.RGBAImage :=
  match fuel with
  | O => acc
  | S k =>
      if y <? endY
      then fullRows k (y + 1) endY
             (fullRow (Z.to_nat (image.Dx bounds)) y (image.X (image.Min bounds)) acc)
      else acc
  end.

(** Worker [w] of the full pass. The four workers write disjoint rows of
    [diffImg] and add their [localDiff] to [differentPixels] under the
    mutex, so running them one after the other gives what any
    interleaving gives. *)
Definition fullWorker (w : Z) (acc : Z * image.RGBAImage) : Z * image.RGBAImage :=
  let rowsPerWorker := Z.quot (image.Dy bounds) numWorkers in
  let startY := wrap64 (image.Y (image.Min bounds) + wrap64 (w * rowsPerWorker)) in
  let endY :=
    if w =? numWorkers - 1 then image.Y (image.Max bounds)
    else wrap64 (startY + rowsPerWorker) in
  let '(differentPixels, diffImg) := acc in
  let '(localDiff, diffImg) :=
    fullRows (Z.to_nat (endY - startY)) startY endY (0, diffImg) in
  (wrap64 (differentPixels + localDiff), diffImg).

Definition fullPass : Z * image.RGBAImage :=
  fold_left (fun acc w => fullWorker w acc) [0; 1; 2; 3] (0, image.NewRGBA bounds).

End Loops.

Section CompareImages.

Context {lib : GoLib}.

(** What the full pass of [compareImages] returns, from [diffImg =
    image.NewRGBA(bounds)] on. *)
Definition fullComparison (baselineImg currentImg : image.Image)
  : float * option (list byte) * option error :=
  let bounds := image.Bounds baselineImg in
  let totalPixels := wrap64 (image.Dx bounds * image.Dy bounds) in
  let '(differentPixels, diffImg) := fullPass baselineImg currentImg bounds in
  match png_Encode diffImg with
  | inr err => (0%float, None, Some err)
  | inl diffBuf =>
      (PrimFloat.div (float64_of_int differentPixels) (float64_of_int totalPixels),
       bytes.Buffer_Bytes diffBuf, None)
  end.

Definition compareImages (baseline current : list byte)
  : float * option (list byte) * option error :=
  match png_Decode baseline with
  | inr err => (0%float, None, Some err)
  | inl baselineImg =>
      match png_Decode current with
      | inr err => (0%float, None, Some err)
      | inl currentImg =>
          if bytes.Equal baseline current then (0%float, None, None)
          else
            let bounds := image.Bounds baselineImg in
            if negb (image.Rectangle_eqb bounds (image.Bounds currentImg))
            then (1%float, None, None)
            else
              if negb (needsDiff baselineImg currentImg bounds)
              then (0%float, None, None)
              else fullComparison baselineImg currentImg
      end
  end.

End CompareImages.

(** ** The comparison of the earlier runners

    The runner on go-rod and the first runner on chromedp compare two
    screenshots pixel by pixel, in one pass, and return the difference
    only. *)

Module Legacy.

Section Loops.

Variables baselineImg currentImg : image.Image.
Variable bounds : image.Rectangle.

(** The inner loop over row [y], from column [x]: [differentPixels] after
    it. Here [x + 1] stays below [Max.X]. *)
Fixpoint countRow (fuel : nat) (y x : Z) (differentPixels : Z) : Z :=
  match fuel with
  | O => differentPixels
  | S k =>
      if x <? image.X (image.Max bounds)
      then
        countRow k y (x + 1)
          (if negb (colorsEqual (image.At baselineImg x y) (image.At currentImg x y))
           then wrap64 (differentPixels + 1)
           else differentPixels)
      else differentPixels
  end.

(** The outer loop from row [y]. *)
Fixpoint countRows (fuel : nat) (y : Z) (differentPixels : Z) : Z :=
  match fuel with
  | O => differentPixels
  | S k =>
      if y <? image.Y (image.Max bounds)
      then
        countRows k (y + 1)
          (countRow (Z.to_nat (image.Dx bounds)) y (image.X (image.Min bounds))
                    differentPixels)
      else differentPixels
  end.

End Loops.

Definition compareImages {lib : GoLib} (baseline current : list byte)
  : float * option error :=
  match png_Decode baseline with
  | inr err => (0%float, Some err)
  | inl baselineImg =>
      match png_Decode current with
      | inr err => (0%float, Some err)
      | inl currentImg =>
          let bounds := image.Bounds baselineImg in
          if negb (image.Rectangle_eqb bounds (image.Bounds currentImg))
          then (1%float, None)
          else
            let totalPixels := wrap64 (image.Dx bounds * image.Dy bounds) in
            let differentPixels :=
              countRows baselineImg currentImg bounds
                        (Z.to_nat (image.Dy bounds)) (image.Y (image.Min bounds)) 0 in
            (PrimFloat.div (float64_of_int differentPixels) (float64_of_int totalPixels),
             None)
      end
  end.

End Legacy.

(** ** Comparing two HTML snapshots *)

Definition LF : string := String "010" "".
Definition CR : string := String "013" "".
Definition TAB : string := String "009" "".

(** The loop [for strings.Contains(html, "  ") { ... }]. *)
Fixpoint collapseSpaces (fuel : nat) (html : string) : string :=
  match fuel with
  | O => html
  | S k =>
      if strings.Contains html "  "
      then collapseSpaces k (strings.ReplaceAll html "  " " ")
      else html
  end.

(** Every round of the loop shortens [html], so [length html] rounds are
    enough. *)
Definition normalizeHTML (html : string) : string :=
  let html := strings.ReplaceAll html LF " " in
  let html := strings.ReplaceAll html CR " " in
  let html := strings.ReplaceAll html TAB " " in
  let html := collapseSpaces (String.length html) html in
  let html := strings.ReplaceAll html "> <" "><" in
  let html := strings.ReplaceAll html "> " ">" in
  let html := strings.ReplaceAll html " <" "<" in
  strings.TrimSpace html.

Definition compareSnapshots (baseline current : string) : bool :=
  String.eqb (normalizeHTML baseline) (normalizeHTML current).

Definition DQ : string := String (ascii_of_nat 34) "".

Definition escapeHTML (s : string) : string :=
  let s := strings.ReplaceAll s "&" "&amp;" in
  let s := strings.ReplaceAll s "<" "&lt;" in
  let s := strings.ReplaceAll s ">" "&gt;" in
  let s := strings.ReplaceAll s DQ "&quot;" in
  strings.ReplaceAll s "'" "&#39;".

Definition divOpen (class : string) : string :=
  "    <div class=" +:+ DQ +:+ class +:+ DQ +:+ ">".

Definition generateHTMLDiff (baseline current : string) : string :=
  "<!DOCTYPE html>" +:+ LF +:+
  "<html>" +:+ LF +:+
  "<head>" +:+ LF +:+
  "    <title>Snapshot Diff</title>" +:+ LF +:+
  "    <style>" +:+ LF +:+
  "        body { font-family: monospace; white-space: pre-wrap; }" +:+ LF +:+
  "        .added { background-color: #90EE90; }" +:+ LF +:+
  "        .removed { background-color: #FFB6C1; }" +:+ LF +:+
  "        .header { font-weight: bold; margin: 20px 0 10px 0; }" +:+ LF +:+
  "    </style>" +:+ LF +:+
  "</head>" +:+ LF +:+
  "<body>" +:+ LF +:+
  divOpen "header" +:+ "Snapshot Diff</div>" +:+ LF +:+
  divOpen "header" +:+ "Expected:</div>" +:+ LF +:+
  divOpen "removed" +:+ escapeHTML (normalizeHTML baseline) +:+ "</div>" +:+ LF +:+
  divOpen "header" +:+ "Actual:</div>" +:+ LF +:+
  divOpen "added" +:+ escapeHTML (normalizeHTML current) +:+ "</div>" +:+ LF +:+
  "</body>" +:+ LF +:+
  "</html>".


(** ** Screenshot and snapshot steps *)

(** What a method that runs inside a test hands back: the runner and the
    world after it, the console events the page raised while it ran, and
    its [error] ([None] is [nil]). *)
Definition Outcome (B : Type) : Type :=
  (Runner * World B * list ConsoleEvent * option error)%type.

Section Steps.

Context {lib : GoLib} {B : Type} {chrome : Browser B}.

(** [takeScreenshot] from [os.MkdirAll] on, [filename] being resolved. *)
Definition saveOrCompareScreenshot (r : Runner) (w : World B) (filename : string)
  : Outcome B :=
  let dir := Config.ScreenshotDir (config r) in
  match os.MkdirAll (disk w) dir with
  | Some err =>
      (r, w, [], Some (Errorf "failed to create screenshot directory: %v" [ArgError err]))
  | None =>
      let '(b, evs, shot) := chromedp_Run (chromedp.FullScreenshot 100) (browser w) in
      let w := mkWorld b (disk w) in
      match shot with
      | inr err =>
          (r, w, evs, Some (Errorf "failed to take screenshot: %v" [ArgError err]))
      | inl screenshot =>
          let path := filepath_Join dir filename in
          match os.Stat (disk w) path with
          | None =>
              (* the baseline exists: load and compare *)
              match os.ReadFile (disk w) path with
              | inr err =>
                  (r, w, evs,
                   Some (Errorf "failed to read existing screenshot: %v" [ArgError err]))
              | inl baselineData =>
                  match compareImages baselineData screenshot with
                  | (_, _, Some err) =>
                      (r, w, evs,
                       Some (Errorf "failed to compare screenshots: %v" [ArgError err]))
                  | (diff, diffImage, None) =>
                      let threshold := Config.ScreenshotThreshold (config r) in
                      if PrimFloat.ltb threshold diff
                      then
                        let actualPath :=
                          strings.TrimSuffix path ".png" +:+ ".actual.png" in
                        let fs := fst (os.WriteFile (disk w) actualPath screenshot) in
                        let fs :=
                          match diffImage with
                          | Some diffImage =>
                              let diffPath :=
                                strings.TrimSuffix path ".png" +:+ ".diff.png" in
                              fst (os.WriteFile fs diffPath diffImage)
                          | None => fs
                          end in
                        (r, mkWorld b fs, evs,
                         Some (Errorf
                           "screenshot differs from baseline by %.2f%% (threshold: %.2f%%). Delete the old screenshot at %s to save the new one"
                           [ArgFloat (PrimFloat.mul diff 100);
                            ArgFloat (PrimFloat.mul threshold 100);
                            ArgString path]))
                      else (r, w, evs, None)
                  end
              end
          | Some _ =>
              (* no baseline: save the screenshot *)
              match os.WriteFile (disk w) path screenshot with
              | (fs, Some err) =>
                  (r, mkWorld b fs, evs,
                   Some (Errorf "failed to save screenshot: %v" [ArgError err]))
              | (fs, None) => (r, mkWorld b fs, evs, None)
              end
          end
      end
  end.

Definition takeScreenshot (r : Runner) (w : World B) (filename testName : string)
  : Outcome B :=
  let '(counters, filename) :=
    resolveFilename ".png" (screenshotCounter r) filename testName in
  saveOrCompareScreenshot (with_screenshotCounter r counters) w filename.

(** [takeSnapshot] from [os.MkdirAll] on, [filename] being resolved. *)
Definition saveOrCompareSnapshot (r : Runner) (w : World B) (filename : string)
  : Outcome B :=
  let dir := Config.SnapshotDir (config r) in
  match os.MkdirAll (disk w) dir with
  | Some err =>
      (r, w, [], Some (Errorf "failed to create snapshot directory: %v" [ArgError err]))
  | None =>
      let '(b, evs, captured) :=
        chromedp_Run (chromedp.Evaluate "document.documentElement.outerHTML") (browser w) in
      let w := mkWorld b (disk w) in
      match captured with
      | inr err =>
          (r, w, evs, Some (Errorf "failed to capture HTML: %v" [ArgError err]))
      | inl html =>
          let path := filepath_Join dir filename in
          match os.Stat (disk w) path with
          | None =>
              match os.ReadFile (disk w) path with
              | inr err =>
                  (r, w, evs,
                   Some (Errorf "failed to read existing snapshot: %v" [ArgError err]))
              | inl baselineData =>
                  let baseline := string_of_list_byte baselineData in
                  if negb (compareSnapshots baseline html)
                  then
                    let actualPath :=
                      strings.TrimSuffix path ".html" +:+ ".actual.html" in
                    let fs :=
                      fst (os.WriteFile (disk w) actualPath (list_byte_of_string html)) in
                    let diffHTML := generateHTMLDiff baseline html in
                    let diffPath :=
                      strings.TrimSuffix path ".html" +:+ ".diff.html" in
                    let fs :=
                      fst (os.WriteFile fs diffPath (list_byte_of_string diffHTML)) in
                    (r, mkWorld b fs, evs,
                     Some (Errorf
                       "snapshot differs from baseline. Delete the old snapshot at %s to save the new one"
                       [ArgString path]))
                  else (r, w, evs, None)
              end
          | Some _ =>
              match os.WriteFile (disk w) path (list_byte_of_string html) with
              | (fs, Some err) =>
                  (r, mkWorld b fs, evs,
                   Some (Errorf "failed to save snapshot: %v" [ArgError err]))
              | (fs, None) => (r, mkWorld b fs, evs, None)
              end
          end
      end
  end.

Definition takeSnapshot (r : Runner) (w : World B) (filename testName : string)
  : Outcome B :=
  let '(counters, filename) :=
    resolveFilename ".html" (snapshotCounter r) filename testName in
  saveOrCompareSnapshot (with_snapshotCounter r counters) w filename.

(** ** The step executor *)

Definition millisecond : Z := 1000000.

(** [err] of a [chromedp.Run] that reads nothing. *)
Definition errorOf {A : Type} (x : A + error) : option error :=
  match x with
  | inl _ => None
  | inr err => Some err
  end.

(** What a case of [executeStep] that only talks to the browser hands
    back: the browser after it, the console events, and its [error]. *)
Definition Ran : Type := (B * list ConsoleEvent * option error)%type.

(** [return chromedp.Run(ctx, action)]. *)
Definition run {A : Type} (action : chromedp.Action A) (b : B) : Ran :=
  let '(b, evs, x) := chromedp_Run action b in (b, evs, errorOf x).

(** [chromedp.Run(ctx, action)] followed by [rest] when it succeeds, with
    the plain error [orElse err] otherwise. *)
Definition runThen {A : Type} (action : chromedp.Action A) (b : B)
    (orElse : error -> error) (rest : B -> A -> Ran) : Ran :=
  let '(b, evs, x) := chromedp_Run action b in
  match x with
  | inr err => (b, evs, Some (orElse err))
  | inl a => let '(b, evs', err) := rest b a in (b, evs ++ evs', err)
  end.

Definition timeoutURL (target : string) : error :=
  Errorf "timeout waiting for URL to contain '%s'" [ArgString target].

(** The loop of wait_for_url. The ticker fires every 50 ms, so the loop
    is through after one round per 50 ms up to the deadline, which is what
    [fuel] counts; out of rounds the deadline has passed. *)
Fixpoint waitForURL (fuel : nat) (deadline : Z) (target : string) (b : B) : Ran :=
  match fuel with
  | O => (b, [], Some (timeoutURL target))
  | S k =>
      if Now b <? deadline
      then
        let '(b, evs, x) := chromedp_Run chromedp.Location b in
        if match x with
           | inl currentURL => strings.Contains currentURL target
           | inr _ => false
           end
        then (b, evs, None)
        else
          let '(b, evs', ticked) := Select b in
          if ticked
          then
            let '(b, evs'', err) := waitForURL k deadline target b in
            (b, evs ++ evs' ++ evs'', err)
          else (b, evs ++ evs', Some (timeoutURL target))
      else (b, [], Some (timeoutURL target))
  end.

(** The cases of the [switch] of [executeStep] other than "screenshot" and
    "snapshot". *)
Definition browserStep (cfg : Config.t) (b : B) (step : Step.t) : Ran :=
  let action := Step.Action step in
  let target := Step.Target step in
  let value := Step.Value step in
  let plain := fun err : error => err in
  if String.eqb action "navigate" then run (chromedp.Navigate target) b
  else if String.eqb action "click" then run (chromedp.Click target) b
  else if String.eqb action "type" then run (chromedp.SendKeys target value) b
  else if String.eqb action "wait_for" then run (chromedp.WaitVisible target) b
  else if String.eqb action "assert_text" then
    runThen (chromedp.Text target true) b plain (fun b text =>
      if negb (String.eqb text value)
      then (b, [], Some (Errorf "expected text '%s', got '%s'"
                                [ArgString value; ArgString text]))
      else (b, [], None))
  else if String.eqb action "assert_element_exists" then
    let '(b, evs, x) := chromedp_Run (chromedp.Nodes target) b in
    match x with
    | inl (_ :: _) => (b, evs, None)
    | _ => (b, evs, Some (Errorf "element not found: %s" [ArgString target]))
    end
  else if String.eqb action "assert_element_not_exists" then
    let '(b, evs, x) := chromedp_Run (chromedp.Nodes target) b in
    match x with
    | inl (_ :: _) =>
        (b, evs, Some (Errorf "element should not exist: %s" [ArgString target]))
    | _ => (b, evs, None)
    end
  else if String.eqb action "assert_text_contains" then
    runThen (chromedp.Text target true) b plain (fun b text =>
      if negb (strings.Contains text value)
      then (b, [], Some (Errorf "expected text to contain '%s', got '%s'"
                                [ArgString value; ArgString text]))
      else (b, [], None))
  else if String.eqb action "assert_url" then
    runThen chromedp.Location b plain (fun b currentURL =>
      if negb (String.eqb currentURL target)
      then (b, [], Some (Errorf "expected URL '%s', got '%s'"
                                [ArgString target; ArgString currentURL]))
      else (b, [], None))
  else if String.eqb action "assert_title" then
    runThen chromedp.Title b plain (fun b title =>
      if negb (String.eqb title target)
      then (b, [], Some (Errorf "expected title '%s', got '%s'"
                                [ArgString target; ArgString title]))
      else (b, [], None))
  else if String.eqb action "assert_attribute" then
    match strings.Split target "|" with
    | [selector; attribute] =>
        runThen (chromedp.AttributeValue selector attribute) b plain
          (fun b '(found, ok) =>
             if negb ok
             then (b, [], Some (Errorf "attribute '%s' not found" [ArgString attribute]))
             else if negb (String.eqb found value)
             then (b, [], Some (Errorf "expected attribute '%s' to be '%s', got '%s'"
                                  [ArgString attribute; ArgString value; ArgString found]))
             else (b, [], None))
    | _ => (b, [], Some (Errorf "invalid assert_attribute format" []))
    end
  else if String.eqb action "wait_for_text" then
    runThen (chromedp.WaitVisible target) b plain (fun b _ =>
      run (chromedp.PollContains target value) b)
  else if String.eqb action "wait_for_url" then
    let deadline :=
      match Deadline b with
      | Some deadline => deadline
      | None => Now b + Config.Timeout cfg
      end in
    waitForURL (S (Z.to_nat ((deadline - Now b) / (50 * millisecond))))
               deadline target b
  else if String.eqb action "select" then
    runThen (chromedp.Click target) b plain (fun b _ =>
      run (chromedp.SetValue target value) b)
  else if String.eqb action "check" then run (chromedp.Click target) b
  else if String.eqb action "uncheck" then run (chromedp.Click target) b
  else if String.eqb action "hover" then
    runThen (chromedp.Nodes target) b plain (fun b nodes =>
      match nodes with
      | [] => (b, [], Some (Errorf "element not found: %s" [ArgString target]))
      | node :: _ => run (chromedp.MouseClickNode node) b
      end)
  else if String.eqb action "assert_text_visible" then
    runThen (chromedp.WaitReady "body") b
      (fun err => Errorf "failed to wait for body element: %v" [ArgError err])
      (fun b _ =>
         runThen (chromedp.Text "body" false) b
           (fun err => Errorf "failed to get text from body: %v" [ArgError err])
           (fun b text =>
              if negb (strings.Contains text value)
              then (b, [], Some (Errorf "text '%s' not found on page" [ArgString value]))
              else (b, [], None)))
  else (b, [], Some (Errorf "unknown action: %s" [ArgString action])).

Definition executeStep (r : Runner) (w : World B) (step : Step.t) (testName : string)
  : Outcome B :=
  let action := Step.Action step in
  if String.eqb action "screenshot"
  then takeScreenshot r w (Step.Target step) testName
  else if String.eqb action "snapshot"
  then takeSnapshot r w (Step.Target step) testName
  else
    let '(b, evs, err) := browserStep (config r) (browser w) step in
    (r, mkWorld b (disk w), evs, err).

(** ** One test *)

(** The function given to [chromedp.ListenTarget], applied to one console
    event: [result.Errors] after it. *)
Definition listener (cfg : Config.t) (errors : list ConsoleError.t) (ev : ConsoleEvent)
  : list ConsoleError.t :=
  if String.eqb (ev_Type ev) "error"
  then
    let message :=
      match ev_Args ev with
      | Some value :: _ => value
      | _ => ""%string
      end in
    let consoleErr :=
      ConsoleError.mk message (ev_Type ev) (ev_Now ev) (ev_Location ev) in
    match Config.ErrorFilter cfg with
    | None => errors ++ [consoleErr]
    | Some filter =>
        if negb (filter consoleErr) then errors ++ [consoleErr] else errors
    end
  else errors.

(** The loop [for _, step := range test.Steps]: the runner, the world and
    [result.Errors] when it ends, and the error it left through [break]
    with, if any. The console events of a step reach the listener while
    the step runs. *)
Fixpoint runSteps (r : Runner) (w : World B) (errors : list ConsoleError.t)
    (steps : list Step.t) (testName : string)
  : Runner * World B * list ConsoleError.t * option error :=
  match steps with
  | [] => (r, w, errors, None)
  | step :: rest =>
      let '(r, w, evs, err) := executeStep r w step testName in
      let errors := fold_left (listener (config r)) evs errors in
      match err with
      | Some err => (r, w, errors, Some err)
      | None => runSteps r w errors rest testName
      end
  end.

(** [chromedp.Run(ctx, chromedp.Navigate("about:blank"))] at the start of
    [runTest]; the listener is not attached yet. *)
Definition initialize (ctx : B) : B * option error :=
  let '(b, _, x) := chromedp_Run (chromedp.Navigate "about:blank") ctx in
  (b, errorOf x).

Definition runTest (r : Runner) (w : World B) (test : Test.t)
  : Runner * World B * TestResult.t :=
  let start := Now (browser w) in
  if negb (allocCtx r)
  then
    (r, w,
     TestResult.mk (Test.Name test) false (Some (Errorf "browser not started" [])) 0 [])
  else
    let ctx := NewContext (browser w) (Config.Timeout (config r)) in
    match initialize ctx with
    | (b, Some err) =>
        (r, mkWorld (Cancel b) (disk w),
         TestResult.mk (Test.Name test) false
           (Some (Errorf "failed to initialize browser: %v" [ArgError err])) 0 [])
    | (b, None) =>
        let '(r, w, errors, stepErr) :=
          runSteps r (mkWorld b (disk w)) [] (Test.Steps test) (Test.Name test) in
        let passed := match stepErr with Some _ => false | None => true end in
        let consoleFailure :=
          Config.FailOnConsoleError (config r) && (0 <? Z.of_nat (length errors)) in
        let passed := if consoleFailure then false else passed in
        let err :=
          if consoleFailure
          then
            match stepErr with
            | None =>
                Some (Errorf "console errors detected: %d errors"
                             [ArgInt (Z.of_nat (length errors))])
            | Some e => Some e
            end
          else stepErr in
        let duration := Now (browser w) - start in
        (r, mkWorld (Cancel (browser w)) (disk w),
         TestResult.mk (Test.Name test) passed err duration errors)
    end.

(** The body of a worker of [Run], [for test := range testChan], on the
    tests it receives, which is also the loop of the [Run] that has no
    workers, [for _, test := range r.tests]: their results in order. *)
Fixpoint runTests (r : Runner) (w : World B) (ts : list Test.t)
  : Runner * World B * list TestResult.t :=
  match ts with
  | [] => (r, w, [])
  | test :: rest =>
      let '(r, w, result) := runTest r w test in
      let '(r, w, more) := runTests r w rest in
      (r, w, result :: more)
  end.

End Steps.

(* ===================================================================== *)
(** * Part III: the worker pool of [Run] *)
(* ===================================================================== *)

(** [Run] starts the workers, feeds [testChan], closes it, starts the
    goroutine that waits for the workers and closes [resultChan], and drains
    [resultChan] into [r.results]. The goroutines are interleaved by the
    scheduler, so [Run] is a transition system: a state holds where every
    goroutine stands and what the two buffered channels hold, and a step is
    one goroutine doing its next operation. A call of [runTest] is one step. *)

Module Pool.

(** Where a worker stands. *)
Inductive worker : Type :=
| Receiving                          (* at [for test := range testChan] *)
| Running (test : Test.t)            (* about to call [r.runTest(test)] *)
| Sending (result : TestResult.t)    (* at [resultChan <- result] *)
| Exited.                            (* past the loop; [wg.Done()] has run *)

(** Where the goroutine that called [Run] stands. *)
Inductive caller : Type :=
| Feeding (rest : list Test.t)       (* in [for _, test := range r.tests] *)
| Collecting                         (* in [for result := range resultChan] *)
| Returned.                          (* [return r.results] *)

Record state (B : Type) : Type := mkState {
  runner : Runner;
  world : World B;
  main : caller;
  workers : list worker;
  testChan : list Test.t;
  testChanClosed : bool;
  resultChan : list TestResult.t;
  resultChanClosed : bool
}.
Arguments mkState {B} _ _ _ _ _ _ _ _.
Arguments runner {B} _.
Arguments world {B} _.
Arguments main {B} _.
Arguments workers {B} _.
Arguments testChan {B} _.
Arguments testChanClosed {B} _.
Arguments resultChan {B} _.
Arguments resultChanClosed {B} _.

(** [numWorkers := 4] of [Run]. *)
Definition numWorkers : nat := 4.

Definition with_results (r : Runner) (rs : list TestResult.t) : Runner :=
  mkRunner (allocCtx r) (config r) (tests r) rs
           (screenshotCounter r) (snapshotCounter r).

Section Run.

Context {lib : GoLib} {B : Type} {chrome : Browser B}.

(** The capacity of both channels, [len(r.tests)] when [Run] starts. *)
Variable capacity : nat.

(** [Run] up to the first send, with [n] workers started. *)
Definition init (n : nat) (r : Runner) (w : World B) : state B :=
  mkState (with_results r []) w (Feeding (tests r)) (replicate n Receiving)
          [] false [] false.

Inductive step : state B -> state B -> Prop :=
(** [testChan <- test]; it needs room in the buffer. *)
| step_feed r w test rest ws tc rc rcc :
    (length tc < capacity)%nat ->
    step (mkState r w (Feeding (test :: rest)) ws tc false rc rcc)
         (mkState r w (Feeding rest) ws (tc ++ [test]) false rc rcc)
(** [close(testChan)], and the closing goroutine is started. *)
| step_close r w ws tc rc rcc :
    step (mkState r w (Feeding []) ws tc false rc rcc)
         (mkState r w Collecting ws tc true rc rcc)
(** A worker receives a test. *)
| step_receive r w m ws1 ws2 test tc tcc rc rcc :
    step (mkState r w m (ws1 ++ Receiving :: ws2) (test :: tc) tcc rc rcc)
         (mkState r w m (ws1 ++ Running test :: ws2) tc tcc rc rcc)
(** A worker finds [testChan] closed and drained, and leaves its loop. *)
| step_exit r w m ws1 ws2 rc rcc :
    step (mkState r w m (ws1 ++ Receiving :: ws2) [] true rc rcc)
         (mkState r w m (ws1 ++ Exited :: ws2) [] true rc rcc)
(** A worker runs its test. *)
| step_run r w m ws1 ws2 test tc tcc rc rcc r' w' result :
    runTest r w test = (r', w', result) ->
    step (mkState r w m (ws1 ++ Running test :: ws2) tc tcc rc rcc)
         (mkState r' w' m (ws1 ++ Sending result :: ws2) tc tcc rc rcc)
(** [resultChan <- result]; it needs room in the buffer. *)
| step_send r w m ws1 ws2 result tc tcc rc rcc :
    (length rc < capacity)%nat ->
    step (mkState r w m (ws1 ++ Sending result :: ws2) tc tcc rc rcc)
         (mkState r w m (ws1 ++ Receiving :: ws2) tc tcc (rc ++ [result]) rcc)
(** [wg.Wait()] returns once every worker is done; [close(resultChan)]. *)
| step_wait r w ws tc rc :
    Forall (fun x => x = Exited) ws ->
    step (mkState r w Collecting ws tc true rc false)
         (mkState r w Collecting ws tc true rc true)
(** The caller receives a result and appends it to [r.results]. *)
| step_collect r w ws tc tcc result rc rcc :
    step (mkState r w Collecting ws tc tcc (result :: rc) rcc)
         (mkState (with_results r (results r ++ [result])) w Collecting
                  ws tc tcc rc rcc)
(** [resultChan] is closed and drained: the loop ends, [Run] returns. *)
| step_return r w ws tc tcc :
    step (mkState r w Collecting ws tc tcc [] true)
         (mkState r w Returned ws tc tcc [] true).

End Run.

(** [Run] on the runner [r]: the steps it can take, and where it starts. *)
Definition Run_step {lib : GoLib} {B : Type} {chrome : Browser B} (r : Runner)
  : state B -> state B -> Prop :=
  step (length (tests r)).

Definition Run_start {B : Type} (r : Runner) (w : World B) : state B :=
  init numWorkers r w.

(** The test names a worker holds. *)
Definition held (x : worker) : list string :=
  match x with
  | Running test => [Test.Name test]
  | Sending result => [TestResult.Name result]
  | Receiving | Exited => []
  end.

(** The names of all tests and results there are in a state, wherever
    they are: still to be fed, in [testChan], with a worker, in
    [resultChan], or in [r.results]. *)
Definition accounted {B : Type} (s : state B) : list string :=
  match main s with Feeding rest => map Test.Name rest | _ => [] end ++
  map Test.Name (testChan s) ++
  flat_map held (workers s) ++
  map TestResult.Name (resultChan s) ++
  map TestResult.Name (results (runner s)).

(** How far a state is from the end of [Run]: every step takes one off. *)
Definition workerWeight (x : worker) : nat :=
  match x with
  | Receiving => 1
  | Running _ => 5
  | Sending _ => 4
  | Exited => 0
  end.

Definition weight {B : Type} (s : state B) : nat :=
  match main s with
  | Feeding rest => 2 + 6 * length rest
  | Collecting => 1
  | Returned => 0
  end +
  5 * length (testChan s) +
  list_sum (map workerWeight (workers s)) +
  2 * length (resultChan s) +
  length (results (runner s)) +
  (if resultChanClosed s then 0 else 1).

End Pool.

(* ===================================================================== *)
(** * Part III, continued: the fluent interface *)
(* ===================================================================== *)

(** ** [TestBuilder]

    A builder holds the runner it comes from, by pointer, and the test it
    builds. Its step methods touch the test only; [Add] and [Run] touch
    the runner only. So a builder is its test, and the runner is handed to
    [Add] and [Run]. *)

Module TestBuilder.

Definition t : Type := Test.t.

(** [New] and [WithConfig]. *)
Definition New : Runner := NewRunner None.

Definition WithConfig (config : option Config.t) : Runner := NewRunner config.

(** [Runner.Test]. *)
Definition Test_ (name : string) : t := Test.mk name [].

(** [tb.test.Steps = append(tb.test.Steps, step)]. *)
Definition append (tb : t) (step : Step.t) : t :=
  Test.mk (Test.Name tb) (Test.Steps tb ++ [step]).

Definition Navigate (tb : t) (url : string) : t :=
  append tb (Step.mk "navigate" url "").

Definition Click (tb : t) (selector : string) : t :=
  append tb (Step.mk "click" selector "").

Definition Type_ (tb : t) (selector text : string) : t :=
  append tb (Step.mk "type" selector text).

Definition WaitFor (tb : t) (selector : string) : t :=
  append tb (Step.mk "wait_for" selector "").

Definition AssertText (tb : t) (selector expected : string) : t :=
  append tb (Step.mk "assert_text" selector expected).

Definition AssertTextVisible (tb : t) (expected : string) : t :=
  append tb (Step.mk "assert_text_visible" "" expected).

Definition Add (r : Runner) (tb : t) : Runner := AddTest r tb.

(** [errors.New("no test results available")]. *)
Definition ErrNoTestResults : error :=
  ExternalError "errors" "no test results available".

(** [Run]: the test is added to the runner, [Runner.Run] runs all the
    tests of the runner, and the first of the results is handed back.
    [Run r w tb result r' w']: from the runner [r] and the world [w] the
    call can return [result], leaving [r'] and [w']. *)
Definition Run {lib : GoLib} {B : Type} {chrome : Browser B}
    (r : Runner) (w : World B) (tb : t)
    (result : TestResult.t) (r' : Runner) (w' : World B) : Prop :=
  exists s,
    rtc (Pool.Run_step (AddTest r tb)) (Pool.Run_start (AddTest r tb) w) s /\
    Pool.main s = Pool.Returned /\
    r' = Pool.runner s /\ w' = Pool.world s /\
    result = match results (Pool.runner s) with
             | first :: _ => first
             | [] => TestResult.mk (Test.Name tb) false (Some ErrNoTestResults) 0 []
             end.

End TestBuilder.

(** ** [PageTester]

    A page tester runs its actions at once, each under the tester's
    timeout, and keeps the first error in its result. *)

Module PageTester.

Record t : Type := mk {
  result : TestResult.t;
  timeout : Z
}.

(** [&AssertionError{Expected, Actual, Message}], seen through its method
    [Error]. *)
Definition AssertionError (Expected Actual Message : string) : error :=
  Errorf "%s: expected '%s', got '%s'"
         [ArgString Message; ArgString Expected; ArgString Actual].

(** [pt.result.Error = err]. *)
Definition with_Error (pt : t) (err : option error) : t :=
  mk (TestResult.mk (TestResult.Name (result pt)) (TestResult.Passed (result pt)) err
                    (TestResult.Duration (result pt)) (TestResult.Errors (result pt)))
     (timeout pt).

Definition NewPageTester (timeout : Z) : t :=
  mk (TestResult.mk "" true None 0 []) timeout.

Section Methods.

Context {B : Type}.

(** [action.Do(timeoutCtx)], where [timeoutCtx] is the tester's context
    under the timeout given: the browser after it, and what the action read
    or its error. *)
Variable Do : forall A : Type, chromedp.Action A -> Z -> B -> B * (A + error).

Definition Navigate (pt : t) (b : B) (url : string) : t * B :=
  match TestResult.Error (result pt) with
  | Some _ => (pt, b)
  | None =>
      let '(b, x) := Do unit (chromedp.Navigate url) (timeout pt) b in
      (with_Error pt (errorOf x), b)
  end.

Definition Click (pt : t) (b : B) (selector : string) : t * B :=
  match TestResult.Error (result pt) with
  | Some _ => (pt, b)
  | None =>
      let '(b, x) := Do unit (chromedp.Click selector) (timeout pt) b in
      (with_Error pt (errorOf x), b)
  end.

Definition Type_ (pt : t) (b : B) (selector text : string) : t * B :=
  match TestResult.Error (result pt) with
  | Some _ => (pt, b)
  | None =>
      let '(b, x) := Do unit (chromedp.SendKeys selector text) (timeout pt) b in
      (with_Error pt (errorOf x), b)
  end.

Definition WaitFor (pt : t) (b : B) (selector : string) : t * B :=
  match TestResult.Error (result pt) with
  | Some _ => (pt, b)
  | None =>
      let '(b, x) := Do unit (chromedp.WaitVisible selector) (timeout pt) b in
      (with_Error pt (errorOf x), b)
  end.

Definition AssertText (pt : t) (b : B) (selector expected : string) : t * B :=
  match TestResult.Error (result pt) with
  | Some _ => (pt, b)
  | None =>
      let '(b, x) := Do string (chromedp.Text selector true) (timeout pt) b in
      match x with
      | inr err => (with_Error pt (Some err), b)
      | inl text =>
          if negb (String.eqb text expected)
          then (with_Error pt
                  (Some (AssertionError expected text "text assertion failed")), b)
          else (pt, b)
      end
  end.

Definition AssertTextVisible (pt : t) (b : B) (expected : string) : t * B :=
  match TestResult.Error (result pt) with
  | Some _ => (pt, b)
  | None =>
      let '(b, x) := Do string (chromedp.Text "body" true) (timeout pt) b in
      match x with
      | inr err => (with_Error pt (Some err), b)
      | inl text =>
          if negb (strings.Contains text expected)
          then (with_Error pt
                  (Some (AssertionError expected "[text not found in page]"
                                        "text visibility assertion failed")), b)
          else (pt, b)
      end
  end.

(** [Result]: the tester after it, and the result it hands out. *)
Definition Result (pt : t) : t * TestResult.t :=
  let pt :=
    match TestResult.Error (result pt) with
    | Some _ =>
        mk (TestResult.mk (TestResult.Name (result pt)) false
                          (TestResult.Error (result pt))
                          (TestResult.Duration (result pt))
                          (TestResult.Errors (result pt)))
           (timeout pt)
    | None => pt
    end in
  (pt, result pt).

End Methods.

End PageTester.

(** ** [RunWithProgress]

    [Run] with one more thing in the loop that collects: after a result is
    appended to [r.results] the caller adds one to the wait group it was
    given and sends the result on the channel it was given. That channel
    and whoever receives from it belong to the caller of
    [RunWithProgress]; a send ends when the result is received. A state
    is a state of [Run] together with the results that were received from
    the channel, in order, the result the caller stands to send, and how
    often [wg.Add(1)] has run. *)

Module Progress.

Record state (B : Type) : Type := mkState {
  pool : Pool.state B;
  forwarded : list TestResult.t;
  outgoing : option TestResult.t;     (* at [resultsChan <- result] *)
  wgAdded : nat
}.
Arguments mkState {B} _ _ _ _.
Arguments pool {B} _.
Arguments forwarded {B} _.
Arguments outgoing {B} _.
Arguments wgAdded {B} _.

Section RunWithProgress.

Context {lib : GoLib} {B : Type} {chrome : Browser B}.

(** The capacity of [testChan] and [resultCollector]. *)
Variable capacity : nat.

Definition init (n : nat) (r : Runner) (w : World B) : state B :=
  mkState (Pool.init n r w) [] None 0.

Inductive step : state B -> state B -> Prop :=
(** The caller feeds [testChan] and closes it, as in [Run]. *)
| step_feed r w test rest ws tc rc rcc f k :
    (length tc < capacity)%nat ->
    step (mkState (Pool.mkState r w (Pool.Feeding (test :: rest)) ws tc false rc rcc)
                  f None k)
         (mkState (Pool.mkState r w (Pool.Feeding rest) ws (tc ++ [test]) false rc rcc)
                  f None k)
| step_close r w ws tc rc rcc f k :
    step (mkState (Pool.mkState r w (Pool.Feeding []) ws tc false rc rcc) f None k)
         (mkState (Pool.mkState r w Pool.Collecting ws tc true rc rcc) f None k)
(** The workers and the goroutine that closes [resultCollector], as in
    [Run]; they move whether the caller stands at a send or not. *)
| step_receive r w m ws1 ws2 test tc tcc rc rcc f o k :
    step (mkState (Pool.mkState r w m (ws1 ++ Pool.Receiving :: ws2) (test :: tc) tcc rc rcc)
                  f o k)
         (mkState (Pool.mkState r w m (ws1 ++ Pool.Running test :: ws2) tc tcc rc rcc)
                  f o k)
| step_exit r w m ws1 ws2 rc rcc f o k :
    step (mkState (Pool.mkState r w m (ws1 ++ Pool.Receiving :: ws2) [] true rc rcc) f o k)
         (mkState (Pool.mkState r w m (ws1 ++ Pool.Exited :: ws2) [] true rc rcc) f o k)
| step_run r w m ws1 ws2 test tc tcc rc rcc r' w' result f o k :
    runTest r w test = (r', w', result) ->
    step (mkState (Pool.mkState r w m (ws1 ++ Pool.Running test :: ws2) tc tcc rc rcc)
                  f o k)
         (mkState (Pool.mkState r' w' m (ws1 ++ Pool.Sending result :: ws2) tc tcc rc rcc)
                  f o k)
| step_send r w m ws1 ws2 result tc tcc rc rcc f o k :
    (length rc < capacity)%nat ->
    step (mkState (Pool.mkState r w m (ws1 ++ Pool.Sending result :: ws2) tc tcc rc rcc)
                  f o k)
         (mkState (Pool.mkState r w m (ws1 ++ Pool.Receiving :: ws2) tc tcc
                                (rc ++ [result]) rcc)
                  f o k)
| step_wait r w ws tc rc f o k :
    Forall (fun x => x = Pool.Exited) ws ->
    step (mkState (Pool.mkState r w Pool.Collecting ws tc true rc false) f o k)
         (mkState (Pool.mkState r w Pool.Collecting ws tc true rc true) f o k)
(** The caller receives a result, appends it to [r.results], adds one to
    the wait group, and stands at the send. *)
| step_collect r w ws tc tcc result rc rcc f k :
    step (mkState (Pool.mkState r w Pool.Collecting ws tc tcc (result :: rc) rcc) f None k)
         (mkState (Pool.mkState (Pool.with_results r (results r ++ [result])) w
                                Pool.Collecting ws tc tcc rc rcc)
                  f (Some result) (S k))
(** The result is received from [resultsChan]: the send ends. *)
| step_forward p f result k :
    step (mkState p f (Some result) k) (mkState p (f ++ [result]) None k)
(** [resultCollector] is closed and drained: [RunWithProgress] returns. *)
| step_return r w ws tc tcc f k :
    step (mkState (Pool.mkState r w Pool.Collecting ws tc tcc [] true) f None k)
         (mkState (Pool.mkState r w Pool.Returned ws tc tcc [] true) f None k).

End RunWithProgress.

(** [RunWithProgress] on the runner [r]. *)
Definition Run_step {lib : GoLib} {B : Type} {chrome : Browser B} (r : Runner)
  : state B -> state B -> Prop :=
  step (length (tests r)).

Definition Run_start {B : Type} (r : Runner) (w : World B) : state B :=
  init Pool.numWorkers r w.

(** How far a state is from the end. *)
Definition weight {B : Type} (s : state B) : nat :=
  2 * Pool.weight (pool s) + match outgoing s with Some _ => 1 | None => 0 end.

End Progress.

(** ** Package [config] and the configuration that [main] makes *)

Module config.

(** The fields of [FileConfig] that [main] reads; a nil pointer is [None]. *)
Record FileConfig : Type := mkFileConfig {
  Headless : option bool;
  Timeout : option Z;
  FailOnConsoleError : option bool;
  ScreenshotDir : string;
  UpdateScreenshots : bool;
  ScreenshotThreshold : float
}.

Definition configNames : list string :=
  [ "testit.config.yaml"; "testit.config.yml"; "testit.config.json";
    "testit.yaml"; "testit.yml"; "testit.json";
    ".testit.yaml"; ".testit.yml"; ".testit.json" ]%string.

(** The first of [configNames] that [os.Stat] finds, or "". *)
Fixpoint firstFound (fs : os.FS) (names : list string) : string :=
  match names with
  | [] => ""
  | name :: rest =>
      match os.Stat fs name with
      | None => name
      | Some _ => firstFound fs rest
      end
  end.

Definition FindConfigFile (fs : os.FS) : string := firstFound fs configNames.

(** [filepath.Ext], read from the end of the path: the part from the last
    dot of the last element on. *)
Fixpoint scanExt (reversed ext : string) : string :=
  match reversed with
  | EmptyString => ""
  | String c rest =>
      if Ascii.eqb c "/" then ""
      else if Ascii.eqb c "." then String "." ext
      else scanExt rest (String c ext)
  end.

Definition Ext (path : string) : string := scanExt (strings.reverse path) "".

Section LoadConfig.

(** The decoders of YAML and JSON are outside. *)
Variables yaml_Unmarshal json_Unmarshal : list byte -> FileConfig + error.

Definition LoadConfig (fs : os.FS) (filename : string) : FileConfig + error :=
  match os.ReadFile fs filename with
  | inr err => inr err
  | inl data =>
      let ext := Ext filename in
      if String.eqb ext ".yaml" || String.eqb ext ".yml"
      then
        match yaml_Unmarshal data with
        | inr err => inr (Errorf "failed to parse config file: %v" [ArgError err])
        | inl config => inl config
        end
      else if String.eqb ext ".json"
      then
        match json_Unmarshal data with
        | inr err => inr (Errorf "failed to parse config file: %v" [ArgError err])
        | inl config => inl config
        end
      else inr (Errorf "unsupported config file format: %s" [ArgString ext])
  end.

End LoadConfig.

End config.

Module main.

(** The flags after [flag.Parse]: their values, and which of them were
    given on the command line. *)
Record Flags : Type := mkFlags {
  headless : bool;
  timeout : Z;
  failOnConsoleError : bool;
  pattern : string;
  configFile : string;
  screenshotDir : string;
  updateScreenshots : bool;
  isFlagSet : string -> bool
}.

Definition setHeadless (c : Config.t) (v : bool) : Config.t :=
  Config.mk v (Config.Timeout c) (Config.FailOnConsoleError c) (Config.ErrorFilter c)
            (Config.ScreenshotDir c) (Config.UpdateScreenshots c)
            (Config.ScreenshotThreshold c) (Config.SnapshotDir c) (Config.UpdateSnapshots c).

Definition setTimeout (c : Config.t) (v : Z) : Config.t :=
  Config.mk (Config.Headless c) v (Config.FailOnConsoleError c) (Config.ErrorFilter c)
            (Config.ScreenshotDir c) (Config.UpdateScreenshots c)
            (Config.ScreenshotThreshold c) (Config.SnapshotDir c) (Config.UpdateSnapshots c).

Definition setFailOnConsoleError (c : Config.t) (v : bool) : Config.t :=
  Config.mk (Config.Headless c) (Config.Timeout c) v (Config.ErrorFilter c)
            (Config.ScreenshotDir c) (Config.UpdateScreenshots c)
            (Config.ScreenshotThreshold c) (Config.SnapshotDir c) (Config.UpdateSnapshots c).

Definition setScreenshotDir (c : Config.t) (v : string) : Config.t :=
  Config.mk (Config.Headless c) (Config.Timeout c) (Config.FailOnConsoleError c)
            (Config.ErrorFilter c) v (Config.UpdateScreenshots c)
            (Config.ScreenshotThreshold c) (Config.SnapshotDir c) (Config.UpdateSnapshots c).

Definition setUpdateScreenshots (c : Config.t) (v : bool) : Config.t :=
  Config.mk (Config.Headless c) (Config.Timeout c) (Config.FailOnConsoleError c)
            (Config.ErrorFilter c) (Config.ScreenshotDir c) v
            (Config.ScreenshotThreshold c) (Config.SnapshotDir c) (Config.UpdateSnapshots c).

Definition setScreenshotThreshold (c : Config.t) (v : float) : Config.t :=
  Config.mk (Config.Headless c) (Config.Timeout c) (Config.FailOnConsoleError c)
            (Config.ErrorFilter c) (Config.ScreenshotDir c) (Config.UpdateScreenshots c)
            v (Config.SnapshotDir c) (Config.UpdateSnapshots c).

(** The block that applies a loaded file to [runnerConfig]. *)
Definition applyFile (flags : Flags) (fileConfig : config.FileConfig) (c : Config.t)
  : Config.t :=
  let c :=
    match config.Headless fileConfig with
    | Some v => if negb (isFlagSet flags "headless") then setHeadless c v else c
    | None => c
    end in
  let c :=
    match config.Timeout fileConfig with
    | Some v => if negb (isFlagSet flags "timeout") then setTimeout c v else c
    | None => c
    end in
  let c :=
    match config.FailOnConsoleError fileConfig with
    | Some v =>
        if negb (isFlagSet flags "fail-on-console-error")
        then setFailOnConsoleError c v else c
    | None => c
    end in
  let c :=
    if negb (String.eqb (config.ScreenshotDir fileConfig) "") &&
       String.eqb (screenshotDir flags) ""
    then setScreenshotDir c (config.ScreenshotDir fileConfig) else c in
  let c :=
    if config.UpdateScreenshots fileConfig && negb (updateScreenshots flags)
    then setUpdateScreenshots c (config.UpdateScreenshots fileConfig) else c in
  setScreenshotThreshold c (config.ScreenshotThreshold fileConfig).

Section RunnerConfig.

Variables yaml_Unmarshal json_Unmarshal : list byte -> config.FileConfig + error.

(** [main] from [flag.Parse] to [fasttest.NewRunner(runnerConfig)]: the
    configuration handed to [NewRunner]. A file that cannot be loaded
    costs a warning in the log and nothing else. *)
Definition runnerConfig (flags : Flags) (fs : os.FS) : Config.t :=
  let c := Config.mk (headless flags) (timeout flags) (failOnConsoleError flags)
                     None "" false 0%float "" false in
  let configPath :=
    if String.eqb (configFile flags) "" then config.FindConfigFile fs
    else configFile flags in
  let c :=
    if negb (String.eqb configPath "")
    then
      match config.LoadConfig yaml_Unmarshal json_Unmarshal fs configPath with
      | inr _ => c
      | inl fileConfig => applyFile flags fileConfig c
      end
    else c in
  let c :=
    if negb (String.eqb (screenshotDir flags) "")
    then setScreenshotDir c (screenshotDir flags) else c in
  if updateScreenshots flags then setUpdateScreenshots c true else c.

End RunnerConfig.

End main.

(* ===================================================================== *)
(** * Vocabulary of the statements *)
(* ===================================================================== *)

(** [f] applied to every byte of a string. *)
Fixpoint mapBytes (f : ascii -> ascii) (s : string) : string :=
  match s with
  | EmptyString => EmptyString
  | String c s' => String (f c) (mapBytes f s')
  end.

(** The characters a test name may not keep in a file name. *)
Definition pathHostile (c : ascii) : bool :=
  Ascii.eqb c " " || Ascii.eqb c "/" || Ascii.eqb c "\".

Definition sanitize (c : ascii) : ascii := if pathHostile c then "_"%char else c.

(** [".png"] for the first occurrence, ["_N.png"] for the [N]-th. *)
Definition occurrenceSuffix (ext : string) (n : Z) : string :=
  if n =? 1 then ext else "_" +:+ itoa n +:+ ext.

(** The pixels the sampling pass of [compareImages] looks at: every tenth
    column of every tenth row, counted from the corner [Min]. *)
Definition sampled (bounds : image.Rectangle) (x y : Z) : Prop :=
  exists i j : Z,
    0 <= i /\ 0 <= j /\
    x = image.X (image.Min bounds) + 10 * i /\
    y = image.Y (image.Min bounds) + 10 * j /\
    x < image.X (image.Max bounds) /\ y < image.Y (image.Max bounds).

(** The first byte of [s] is [c]. *)
Definition startsWith (c : ascii) (s : string) : bool :=
  match s with
  | String y _ => Ascii.eqb c y
  | EmptyString => false
  end.

Definition tail (s : string) : string :=
  match s with
  | String _ t => t
  | EmptyString => EmptyString
  end.

(** [normalizeHTML] up to [strings.TrimSpace]. *)
Definition untrimmed (html : string) : string :=
  let html := strings.ReplaceAll html LF " " in
  let html := strings.ReplaceAll html CR " " in
  let html := strings.ReplaceAll html TAB " " in
  let html := collapseSpaces (String.length html) html in
  let html := strings.ReplaceAll html "> <" "><" in
  let html := strings.ReplaceAll html "> " ">" in
  strings.ReplaceAll html " <" "<".

(** Nothing [normalizeHTML] would replace occurs. *)
Definition replaced (s : string) : Prop :=
  strings.Contains s LF = false /\
  strings.Contains s CR = false /\
  strings.Contains s TAB = false /\
  strings.Contains s "  " = false /\
  strings.Contains s "> " = false /\
  strings.Contains s " <" = false.

(** What holds of every state [Run] can be in, with [n] workers and the
    tests of the names [names] submitted: no test or result is lost or made
    up; [testChan] is closed once the caller is past feeding it; a worker
    only leaves its loop on a closed and drained [testChan]; [resultChan]
    is only closed when every worker has left; and the caller only returns
    on a closed and drained [resultChan]. *)
Record invariant {B : Type} (n : nat) (names : list string) (s : Pool.state B)
  : Prop := mkInvariant {
  inv_accounted :
    forall x, count_occ string_dec (Pool.accounted s) x = count_occ string_dec names x;
  inv_closed :
    Pool.testChanClosed s
    = match Pool.main s with Pool.Feeding _ => false | _ => true end;
  inv_exited :
    In Pool.Exited (Pool.workers s) ->
    Pool.testChan s = [] /\ Pool.testChanClosed s = true;
  inv_result_closed :
    Pool.resultChanClosed s = true ->
    Forall (fun x => x = Pool.Exited) (Pool.workers s);
  inv_returned :
    Pool.main s = Pool.Returned ->
    Pool.resultChan s = [] /\ Pool.resultChanClosed s = true;
  inv_workers : length (Pool.workers s) = n
}.

Section History.

Context {lib : GoLib} {B : Type} {chrome : Browser B}.

(** What has happened to a runner since [NewRunner], in order. The runner
    is changed by [AddTest], by [Start], by the steps that [executeStep]
    runs, each in the world it finds and for the test it belongs to, and by
    [Run] and [RunWithProgress] where they assign [r.results]. *)
Inductive event : Type :=
| Added (test : Test.t)
| Started
| Executed (w : World B) (step : Step.t) (testName : string)
| Stored (rs : list TestResult.t).

Definition history : Type := list event.

Definition after (r : Runner) (e : event) : Runner :=
  match e with
  | Added test => AddTest r test
  | Started => Start r
  | Executed w step testName => (executeStep r w step testName).1.1.1
  | Stored rs => Pool.with_results r rs
  end.

Definition runnerAfter (r : Runner) (h : history) : Runner := fold_left after h r.

(** The executed steps of kind [action] of the test [testName] that gave no
    file name. *)
Definition isAutoNamed (action testName : string) (e : event) : bool :=
  match e with
  | Executed _ step name =>
      String.eqb (Step.Action step) action &&
      String.eqb (Step.Target step) "" &&
      String.eqb name testName
  | _ => false
  end.

Definition autoNamed (action testName : string) (h : history) : Z :=
  Z.of_nat (length (List.filter (isAutoNamed action testName) h)).

(** The steps [steps] of the test [testName] all run and succeed, one after
    the other: from the runner, the world and the captured console errors
    on the left to those on the right. *)
Inductive succeed (testName : string)
  : Runner -> World B -> list ConsoleError.t -> list Step.t ->
    Runner -> World B -> list ConsoleError.t -> Prop :=
| succeed_nil r w errors :
    succeed testName r w errors [] r w errors
| succeed_cons r w errors step rest r1 w1 evs r2 w2 errors2 :
    executeStep r w step testName = (r1, w1, evs, None) ->
    succeed testName r1 w1 (fold_left (listener (config r1)) evs errors) rest
            r2 w2 errors2 ->
    succeed testName r w errors (step :: rest) r2 w2 errors2.

End History.

(** The tests of a state of [Run] that are still to be run, wherever they
    are, and the results there are. *)
Definition running (x : Pool.worker) : list Test.t :=
  match x with Pool.Running test => [test] | _ => [] end.

Definition sending (x : Pool.worker) : list TestResult.t :=
  match x with Pool.Sending result => [result] | _ => [] end.

Definition pendingTests {B : Type} (s : Pool.state B) : list Test.t :=
  match Pool.main s with Pool.Feeding rest => rest | _ => [] end ++
  Pool.testChan s ++ flat_map running (Pool.workers s).

Definition producedResults {B : Type} (s : Pool.state B) : list TestResult.t :=
  flat_map sending (Pool.workers s) ++ Pool.resultChan s ++ results (Pool.runner s).

(** The result of a test on a runner that was not started. *)
Definition notStarted (test : Test.t) : TestResult.t :=
  TestResult.mk (Test.Name test) false (Some (Errorf "browser not started" [])) 0 [].

(** What holds of every state of [RunWithProgress]: the results collected
    are those that were received from [resultsChan], in that order, and
    the one that is being sent, if any; the wait group was added to once
    for each; and the caller only stands at a send while it collects. *)
Definition forwarding {B : Type} (s : Progress.state B) : Prop :=
  results (Pool.runner (Progress.pool s))
  = Progress.forwarded s ++ option_list (Progress.outgoing s) /\
  Progress.wgAdded s = length (results (Pool.runner (Progress.pool s))) /\
  (Progress.outgoing s <> None -> Pool.main (Progress.pool s) = Pool.Collecting).

(** A call of a method of a page tester, and a chain of such calls. *)
Inductive call : Type :=
| CallNavigate (url : string)
| CallClick (selector : string)
| CallType (selector text : string)
| CallWaitFor (selector : string)
| CallAssertText (selector expected : string)
| CallAssertTextVisible (expected : string).

Section Chains.

Context {B : Type}.
Variable Do : forall A : Type, chromedp.Action A -> Z -> B -> B * (A + error).

Definition invoke (c : call) (pt : PageTester.t) (b : B) : PageTester.t * B :=
  match c with
  | CallNavigate url => PageTester.Navigate Do pt b url
  | CallClick selector => PageTester.Click Do pt b selector
  | CallType selector text => PageTester.Type_ Do pt b selector text
  | CallWaitFor selector => PageTester.WaitFor Do pt b selector
  | CallAssertText selector expected => PageTester.AssertText Do pt b selector expected
  | CallAssertTextVisible expected => PageTester.AssertTextVisible Do pt b expected
  end.

Definition chain (calls : list call) (pt : PageTester.t) (b : B) : PageTester.t * B :=
  fold_left (fun '(pt, b) c => invoke c pt b) calls (pt, b).

End Chains.

(** The runner [r] under the configuration [cfg]. *)
Definition with_config (r : Runner) (cfg : Config.t) : Runner :=
  mkRunner (allocCtx r) cfg (tests r) (results r)
           (screenshotCounter r) (snapshotCounter r).

(** The configuration [cfg] with the fields [UpdateScreenshots] and
    [UpdateSnapshots] set to [shots] and [snaps]. *)
Definition with_updates (cfg : Config.t) (shots snaps : bool) : Config.t :=
  Config.mk (Config.Headless cfg) (Config.Timeout cfg)
            (Config.FailOnConsoleError cfg) (Config.ErrorFilter cfg)
            (Config.ScreenshotDir cfg) shots
            (Config.ScreenshotThreshold cfg) (Config.SnapshotDir cfg) snaps.

(** The labels of the [case]s of the [switch] of [executeStep]. *)
Definition knownActions : list string :=
  [ "navigate"; "click"; "type"; "wait_for"; "assert_text";
    "assert_element_exists"; "assert_element_not_exists";
    "assert_text_contains"; "assert_url"; "assert_title"; "assert_attribute";
    "screenshot"; "snapshot"; "wait_for_text"; "wait_for_url"; "select";
    "check"; "uncheck"; "hover"; "assert_text_visible" ]%string.

(** A step that reads or writes baselines. *)
Definition usesBaselines (step : Step.t) : bool :=
  String.eqb (Step.Action step) "screenshot" ||
  String.eqb (Step.Action step) "snapshot".

(** The pixels of the columns [x0 .. x1 - 1] of the row [y], and of the
    rows [y0 .. y1 - 1], row by row. *)
Definition rowOf (x0 x1 y : Z) : list (Z * Z) :=
  map (fun x => (x, y)) (seqZ x0 (x1 - x0)).

Definition grid (x0 x1 y0 y1 : Z) : list (Z * Z) :=
  flat_map (rowOf x0 x1) (seqZ y0 (y1 - y0)).

(** The pixels of a rectangle. *)
Definition pixelsOf (r : image.Rectangle) : list (Z * Z) :=
  grid (image.X (image.Min r)) (image.X (image.Max r))
       (image.Y (image.Min r)) (image.Y (image.Max r)).

(** The two images differ at a pixel, in some channel. *)
Definition differsAt (b c : image.Image) (p : Z * Z) : bool :=
  negb (colorsEqual (image.At b p.1 p.2) (image.At c p.1 p.2)).

(** How many of the pixels [ps] differ. *)
Definition differing (b c : image.Image) (ps : list (Z * Z)) : Z :=
  Z.of_nat (length (List.filter (differsAt b c) ps)).

(** What the diff image shows at a pixel: red where the images differ,
    the gray level of the baseline, half transparent, where they agree. *)
Definition diffColor (b c : image.Image) (x y : Z) : color.RGBA :=
  if differsAt b c (x, y)
  then color.mkRGBA 255 0 0 255
  else color.mkRGBA (grayOf (image.At b x y)) (grayOf (image.At b x y))
                    (grayOf (image.At b x y)) 128.

(** How often the byte [c] occurs in [s]. *)
Fixpoint countByte (c : ascii) (s : string) : nat :=
  match s with
  | EmptyString => O
  | String x s' => ((if Ascii.eqb c x then 1 else 0) + countByte c s')%nat
  end.

(** The console error the listener makes of an event. *)
Definition consoleErrorOf (ev : ConsoleEvent) : ConsoleError.t :=
  ConsoleError.mk
    match ev_Args ev with
    | Some value :: _ => value
    | _ => ""%string
    end
    (ev_Type ev) (ev_Now ev) (ev_Location ev).

(** The events the listener records under [cfg]: those of type "error"
    that the filter, when there is one, does not suppress. *)
Definition recorded (cfg : Config.t) (ev : ConsoleEvent) : bool :=
  String.eqb (ev_Type ev) "error" &&
  match Config.ErrorFilter cfg with
  | None => true
  | Some filter => negb (filter (consoleErrorOf ev))
  end.

(** A console error the listener can have made under [cfg]. *)
Definition reportable (cfg : Config.t) (ce : ConsoleError.t) : Prop :=
  ConsoleError.Type_ ce = "error"%string /\
  forall filter, Config.ErrorFilter cfg = Some filter -> filter ce = false.

(* ===================================================================== *)
(** * Test doubles *)
(* ===================================================================== *)

(** A browser and a library to run the runner on concrete inputs. *)

Module Stub.

(** A raster format that stands in for PNG: a byte for the width, a byte
    for the height, then one gray level per pixel, row by row. *)
Definition gray (v : byte) : color.Color :=
  let n := Z.of_N (Byte.to_N v) * 257 in
  color.mkColor n n n 65535.

Definition Decode (data : list byte) : image.Image + error :=
  match data with
  | w :: h :: pixels =>
      let width := Z.of_N (Byte.to_N w) in
      let height := Z.of_N (Byte.to_N h) in
      if (0 <? width) && (0 <? height) && (Z.of_nat (length pixels) =? width * height)
      then inl (image.mkImage
                  (image.Rect (image.Pt 0 0) (image.Pt width height))
                  (fun x y => gray (nth (Z.to_nat (y * width + x)) pixels x00)))
      else inr (ExternalError "png" "invalid format")
  | _ => inr (ExternalError "png" "unexpected EOF")
  end.

(** The encoder writes the width and the height of the rectangle. *)
Definition Encode (m : image.RGBAImage) : list byte + error :=
  match Byte.of_N (Z.to_N (image.Dx (image.RGBA_Rect m))),
        Byte.of_N (Z.to_N (image.Dy (image.RGBA_Rect m))) with
  | Some w, Some h => inl [w; h]
  | _, _ => inr (ExternalError "png" "image too large")
  end.

Definition Join (dir file : string) : string := dir +:+ "/" +:+ file.

(** The browser: a clock, what the page looks like, and its HTML. An
    action on the selector "#missing" fails; a click on "#noisy" makes the
    page log an error to the console, and one on "#chatty" a warning. *)
Record browser : Type := mkBrowser {
  clock : Z;
  screen : list byte + error;
  dom : string
}.

Definition tick (b : browser) : browser :=
  mkBrowser (clock b + 1) (screen b) (dom b).

Definition consoleCall (type : string) (b : browser) : ConsoleEvent :=
  mkConsoleEvent type [Some "boom"%string] (clock b) "about:blank".

Definition deadlineExceeded : error :=
  ExternalError "chromedp" "context deadline exceeded".

(** What an action on the selector [sel] meets. *)
Definition act {A : Type} (sel : string) (b : browser) (a : A)
  : browser * list ConsoleEvent * (A + error) :=
  if String.eqb sel "#missing" then (tick b, [], inr deadlineExceeded)
  else if String.eqb sel "#noisy" then (tick b, [consoleCall "error" b], inl a)
  else if String.eqb sel "#chatty" then (tick b, [consoleCall "warning" b], inl a)
  else (tick b, [], inl a).

Definition Run {A : Type} (action : chromedp.Action A) (b : browser)
  : browser * list ConsoleEvent * (A + error) :=
  match action in chromedp.Action A
        return browser * list ConsoleEvent * (A + error) with
  | chromedp.Navigate _ => (tick b, [], inl tt)
  | chromedp.Click sel => act sel b tt
  | chromedp.SendKeys sel _ => act sel b tt
  | chromedp.WaitVisible sel => act sel b tt
  | chromedp.WaitReady sel => act sel b tt
  | chromedp.Text sel _ => act sel b "Hi"%string
  | chromedp.Nodes sel =>
      (tick b, [], inl (if String.eqb sel "#missing" then [] else [1]))
  | chromedp.Location => (tick b, [], inl "about:blank"%string)
  | chromedp.Title => (tick b, [], inl ""%string)
  | chromedp.AttributeValue sel _ => act sel b (""%string, false)
  | chromedp.SetValue sel _ => act sel b tt
  | chromedp.MouseClickNode _ => (tick b, [], inl tt)
  | chromedp.PollContains sel _ => act sel b tt
  | chromedp.FullScreenshot _ => (tick b, [], screen b)
  | chromedp.Evaluate _ => (tick b, [], inl (dom b))
  end.

End Stub.

Lemma Stub_Decode_bounds (data : list byte) (img : image.Image) :
  Stub.Decode data = inl img -> png_bounds (image.Bounds img).
Proof.
  unfold Stub.Decode.
  destruct data as [|w [|h pixels]]; try discriminate.
  destruct (_ && _) eqn:E; [|discriminate].
  intros [= <-]. cbn.
  apply andb_prop in E as [E _]. apply andb_prop in E as [E1 E2].
  apply Z.ltb_lt in E1, E2.
  pose proof (Byte.to_N_bounded w). pose proof (Byte.to_N_bounded h).
  unfold png_bounds; cbn. repeat split; lia.
Qed.

#[export] Instance stubLib : GoLib := {|
  png_Decode := Stub.Decode;
  png_Encode := Stub.Encode;
  filepath_Join := Stub.Join;
  png_Decode_bounds := Stub_Decode_bounds
|}.

#[export] Instance stubBrowser : Browser Stub.browser := {|
  NewContext b _ := b;
  Cancel b := b;
  Now := Stub.clock;
  Deadline _ := Some 1000;
  Select b := (Stub.tick b, [], true);
  chromedp_Run := @Stub.Run
|}.

(** A world to start from: a 1 x 1 page, an empty disk that never fails. *)
Definition stubWorld : World Stub.browser :=
  mkWorld (Stub.mkBrowser 0 (inl [x01; x01; x00]) "<html><body>Hi</body></html>")
          (os.mkFS ∅ (fun _ => None) (fun _ => None)).

Definition autoScreenshot : Step.t := Step.mk "screenshot" "" "".

(** Configurations: the default one, which fails a test on console
    errors, and one that also suppresses every console error. *)
Definition suppressAll : Config.t :=
  Config.mk true (10 * second) true (Some (fun _ => true)) "__screenshots__" false
            0%float "__snapshots__" false.

Definition clickNoisy : Test.t :=
  Test.mk "noisy" [Step.mk "navigate" "about:blank" ""; Step.mk "click" "#noisy" ""].

Definition thirdFails : Test.t :=
  Test.mk "third"
    [Step.mk "navigate" "about:blank" ""; Step.mk "click" "#ok" "";
     Step.mk "click" "#missing" ""; Step.mk "click" "#noisy" ""].


(** The same world on a disk that is full: a file can be created, and the
    write ends with an error after its first byte. *)
Definition fullDiskWorld : World Stub.browser :=
  mkWorld (browser stubWorld)
          (os.mkFS ∅ (fun op =>
             match op with
             | os.WriteFileOp _ => Some (ExternalError "os" "no space left on device")
             | _ => None
             end) (fun _ => Some 1%nat)).

(** A world whose disk holds a 1 x 1 baseline for "home.png" while the page
    is 2 x 1 now. *)
Definition resizedWorld : World Stub.browser :=
  mkWorld (Stub.mkBrowser 0 (inl [x02; x01; x00; x00]) "<html></html>")
          (os.mkFS {[ "__screenshots__/home.png"%string := [x01; x01; x00] ]}
                   (fun _ => None) (fun _ => None)).

(** A world whose disk holds a snapshot baseline for "home.html" that the
    page does not match any more. *)
Definition staleSnapshotWorld : World Stub.browser :=
  mkWorld (browser stubWorld)
          (os.mkFS {[ "__snapshots__/home.html"%string
                      := list_byte_of_string "<html><body>Bye</body></html>" ]}
                   (fun _ => None) (fun _ => None)).

(** The image that a byte string of the stand-in format decodes to, and a
    blank pixel when it does not decode. *)
Definition stubImage (data : list byte) : image.Image :=
  match Stub.Decode data with
  | inl img => img
  | inr _ =>
      image.mkImage (image.Rect (image.Pt 0 0) (image.Pt 1 1)) (fun _ _ => Stub.gray x00)
  end.

(** [Do] on the stub browser: what [Stub.Run] does, the console apart. *)
Definition stubDo (A : Type) (action : chromedp.Action A) (timeout : Z) (b : Stub.browser)
  : Stub.browser * (A + error) :=
  let '(b', _, x) := Stub.Run action b in (b', x).

(* ===================================================================== *)
(** * Part IV: properties *)
(* ===================================================================== *)

(** ** Sanity checks *)

Example itoa_2 : itoa 2 = "2"%string.
Proof. reflexivity. Qed.

Example ReplaceAll_spaces :
  strings.ReplaceAll "a  b   c" "  " " " = "a b  c"%string.
Proof. reflexivity. Qed.

Example TrimSpace_ex :
  strings.TrimSpace (String "009" " a b " +:+ strings.utf8 [194; 160]%nat)
  = "a b"%string.
Proof. vm_compute. reflexivity. Qed.

Example TrimSuffix_ex : strings.TrimSuffix "dir/a.png" ".png" = "dir/a"%string.
Proof. reflexivity. Qed.

Example resolve_twice :
  let '(m1, f1) := resolveFilename ".png" ∅ "" "Login Test" in
  let '(m2, f2) := resolveFilename ".png" m1 "" "Login Test" in
  (f1, f2) = ("Login_Test.png", "Login_Test_2.png")%string.
Proof. vm_compute. reflexivity. Qed.

Example no_steps_pass :
  TestResult.Passed (runTest (Start (NewRunner None)) stubWorld (Test.mk "empty" [])).2
  = true.
Proof. reflexivity. Qed.

Example blank_title_passes :
  TestResult.Passed
    (runTest (Start (NewRunner None)) stubWorld
       (Test.mk "t1" [Step.mk "navigate" "about:blank" ""; Step.mk "assert_title" "" ""])).2
  = true.
Proof. reflexivity. Qed.

Example unknown_action_fails :
  TestResult.Error
    (runTest (Start (NewRunner None)) stubWorld (Test.mk "t" [Step.mk "dance" "" ""])).2
  = Some (Errorf "unknown action: %s" [ArgString "dance"]).
Proof. reflexivity. Qed.

Example browser_not_started :
  TestResult.Error (runTest (NewRunner None) stubWorld clickNoisy).2
  = Some (Errorf "browser not started" []).
Proof. reflexivity. Qed.

Example half_the_pixels_differ :
  compareImages [x02; x01; x00; x05] [x02; x01; x01; x05]
  = (0.5%float, Some [x02; x01], None).
Proof. vm_compute. reflexivity. Qed.

Example normalize_div :
  normalizeHTML "<div>  <span>A</span>  </div>" = "<div><span>A</span></div>"%string.
Proof. vm_compute. reflexivity. Qed.

(** ** Tactics *)

(** Case analysis on whatever a [match] or an [if] of the goal inspects. *)
Ltac case_scrutinee :=
  match goal with
  | |- context [match ?x with _ => _ end] =>
      lazymatch x with
      | context [match _ with _ => _ end] => fail
      | _ => destruct x eqn:?
      end
  end.

(** ** Machine integers *)

Lemma wrap64_small (z : Z) : - 2 ^ 63 <= z <= max_int -> wrap64 z = z.
Proof.
  unfold wrap64, max_int. intros Hz.
  rewrite Z.mod_small by lia. lia.
Qed.

(** ** Strings *)

Lemma append_cons (c : ascii) (s t : string) :
  String c s +:+ t = String c (s +:+ t).
Proof. reflexivity. Qed.

Lemma append_nil_l (s : string) : "" +:+ s = s.
Proof. reflexivity. Qed.

Lemma append_nil_r (s : string) : s +:+ "" = s.
Proof.
  induction s as [|c s IH]; [reflexivity|].
  now rewrite append_cons, IH.
Qed.

Lemma append_assoc (s t u : string) : (s +:+ t) +:+ u = s +:+ (t +:+ u).
Proof.
  induction s as [|c s IH]; [reflexivity|].
  now rewrite !append_cons, IH.
Qed.

Lemma append_inj_l (s t u : string) : s +:+ t = s +:+ u -> t = u.
Proof.
  induction s as [|c s IH]; [tauto|].
  rewrite !append_cons. intros [= E]. auto.
Qed.

Lemma length_append (s t : string) :
  String.length (s +:+ t) = (String.length s + String.length t)%nat.
Proof.
  induction s as [|c s IH]; [reflexivity|].
  rewrite append_cons. cbn. now rewrite IH.
Qed.

Lemma CutPrefix_nil (s : string) : strings.CutPrefix s "" = Some s.
Proof. now destruct s. Qed.

(** Replacing a one-byte string by a one-byte string maps the bytes. *)
Lemma ReplaceAll_byte (c d : ascii) (s : string) :
  strings.ReplaceAll s (String c "") (String d "")
  = mapBytes (fun a => if Ascii.eqb a c then d else a) s.
Proof.
  unfold strings.ReplaceAll.
  induction s as [|a s IH]; [reflexivity|].
  cbn [strings.replaceFrom mapBytes].
  unfold strings.HasPrefix; cbn [strings.CutPrefix].
  rewrite (Ascii.eqb_sym c a).
  destruct (Ascii.eqb a c); rewrite ?CutPrefix_nil; cbn [Nat.pred String.length];
    rewrite ?append_cons, ?append_nil_l; now rewrite IH.
Qed.

Lemma mapBytes_compose (f g : ascii -> ascii) (s : string) :
  mapBytes g (mapBytes f s) = mapBytes (fun a => g (f a)) s.
Proof. induction s as [|a s IH]; simpl; [reflexivity | now rewrite IH]. Qed.

Lemma mapBytes_ext (f g : ascii -> ascii) (s : string) :
  (forall a, f a = g a) -> mapBytes f s = mapBytes g s.
Proof. intros E. induction s as [|a s IH]; simpl; [reflexivity | now rewrite IH, E]. Qed.

(** A safe test name is the test name with every space, slash and
    backslash turned into an underscore. *)
Lemma safeTestName_spec (testName : string) :
  safeTestName testName = mapBytes sanitize testName.
Proof.
  unfold safeTestName.
  rewrite !ReplaceAll_byte, !mapBytes_compose.
  apply mapBytes_ext. intros a.
  unfold sanitize, pathHostile.
  destruct (Ascii.eqb a " ") eqn:E1; [reflexivity|].
  destruct (Ascii.eqb a "/") eqn:E2; [reflexivity|].
  destruct (Ascii.eqb a "\"); reflexivity.
Qed.

(** ** Counters *)

Lemma counterOf_increment (m : gmap string Z) (k : string) :
  counterOf (increment m k) k = wrap64 (counterOf m k + 1).
Proof. unfold counterOf at 1, increment. now rewrite lookup_insert_eq. Qed.

Lemma counterOf_increment_ne (m : gmap string Z) (k k' : string) :
  k <> k' -> counterOf (increment m k) k' = counterOf m k'.
Proof. intros Hne. unfold counterOf, increment. now rewrite lookup_insert_ne. Qed.

Lemma resolveFilename_explicit (ext : string) (m : gmap string Z) (filename testName : string) :
  filename <> ""%string -> resolveFilename ext m filename testName = (m, filename).
Proof.
  intros Hne. unfold resolveFilename.
  destruct (String.eqb_spec filename ""); [contradiction | reflexivity].
Qed.

Lemma resolveFilename_auto (ext : string) (m : gmap string Z) (testName : string) :
  resolveFilename ext m "" testName
  = (increment m testName,
     safeTestName testName +:+
       occurrenceSuffix ext (wrap64 (counterOf m testName + 1))).
Proof.
  unfold resolveFilename. cbn [String.eqb].
  rewrite counterOf_increment. unfold occurrenceSuffix.
  destruct (_ =? 1); reflexivity.
Qed.

(** ** Baseline file names *)

Section FileNames.

Context {lib : GoLib} {B : Type} {chrome : Browser B}.

(** Past the resolution of the file name, a screenshot step leaves the
    runner as it is. *)
Lemma saveOrCompareScreenshot_runner (r : Runner) (w : World B) (filename : string) :
  (saveOrCompareScreenshot r w filename).1.1.1 = r.
Proof.
  unfold saveOrCompareScreenshot.
  repeat case_scrutinee; reflexivity.
Qed.

Lemma saveOrCompareSnapshot_runner (r : Runner) (w : World B) (filename : string) :
  (saveOrCompareSnapshot r w filename).1.1.1 = r.
Proof.
  unfold saveOrCompareSnapshot.
  repeat case_scrutinee; reflexivity.
Qed.

(** The counters have no part in what a step does once its file name is
    known. *)
Lemma saveOrCompareScreenshot_counters (r : Runner) (w : World B) (filename : string)
    (m : gmap string Z) :
  saveOrCompareScreenshot (with_screenshotCounter r m) w filename
  = let '(_, w', evs, err) := saveOrCompareScreenshot r w filename in
    (with_screenshotCounter r m, w', evs, err).
Proof.
  unfold saveOrCompareScreenshot. cbn [config with_screenshotCounter].
  repeat case_scrutinee; congruence.
Qed.

Lemma saveOrCompareSnapshot_counters (r : Runner) (w : World B) (filename : string)
    (m : gmap string Z) :
  saveOrCompareSnapshot (with_snapshotCounter r m) w filename
  = let '(_, w', evs, err) := saveOrCompareSnapshot r w filename in
    (with_snapshotCounter r m, w', evs, err).
Proof.
  unfold saveOrCompareSnapshot. cbn [config with_snapshotCounter].
  repeat case_scrutinee; congruence.
Qed.

Lemma takeScreenshot_counter (r : Runner) (w : World B) (filename testName : string) :
  screenshotCounter (takeScreenshot r w filename testName).1.1.1
  = (resolveFilename ".png" (screenshotCounter r) filename testName).1.
Proof.
  unfold takeScreenshot.
  destruct (resolveFilename _ _ _ _) as [counters name].
  now rewrite saveOrCompareScreenshot_runner.
Qed.

Lemma takeSnapshot_counter (r : Runner) (w : World B) (filename testName : string) :
  snapshotCounter (takeSnapshot r w filename testName).1.1.1
  = (resolveFilename ".html" (snapshotCounter r) filename testName).1.
Proof.
  unfold takeSnapshot.
  destruct (resolveFilename _ _ _ _) as [counters name].
  now rewrite saveOrCompareSnapshot_runner.
Qed.

Lemma takeSnapshot_screenshotCounter (r : Runner) (w : World B) (filename testName : string) :
  screenshotCounter (takeSnapshot r w filename testName).1.1.1 = screenshotCounter r.
Proof.
  unfold takeSnapshot.
  destruct (resolveFilename _ _ _ _) as [counters name].
  now rewrite saveOrCompareSnapshot_runner.
Qed.

Lemma takeScreenshot_snapshotCounter (r : Runner) (w : World B) (filename testName : string) :
  snapshotCounter (takeScreenshot r w filename testName).1.1.1 = snapshotCounter r.
Proof.
  unfold takeScreenshot.
  destruct (resolveFilename _ _ _ _) as [counters name].
  now rewrite saveOrCompareScreenshot_runner.
Qed.

(** One executed step moves the screenshot counter of a test name by one
    when it is a screenshot step of that test without a file name, and
    leaves it alone otherwise. *)
Lemma executeStep_screenshotCounter (r : Runner) (w : World B) (step : Step.t)
    (name testName : string) :
  counterOf (screenshotCounter (executeStep r w step name).1.1.1) testName
  = if String.eqb (Step.Action step) "screenshot" &&
       String.eqb (Step.Target step) "" && String.eqb name testName
    then wrap64 (counterOf (screenshotCounter r) testName + 1)
    else counterOf (screenshotCounter r) testName.
Proof.
  unfold executeStep.
  destruct (String.eqb_spec (Step.Action step) "screenshot") as [Ea|Ea]; cbn [andb].
  - rewrite takeScreenshot_counter.
    destruct (String.eqb_spec (Step.Target step) "") as [Et|Et]; cbn [andb].
    + rewrite Et, resolveFilename_auto. cbn [fst].
      destruct (String.eqb_spec name testName) as [->|En].
      * apply counterOf_increment.
      * now apply counterOf_increment_ne.
    + now rewrite resolveFilename_explicit.
  - destruct (String.eqb (Step.Action step) "snapshot").
    + now rewrite takeSnapshot_screenshotCounter.
    + now destruct (browserStep _ _ _) as [[b evs] err].
Qed.

Lemma executeStep_snapshotCounter (r : Runner) (w : World B) (step : Step.t)
    (name testName : string) :
  counterOf (snapshotCounter (executeStep r w step name).1.1.1) testName
  = if String.eqb (Step.Action step) "snapshot" &&
       String.eqb (Step.Target step) "" && String.eqb name testName
    then wrap64 (counterOf (snapshotCounter r) testName + 1)
    else counterOf (snapshotCounter r) testName.
Proof.
  unfold executeStep.
  destruct (String.eqb_spec (Step.Action step) "screenshot") as [Ea|Ea].
  - rewrite takeScreenshot_snapshotCounter, Ea. reflexivity.
  - destruct (String.eqb_spec (Step.Action step) "snapshot") as [Es|Es]; cbn [andb].
    + rewrite takeSnapshot_counter.
      destruct (String.eqb_spec (Step.Target step) "") as [Et|Et]; cbn [andb].
      * rewrite Et, resolveFilename_auto. cbn [fst].
        destruct (String.eqb_spec name testName) as [->|En].
        -- apply counterOf_increment.
        -- now apply counterOf_increment_ne.
      * now rewrite resolveFilename_explicit.
    + now destruct (browserStep _ _ _) as [[b evs] err].
Qed.

Lemma autoNamed_nonneg (action testName : string) (h : history (B := B)) :
  0 <= autoNamed action testName h.
Proof. unfold autoNamed. lia. Qed.

Lemma autoNamed_cons (action testName : string) (e : event) (h : history (B := B)) :
  autoNamed action testName (e :: h)
  = (if isAutoNamed action testName e then 1 else 0) + autoNamed action testName h.
Proof.
  unfold autoNamed. cbn [List.filter].
  destruct (isAutoNamed _ _ _); cbn [length]; lia.
Qed.

Lemma autoNamed_app (action testName : string) (h h' : history (B := B)) :
  autoNamed action testName (h ++ h')
  = autoNamed action testName h + autoNamed action testName h'.
Proof. unfold autoNamed. rewrite List.filter_app, length_app. lia. Qed.

(** Whatever happens to a runner moves the screenshot counter of a test
    name by one when it is a screenshot step of that test without a file
    name, and leaves it alone otherwise; likewise for snapshots. *)
Lemma after_screenshotCounter (r : Runner) (e : event) (testName : string) :
  counterOf (screenshotCounter (after r e)) testName
  = if isAutoNamed "screenshot" testName e
    then wrap64 (counterOf (screenshotCounter r) testName + 1)
    else counterOf (screenshotCounter r) testName.
Proof.
  destruct e; cbn [after isAutoNamed]; try reflexivity.
  apply executeStep_screenshotCounter.
Qed.

Lemma after_snapshotCounter (r : Runner) (e : event) (testName : string) :
  counterOf (snapshotCounter (after r e)) testName
  = if isAutoNamed "snapshot" testName e
    then wrap64 (counterOf (snapshotCounter r) testName + 1)
    else counterOf (snapshotCounter r) testName.
Proof.
  destruct e; cbn [after isAutoNamed]; try reflexivity.
  apply executeStep_snapshotCounter.
Qed.

(** The screenshot counter of a test name counts the screenshot steps of
    that name that gave no file name. *)
Lemma screenshotCounter_counts (testName : string) (h : history) (r : Runner) :
  0 <= counterOf (screenshotCounter r) testName ->
  counterOf (screenshotCounter r) testName + autoNamed "screenshot" testName h <= max_int ->
  counterOf (screenshotCounter (runnerAfter r h)) testName
  = counterOf (screenshotCounter r) testName + autoNamed "screenshot" testName h.
Proof.
  revert r. induction h as [|e h IH]; intros r Hpos Hmax.
  - unfold autoNamed. cbn. lia.
  - rewrite autoNamed_cons in *. cbn [runnerAfter fold_left].
    pose proof (autoNamed_nonneg "screenshot" testName h) as Hh.
    fold (runnerAfter (after r e) h).
    pose proof (after_screenshotCounter r e testName) as E.
    destruct (isAutoNamed _ _ _).
    + rewrite wrap64_small in E by (unfold max_int in *; lia).
      rewrite IH; rewrite E; lia.
    + rewrite IH; rewrite E; lia.
Qed.

Lemma snapshotCounter_counts (testName : string) (h : history) (r : Runner) :
  0 <= counterOf (snapshotCounter r) testName ->
  counterOf (snapshotCounter r) testName + autoNamed "snapshot" testName h <= max_int ->
  counterOf (snapshotCounter (runnerAfter r h)) testName
  = counterOf (snapshotCounter r) testName + autoNamed "snapshot" testName h.
Proof.
  revert r. induction h as [|e h IH]; intros r Hpos Hmax.
  - unfold autoNamed. cbn. lia.
  - rewrite autoNamed_cons in *. cbn [runnerAfter fold_left].
    pose proof (autoNamed_nonneg "snapshot" testName h) as Hh.
    fold (runnerAfter (after r e) h).
    pose proof (after_snapshotCounter r e testName) as E.
    destruct (isAutoNamed _ _ _).
    + rewrite wrap64_small in E by (unfold max_int in *; lia).
      rewrite IH; rewrite E; lia.
    + rewrite IH; rewrite E; lia.
Qed.

(** A runner fresh from [NewRunner] has counted nothing. *)
Lemma NewRunner_counters (cfg : option Config.t) (testName : string) :
  counterOf (screenshotCounter (NewRunner cfg)) testName = 0 /\
  counterOf (snapshotCounter (NewRunner cfg)) testName = 0.
Proof. unfold counterOf. cbn. now rewrite lookup_empty. Qed.

(** ** The runners that [Run] and [RunWithProgress] work on

    Whatever [Run] does to its runner is a history: the steps its workers
    execute and the results it stores. *)

Lemma runnerAfter_app (r : Runner) (h h' : history) :
  runnerAfter r (h ++ h') = runnerAfter (runnerAfter r h) h'.
Proof. apply fold_left_app. Qed.

Lemma runSteps_history (steps : list Step.t) (r : Runner) (w : World B)
    (errors : list ConsoleError.t) (testName : string) :
  exists h, (runSteps r w errors steps testName).1.1.1 = runnerAfter r h.
Proof.
  revert r w errors. induction steps as [|step rest IH]; intros r w errors.
  - now exists [].
  - cbn [runSteps].
    destruct (executeStep r w step testName) as [[[r1 w1] evs] err] eqn:E.
    destruct err as [e|].
    + exists [Executed w step testName]. cbn. now rewrite E.
    + destruct (IH r1 w1 (fold_left (listener (config r1)) evs errors)) as [h Hh].
      exists (Executed w step testName :: h).
      cbn [runnerAfter fold_left after]. rewrite E. exact Hh.
Qed.

Lemma runTest_history (r : Runner) (w : World B) (test : Test.t) :
  exists h, (runTest r w test).1.1 = runnerAfter r h.
Proof.
  unfold runTest. destruct (negb (allocCtx r)); [now exists []|].
  destruct (initialize _) as [b [e|]]; [now exists []|].
  destruct (runSteps_history (Test.Steps test) r (mkWorld b (disk w)) []
              (Test.Name test)) as [h Hh].
  exists h. now destruct (runSteps _ _ _ _ _) as [[[r' w'] errors] stepErr].
Qed.

Lemma pool_step_history (capacity : nat) (s s' : Pool.state B) :
  Pool.step capacity s s' ->
  exists h, Pool.runner s' = runnerAfter (Pool.runner s) h.
Proof.
  intros []; cbn [Pool.runner]; try (now exists []).
  - destruct (runTest_history r w test) as [h Hh].
    exists h. now rewrite <- Hh, H.
  - now exists [Stored (results r ++ [result])].
Qed.

Lemma run_history (capacity n : nat) (r : Runner) (w : World B) (s : Pool.state B) :
  rtc (Pool.step capacity) (Pool.init n r w) s ->
  exists h, Pool.runner s = runnerAfter r h.
Proof.
  revert s. apply rtc_ind_r.
  - now exists [Stored []].
  - intros s s' _ Hstep [h Hh].
    destruct (pool_step_history _ _ _ Hstep) as [h' Hh'].
    exists (h ++ h'). now rewrite runnerAfter_app, <- Hh.
Qed.

Lemma progress_step_history (capacity : nat) (s s' : Progress.state B) :
  Progress.step capacity s s' ->
  exists h, Pool.runner (Progress.pool s') = runnerAfter (Pool.runner (Progress.pool s)) h.
Proof.
  intros []; cbn [Pool.runner Progress.pool]; try (now exists []).
  - destruct (runTest_history r w test) as [h Hh].
    exists h. now rewrite <- Hh, H.
  - now exists [Stored (results r ++ [result])].
Qed.

Lemma run_with_progress_history (capacity n : nat) (r : Runner) (w : World B)
    (s : Progress.state B) :
  rtc (Progress.step capacity) (Progress.init n r w) s ->
  exists h, Pool.runner (Progress.pool s) = runnerAfter r h.
Proof.
  revert s. apply rtc_ind_r.
  - now exists [Stored []].
  - intros s s' _ Hstep [h Hh].
    destruct (progress_step_history _ _ _ Hstep) as [h' Hh'].
    exists (h ++ h'). now rewrite runnerAfter_app, <- Hh.
Qed.

(** The runner of every state of [Run] and of [RunWithProgress] on a runner
    with a history has a history that continues it. *)
Lemma runs_continue_history (r0 : Runner) (h : history) :
  let r := runnerAfter r0 h in
  (forall (w0 : World B) (s : Pool.state B),
     rtc (Pool.Run_step r) (Pool.Run_start r w0) s ->
     exists h', Pool.runner s = runnerAfter r0 (h ++ h')) /\
  (forall (w0 : World B) (s : Progress.state B),
     rtc (Progress.Run_step r) (Progress.Run_start r w0) s ->
     exists h', Pool.runner (Progress.pool s) = runnerAfter r0 (h ++ h')).
Proof.
  intros r. split; intros w0 s Hs.
  - destruct (run_history _ _ _ _ _ Hs) as [h' Hh'].
    exists h'. now rewrite runnerAfter_app.
  - destruct (run_with_progress_history _ _ _ _ _ Hs) as [h' Hh'].
    exists h'. now rewrite runnerAfter_app.
Qed.

End FileNames.

Lemma with_screenshotCounter_id (r : Runner) :
  with_screenshotCounter r (screenshotCounter r) = r.
Proof. now destruct r. Qed.

Lemma with_snapshotCounter_id (r : Runner) :
  with_snapshotCounter r (snapshotCounter r) = r.
Proof. now destruct r. Qed.

Lemma increment_from (m : gmap string Z) (k : string) (n : Z) :
  counterOf m k = n - 1 -> - 2 ^ 63 <= n <= max_int ->
  increment m k = <[k := n]> m.
Proof.
  intros E Hn. unfold increment. rewrite E.
  replace (n - 1 + 1) with n by lia. now rewrite wrap64_small.
Qed.

Section FileNameTheorems.

Context {lib : GoLib} {B : Type} {chrome : Browser B}.

(** C3. A screenshot step without a file name is saved or compared under
    the test name with every space, slash and backslash replaced by an
    underscore, followed by ".png" when it is the first such step of that
    test name since the runner was made and by "_N.png" when it is the
    N-th (N >= 2, N within the range of [int]). This holds of a runner
    with any history since [NewRunner]: tests added, [Start], steps
    executed, results stored; and the runner of every state of [Run] and of
    [RunWithProgress] on such a runner is such a runner again. Two such
    steps of the test "Login Test" use "Login_Test.png" and then
    "Login_Test_2.png". *)
Theorem auto_named_screenshot (cfg : option Config.t) (h : history) (w : World B)
    (testName : string) :
  let r := runnerAfter (NewRunner cfg) h in
  let n := autoNamed "screenshot" testName h + 1 in
  n <= max_int ->
  (takeScreenshot r w "" testName
   = saveOrCompareScreenshot
       (with_screenshotCounter r (<[testName := n]> (screenshotCounter r))) w
       (mapBytes sanitize testName +:+ occurrenceSuffix ".png" n)
   /\ occurrenceSuffix ".png" 1 = ".png"%string
   /\ (2 <= n -> occurrenceSuffix ".png" n = "_" +:+ itoa n +:+ ".png"))
  /\ ((forall (w0 : World B) (s : Pool.state B),
         rtc (Pool.Run_step r) (Pool.Run_start r w0) s ->
         exists h', Pool.runner s = runnerAfter (NewRunner cfg) (h ++ h')) /\
      (forall (w0 : World B) (s : Progress.state B),
         rtc (Progress.Run_step r) (Progress.Run_start r w0) s ->
         exists h', Pool.runner (Progress.pool s) = runnerAfter (NewRunner cfg) (h ++ h')))
  /\ (forall (h0 : history) (w1 w2 : World B),
        autoNamed "screenshot" "Login Test" h0 = 0 ->
        let r0 := runnerAfter (NewRunner cfg) h0 in
        let r1 := (takeScreenshot r0 w1 "" "Login Test").1.1.1 in
        takeScreenshot r0 w1 "" "Login Test"
        = saveOrCompareScreenshot r1 w1 "Login_Test.png" /\
        takeScreenshot r1 w2 "" "Login Test"
        = saveOrCompareScreenshot
            (with_screenshotCounter r1 (<["Login Test"%string := 2]> (screenshotCounter r1)))
            w2 "Login_Test_2.png").
Proof.
  intros r n Hn.
  pose proof (autoNamed_nonneg "screenshot" testName h) as Hh.
  assert (Hc : counterOf (screenshotCounter r) testName = n - 1).
  { subst r n. destruct (NewRunner_counters cfg testName) as [E0 _].
    rewrite screenshotCounter_counts; rewrite E0; lia. }
  split; [split; [|split; [reflexivity|]] | split].
  - unfold takeScreenshot. rewrite resolveFilename_auto.
    rewrite Hc. replace (n - 1 + 1) with n by lia.
    rewrite wrap64_small by (unfold max_int in *; lia).
    rewrite (increment_from _ _ n) by (unfold max_int in *; lia).
    now rewrite safeTestName_spec.
  - intros Hn2. unfold occurrenceSuffix.
    destruct (Z.eqb_spec n 1); [lia | reflexivity].
  - apply runs_continue_history.
  - intros h0 w1 w2 Hh0 r0 r1.
    assert (E0 : counterOf (screenshotCounter r0) "Login Test" = 0).
    { subst r0. destruct (NewRunner_counters cfg "Login Test") as [E0 _].
      rewrite screenshotCounter_counts; rewrite ?E0, ?Hh0; unfold max_int; lia. }
    assert (E1 : takeScreenshot r0 w1 "" "Login Test"
                 = saveOrCompareScreenshot
                     (with_screenshotCounter r0 (increment (screenshotCounter r0) "Login Test"))
                     w1 "Login_Test.png").
    { unfold takeScreenshot. now rewrite resolveFilename_auto, E0. }
    assert (Er1 : r1 = with_screenshotCounter r0
                         (increment (screenshotCounter r0) "Login Test")).
    { subst r1. now rewrite E1, saveOrCompareScreenshot_runner. }
    split; [now rewrite Er1|].
    assert (E2 : counterOf (screenshotCounter r1) "Login Test" = 2 - 1).
    { rewrite Er1. cbn [screenshotCounter with_screenshotCounter].
      now rewrite counterOf_increment, E0. }
    unfold takeScreenshot. rewrite resolveFilename_auto, E2.
    rewrite (increment_from _ _ 2 E2) by (unfold max_int; lia).
    reflexivity.
Qed.

(** C10. A screenshot or snapshot step that names its file is saved or
    compared under exactly that name; it neither reads nor changes the
    runner's counters; so a later step of the same test name without a
    file name, when none came before, still gets the first-occurrence
    name without a number. *)
Theorem explicit_filename_keeps_counters (r : Runner) (w : World B)
    (filename testName : string) :
  filename <> ""%string ->
  (takeScreenshot r w filename testName = saveOrCompareScreenshot r w filename /\
   takeSnapshot r w filename testName = saveOrCompareSnapshot r w filename) /\
  ((takeScreenshot r w filename testName).1.1.1 = r /\
   (takeSnapshot r w filename testName).1.1.1 = r) /\
  (forall m : gmap string Z,
     takeScreenshot (with_screenshotCounter r m) w filename testName
     = (let '(_, w', evs, err) := takeScreenshot r w filename testName in
        (with_screenshotCounter r m, w', evs, err)) /\
     takeSnapshot (with_snapshotCounter r m) w filename testName
     = (let '(_, w', evs, err) := takeSnapshot r w filename testName in
        (with_snapshotCounter r m, w', evs, err))) /\
  (forall w' : World B,
     (counterOf (screenshotCounter r) testName = 0 ->
      takeScreenshot (takeScreenshot r w filename testName).1.1.1 w' "" testName
      = saveOrCompareScreenshot
          (with_screenshotCounter r (<[testName := 1]> (screenshotCounter r))) w'
          (safeTestName testName +:+ ".png")) /\
     (counterOf (snapshotCounter r) testName = 0 ->
      takeSnapshot (takeSnapshot r w filename testName).1.1.1 w' "" testName
      = saveOrCompareSnapshot
          (with_snapshotCounter r (<[testName := 1]> (snapshotCounter r))) w'
          (safeTestName testName +:+ ".html"))).
Proof.
  intros Hne.
  assert (Es : takeScreenshot r w filename testName = saveOrCompareScreenshot r w filename).
  { unfold takeScreenshot.
    now rewrite resolveFilename_explicit, with_screenshotCounter_id. }
  assert (Eh : takeSnapshot r w filename testName = saveOrCompareSnapshot r w filename).
  { unfold takeSnapshot.
    now rewrite resolveFilename_explicit, with_snapshotCounter_id. }
  assert (Rs := saveOrCompareScreenshot_runner r w filename).
  assert (Rh := saveOrCompareSnapshot_runner r w filename).
  repeat split; try assumption; try congruence.
  - unfold takeScreenshot at 1. rewrite resolveFilename_explicit by assumption.
    rewrite with_screenshotCounter_id, Es.
    apply saveOrCompareScreenshot_counters.
  - unfold takeSnapshot at 1. rewrite resolveFilename_explicit by assumption.
    rewrite with_snapshotCounter_id, Eh.
    apply saveOrCompareSnapshot_counters.
  - intros E0. rewrite Es, Rs. unfold takeScreenshot.
    rewrite resolveFilename_auto, E0.
    rewrite (increment_from _ _ 1); [reflexivity | lia | unfold max_int; lia].
  - intros E0. rewrite Eh, Rh. unfold takeSnapshot.
    rewrite resolveFilename_auto, E0.
    rewrite (increment_from _ _ 1); [reflexivity | lia | unfold max_int; lia].
Qed.

End FileNameTheorems.

Lemma auto_named_screenshot_witness :
  let h := [Added (Test.mk "Login Test" [autoScreenshot; autoScreenshot]); Started;
            Executed stubWorld autoScreenshot "Login Test"; Stored []] in
  let r := runnerAfter (NewRunner None) h in
  autoNamed "screenshot" "Login Test" h + 1 <= max_int /\
  takeScreenshot r stubWorld "" "Login Test"
  = saveOrCompareScreenshot
      (with_screenshotCounter r (<["Login Test"%string := 2]> (screenshotCounter r)))
      stubWorld "Login_Test_2.png".
Proof.
  intros h r. split; [vm_compute; discriminate|].
  destruct (auto_named_screenshot None h stubWorld "Login Test") as [(E & _) _];
    [vm_compute; discriminate|].
  vm_compute in E. vm_compute. exact E.
Defined.

Lemma explicit_filename_keeps_counters_witness :
  "home.png"%string <> ""%string /\
  takeScreenshot (Start (NewRunner None)) stubWorld "home.png" "Login Test"
  = saveOrCompareScreenshot (Start (NewRunner None)) stubWorld "home.png".
Proof.
  split; [discriminate|].
  apply (explicit_filename_keeps_counters (Start (NewRunner None)) stubWorld
           "home.png" "Login Test").
  discriminate.
Defined.

(** ** Comparing screenshots *)

Lemma bytes_Equal_eq (a b : list byte) : bytes.Equal a b = true <-> a = b.
Proof.
  revert b. induction a as [|x a IH]; intros [|y b]; cbn; try easy.
  rewrite andb_true_iff, IH. split.
  - intros [E ->]. now rewrite (Byte.byte_dec_bl _ _ E).
  - intros [= -> ->]. split; [now apply Byte.byte_dec_lb | reflexivity].
Qed.

Lemma Rectangle_eqb_eq (r s : image.Rectangle) :
  image.Rectangle_eqb r s = true <-> r = s.
Proof.
  unfold image.Rectangle_eqb.
  destruct r as [[x0 y0] [x1 y1]], s as [[x0' y0'] [x1' y1']]. cbn.
  rewrite !andb_true_iff, !Z.eqb_eq. split.
  - intros [[[-> ->] ->] ->]. reflexivity.
  - intros [= -> -> -> ->]. auto.
Qed.

Section Sampling.

Variables baselineImg currentImg : image.Image.
Variable bounds : image.Rectangle.
Hypothesis bounds_png : png_bounds bounds.

Let differ (x y : Z) : Prop :=
  colorsEqual (image.At baselineImg x y) (image.At currentImg x y) = false.

(** The inner loop finds a differing pixel exactly when one of the columns
    [x], [x + 10], ... of the row differs. *)
Lemma sampleRow_spec (fuel : nat) (y x : Z) :
  0 <= x -> (Z.to_nat (image.X (image.Max bounds) - x) <= fuel)%nat ->
  sampleRow baselineImg currentImg bounds fuel y x = true
  <-> exists k, 0 <= k /\ x + 10 * k < image.X (image.Max bounds) /\ differ (x + 10 * k) y.
Proof.
  destruct bounds_png as (_ & HX & _).
  revert x. induction fuel as [|fuel IH]; intros x Hx Hfuel; cbn [sampleRow].
  - split; [discriminate|]. intros (k & Hk & Hlt & _). lia.
  - destruct (Z.ltb_spec x (image.X (image.Max bounds))) as [Hlt|Hge].
    + destruct (colorsEqual _ _) eqn:Ec; cbn [negb].
      * unfold sampleStep. rewrite wrap64_small by (unfold max_int; lia).
        rewrite IH by lia. split.
        -- intros (k & Hk & Hk' & Hd). exists (k + 1).
           replace (x + 10 * (k + 1)) with (x + 10 + 10 * k) by lia. auto with zarith.
        -- intros (k & Hk & Hk' & Hd).
           assert (k <> 0).
           { intros ->. unfold differ in Hd. rewrite Z.mul_0_r, Z.add_0_r in Hd. congruence. }
           exists (k - 1).
           replace (x + 10 + 10 * (k - 1)) with (x + 10 * k) by lia. auto with zarith.
      * split; [|reflexivity]. intros _. exists 0.
        rewrite Z.mul_0_r, Z.add_0_r. unfold differ. auto with zarith.
    + split; [discriminate|]. intros (k & Hk & Hk' & _). lia.
Qed.

Lemma sampleRows_spec (fuel : nat) (y : Z) :
  0 <= y -> (Z.to_nat (image.Y (image.Max bounds) - y) <= fuel)%nat ->
  sampleRows baselineImg currentImg bounds fuel y = true
  <-> exists k i, 0 <= k /\ 0 <= i /\
        y + 10 * k < image.Y (image.Max bounds) /\
        10 * i < image.X (image.Max bounds) /\ differ (10 * i) (y + 10 * k).
Proof.
  destruct bounds_png as (Hmin & HX & HY).
  assert (Hdx : image.Dx bounds = image.X (image.Max bounds)).
  { unfold image.Dx. rewrite Hmin. cbn. rewrite Z.sub_0_r.
    apply wrap64_small. unfold max_int. lia. }
  assert (Hrow : forall y',
    sampleRow baselineImg currentImg bounds (Z.to_nat (image.Dx bounds)) y'
              (image.X (image.Min bounds)) = true
    <-> exists i, 0 <= i /\ 10 * i < image.X (image.Max bounds) /\ differ (10 * i) y').
  { intros y'. rewrite Hmin. cbn [image.X]. rewrite sampleRow_spec by (rewrite ?Hdx; lia).
    reflexivity. }
  revert y. induction fuel as [|fuel IH]; intros y Hy Hfuel; cbn [sampleRows].
  - split; [discriminate|]. intros (k & i & Hk & _ & Hlt & _). lia.
  - destruct (Z.ltb_spec y (image.Y (image.Max bounds))) as [Hlt|Hge].
    + destruct (sampleRow _ _ _ _ _ _) eqn:Er.
      * split; [|reflexivity]. intros _.
        apply Hrow in Er. destruct Er as (i & Hi & Hi' & Hd).
        exists 0, i. rewrite Z.mul_0_r, Z.add_0_r. auto with zarith.
      * unfold sampleStep. rewrite wrap64_small by (unfold max_int; lia).
        rewrite IH by lia. split.
        -- intros (k & i & Hk & Hi & Hk' & Hi' & Hd). exists (k + 1), i.
           replace (y + 10 * (k + 1)) with (y + 10 + 10 * k) by lia. auto with zarith.
        -- intros (k & i & Hk & Hi & Hk' & Hi' & Hd).
           assert (k <> 0).
           { intros ->. rewrite Z.mul_0_r, Z.add_0_r in Hd.
             assert (sampleRow baselineImg currentImg bounds
                       (Z.to_nat (image.Dx bounds)) y (image.X (image.Min bounds)) = true)
               by (apply Hrow; eauto).
             congruence. }
           exists (k - 1), i.
           replace (y + 10 + 10 * (k - 1)) with (y + 10 * k) by lia. auto with zarith.
    + split; [discriminate|]. intros (k & i & Hk & _ & Hk' & _). lia.
Qed.

(** The sampling pass asks for the full pass exactly when a sampled pixel
    differs. *)
Lemma needsDiff_spec :
  needsDiff baselineImg currentImg bounds = true
  <-> exists x y, sampled bounds x y /\ differ x y.
Proof.
  destruct bounds_png as (Hmin & HX & HY).
  assert (Hdy : image.Dy bounds = image.Y (image.Max bounds)).
  { unfold image.Dy. rewrite Hmin. cbn. rewrite Z.sub_0_r.
    apply wrap64_small. unfold max_int. lia. }
  unfold needsDiff. rewrite Hmin. cbn [image.Y].
  rewrite sampleRows_spec by (rewrite ?Hdy; lia).
  unfold sampled. rewrite Hmin. cbn [image.X image.Y]. split.
  - intros (k & i & Hk & Hi & Hk' & Hi' & Hd).
    exists (10 * i), (0 + 10 * k). split; [|assumption].
    exists i, k. repeat split; lia.
  - intros (x & y & (i & j & Hi & Hj & -> & -> & Hx & Hy) & Hd).
    exists j, i. rewrite Z.add_0_l in Hd. repeat split; (lia || assumption).
Qed.

End Sampling.

Lemma colorsEqual_eq (c1 c2 : color.Color) : colorsEqual c1 c2 = true <-> c1 = c2.
Proof.
  unfold colorsEqual. destruct c1, c2. cbn.
  rewrite !andb_true_iff, !Z.eqb_eq. split.
  - intros [[[-> ->] ->] ->]. reflexivity.
  - intros [= -> -> -> ->]. auto.
Qed.

Section CompareTheorems.

Context {lib : GoLib}.

(** How [compareImages] goes once both inputs decode and differ as bytes. *)
Lemma compareImages_decoded (baseline current : list byte) (b c : image.Image) :
  png_Decode baseline = inl b -> png_Decode current = inl c ->
  baseline <> current ->
  compareImages baseline current
  = if negb (image.Rectangle_eqb (image.Bounds b) (image.Bounds c))
    then (1%float, None, None)
    else if negb (needsDiff b c (image.Bounds b))
         then (0%float, None, None)
         else fullComparison b c.
Proof.
  intros Hb Hc Hne. unfold compareImages. rewrite Hb, Hc.
  destruct (bytes.Equal baseline current) eqn:E; [|reflexivity].
  apply bytes_Equal_eq in E. contradiction.
Qed.

Lemma fullComparison_cases (b c : image.Image) :
  (exists err, fullComparison b c = (0%float, None, Some err)) \/
  (exists d diffBuf, fullComparison b c = (d, bytes.Buffer_Bytes diffBuf, None) /\
                     png_Encode (fullPass b c (image.Bounds b)).2 = inl diffBuf).
Proof.
  unfold fullComparison.
  destruct (fullPass b c (image.Bounds b)) as [differentPixels diffImg]. cbn [snd].
  destruct (png_Encode diffImg) as [diffBuf|err]; eauto.
Qed.

(** C5. When both inputs decode to images of the same bounds and every
    sampled pixel (every tenth column of every tenth row) has the same four
    RGBA channels in both, [compareImages] returns difference 0 and no diff
    image; so it does for two byte-identical inputs. The result is that of
    the full pass only when some sampled pixel differs. *)
Theorem sampled_pixels_equal_no_difference (baseline current : list byte)
    (b c : image.Image) :
  png_Decode baseline = inl b -> png_Decode current = inl c ->
  (baseline = current -> compareImages baseline current = (0%float, None, None)) /\
  (image.Bounds b = image.Bounds c ->
   (forall x y, sampled (image.Bounds b) x y -> image.At b x y = image.At c x y) ->
   compareImages baseline current = (0%float, None, None)) /\
  (compareImages baseline current <> (0%float, None, None) ->
   compareImages baseline current <> (1%float, None, None) ->
   compareImages baseline current = fullComparison b c /\
   exists x y, sampled (image.Bounds b) x y /\ image.At b x y <> image.At c x y).
Proof.
  intros Hb Hc.
  assert (Hsame : baseline = current ->
                  compareImages baseline current = (0%float, None, None)).
  { intros <-. unfold compareImages. rewrite Hb.
    now rewrite (proj2 (bytes_Equal_eq baseline baseline) eq_refl). }
  pose proof (png_Decode_bounds _ _ Hb) as Hpng.
  split; [exact Hsame|split].
  - intros Hbounds Hall.
    destruct (bytes.Equal baseline current) eqn:E.
    { apply bytes_Equal_eq in E. auto. }
    assert (baseline <> current)
      by (intros Heq; apply bytes_Equal_eq in Heq; congruence).
    rewrite (compareImages_decoded _ _ b c) by assumption.
    rewrite (proj2 (Rectangle_eqb_eq _ _) Hbounds). cbn [negb].
    destruct (needsDiff b c (image.Bounds b)) eqn:En; [|reflexivity].
    apply needsDiff_spec in En; [|assumption].
    destruct En as (x & y & Hs & Hd).
    rewrite (proj2 (colorsEqual_eq _ _) (Hall x y Hs)) in Hd. discriminate.
  - intros H0 H1.
    destruct (bytes.Equal baseline current) eqn:E.
    { apply bytes_Equal_eq in E. now apply Hsame in E. }
    assert (baseline <> current)
      by (intros Heq; apply bytes_Equal_eq in Heq; congruence).
    rewrite (compareImages_decoded _ _ b c) in * by assumption.
    destruct (negb (image.Rectangle_eqb _ _)); [contradiction|].
    destruct (needsDiff b c (image.Bounds b)) eqn:En; cbn [negb] in *; [|contradiction].
    split; [reflexivity|].
    apply needsDiff_spec in En; [|assumption].
    destruct En as (x & y & Hs & Hd). exists x, y. split; [assumption|].
    intros Heq. apply colorsEqual_eq in Heq. congruence.
Qed.

(** Past the decoding, images of different bounds are told apart at once. *)
Lemma compareImages_bounds_differ (baseline current : list byte) (b c : image.Image) :
  png_Decode baseline = inl b -> png_Decode current = inl c ->
  image.Bounds b <> image.Bounds c ->
  compareImages baseline current = (1%float, None, None).
Proof.
  intros Hb Hc Hne.
  assert (baseline <> current) by (intros ->; congruence).
  rewrite (compareImages_decoded _ _ b c) by assumption.
  destruct (image.Rectangle_eqb _ _) eqn:E; [|reflexivity].
  apply Rectangle_eqb_eq in E. contradiction.
Qed.

(** C6. When both inputs decode and the bounds of the two images differ,
    [compareImages] returns difference 1.0 and no diff image, whatever the
    pixels are: the result is fixed before either pixel loop. *)
Theorem different_bounds_full_difference (baseline current : list byte)
    (b c : image.Image) :
  png_Decode baseline = inl b -> png_Decode current = inl c ->
  image.Bounds b <> image.Bounds c ->
  compareImages baseline current = (1%float, None, None).
Proof.
  intros Hb Hc Hne.
  (* the two inputs are not the same bytes: they decode differently *)
  assert (Hbytes : bytes.Equal baseline current = false).
  { destruct (bytes.Equal baseline current) eqn:E; [|reflexivity].
    apply bytes_Equal_eq in E. subst current. congruence. }
  (* and the two rectangles are told apart *)
  assert (Hrect : image.Rectangle_eqb (image.Bounds b) (image.Bounds c) = false).
  { destruct (image.Rectangle_eqb _ _) eqn:E; [|reflexivity].
    apply Rectangle_eqb_eq in E. contradiction. }
  unfold compareImages. now rewrite Hb, Hc, Hbytes, Hrect.
Qed.

End CompareTheorems.

Lemma sampled_equal_witness :
  compareImages [x02; x01; x00; x05] [x02; x01; x00; x07] = (0%float, None, None).
Proof.
  refine (proj1 (proj2 (sampled_pixels_equal_no_difference
                          [x02; x01; x00; x05] [x02; x01; x00; x07] _ _ eq_refl eq_refl))
            eq_refl _).
  intros x y (i & j & Hi & Hj & -> & -> & Hx & Hy). cbn in Hx, Hy.
  assert (i = 0) by lia. assert (j = 0) by lia. subst. reflexivity.
Defined.

Lemma different_bounds_witness :
  compareImages [x01; x01; x00] [x02; x01; x00; x00] = (1%float, None, None).
Proof.
  refine (different_bounds_full_difference
            [x01; x01; x00] [x02; x01; x00; x00] _ _ eq_refl eq_refl _).
  cbn. discriminate.
Defined.

(** ** More on strings *)

Lemma CutPrefix_spec (s p r : string) :
  strings.CutPrefix s p = Some r <-> s = p +:+ r.
Proof.
  revert s. induction p as [|a p IH]; intros s.
  - rewrite CutPrefix_nil, append_nil_l. split; congruence.
  - destruct s as [|b s]; cbn [strings.CutPrefix]; rewrite append_cons.
    + split; discriminate.
    + destruct (Ascii.eqb_spec a b) as [->|Hne].
      * rewrite IH. split; [now intros -> | now intros [= ->]].
      * split; [discriminate | intros [= E _]; congruence].
Qed.

Lemma HasPrefix_spec (s p : string) :
  strings.HasPrefix s p = true <-> exists r, s = p +:+ r.
Proof.
  unfold strings.HasPrefix.
  destruct (strings.CutPrefix s p) as [r|] eqn:E.
  - apply CutPrefix_spec in E. split; eauto.
  - split; [discriminate|]. intros [r Hr].
    apply CutPrefix_spec in Hr. congruence.
Qed.

Lemma HasPrefix_append (s t p : string) :
  strings.HasPrefix s p = true -> strings.HasPrefix (s +:+ t) p = true.
Proof.
  rewrite !HasPrefix_spec. intros [r ->]. exists (r +:+ t). apply append_assoc.
Qed.

Lemma HasPrefix_shorter (s p q : string) :
  strings.HasPrefix s (p +:+ q) = true -> strings.HasPrefix s p = true.
Proof.
  rewrite !HasPrefix_spec. intros [r ->]. exists (q +:+ r). apply append_assoc.
Qed.

Lemma HasPrefix_length (s p : string) :
  strings.HasPrefix s p = true -> (String.length p <= String.length s)%nat.
Proof. rewrite HasPrefix_spec. intros [r ->]. rewrite length_append. lia. Qed.

Lemma Contains_cons (c : ascii) (s p : string) :
  strings.Contains (String c s) p
  = strings.HasPrefix (String c s) p || strings.Contains s p.
Proof. reflexivity. Qed.

(** A string that does not contain [p] has no part that does. *)
Lemma Contains_suffix (a s p : string) :
  strings.Contains (a +:+ s) p = false -> strings.Contains s p = false.
Proof.
  induction a as [|c a IH]; [tauto|].
  rewrite append_cons, Contains_cons. intros [_ E]%orb_false_elim. auto.
Qed.

Lemma Contains_prefix (s b p : string) :
  strings.Contains (s +:+ b) p = false -> strings.Contains s p = false.
Proof.
  induction s as [|c s IH].
  - rewrite append_nil_l. intros E.
    destruct (strings.Contains "" p) eqn:E'; [|reflexivity].
    cbn in E'. rewrite orb_false_r in E'.
    apply HasPrefix_spec in E' as [r Hr].
    destruct p; [|discriminate].
    destruct b; cbn in E; discriminate.
  - rewrite append_cons, !Contains_cons. intros [E1 E2]%orb_false_elim.
    rewrite IH by assumption. rewrite orb_false_r.
    destruct (strings.HasPrefix (String c s) p) eqn:E; [|reflexivity].
    apply (HasPrefix_append _ b) in E. rewrite append_cons in E. congruence.
Qed.

Lemma Contains_infix (a s b p : string) :
  strings.Contains (a +:+ s +:+ b) p = false -> strings.Contains s p = false.
Proof. intros E. apply Contains_suffix in E. now apply Contains_prefix in E. Qed.

Lemma Contains_shorter (s p q : string) :
  strings.Contains s p = false -> strings.Contains s (p +:+ q) = false.
Proof.
  induction s as [|c s IH].
  - cbn. rewrite !orb_false_r. intros E.
    destruct (strings.HasPrefix "" (p +:+ q)) eqn:E'; [|reflexivity].
    apply HasPrefix_shorter in E'. congruence.
  - rewrite !Contains_cons. intros [E1 E2]%orb_false_elim.
    rewrite IH by assumption. rewrite orb_false_r.
    destruct (strings.HasPrefix (String c s) (p +:+ q)) eqn:E'; [|reflexivity].
    apply HasPrefix_shorter in E'. congruence.
Qed.

(** Replacing what does not occur changes nothing. *)
Lemma ReplaceAll_absent (s old new : string) :
  strings.Contains s old = false -> strings.ReplaceAll s old new = s.
Proof.
  unfold strings.ReplaceAll. induction s as [|c s IH]; [reflexivity|].
  rewrite Contains_cons. intros [E1 E2]%orb_false_elim.
  cbn [strings.replaceFrom]. rewrite E1. now rewrite IH.
Qed.

(** A replacement by something no longer than what it replaces does not
    lengthen the string, and shortens it when it is shorter and there is
    something to replace. *)
Lemma replaceFrom_length (old new : string) (k : nat) (s : string) :
  (String.length new <= String.length old)%nat ->
  (String.length (strings.replaceFrom old new k s) <= String.length s - k)%nat.
Proof.
  intros Hlen. revert k. induction s as [|c s IH]; intros k; [cbn; lia|].
  destruct k as [|k]; cbn [strings.replaceFrom].
  - destruct (strings.HasPrefix (String c s) old) eqn:E.
    + apply HasPrefix_length in E. cbn [String.length] in *.
      rewrite length_append. specialize (IH (Nat.pred (String.length old))). lia.
    + cbn [String.length]. specialize (IH O). lia.
  - cbn [String.length]. specialize (IH k). lia.
Qed.

Lemma ReplaceAll_shorter (s old new : string) :
  (String.length new < String.length old)%nat ->
  strings.Contains s old = true ->
  (String.length (strings.ReplaceAll s old new) < String.length s)%nat.
Proof.
  intros Hlen. unfold strings.ReplaceAll.
  induction s as [|c s IH].
  - cbn. rewrite orb_false_r. intros E%HasPrefix_length. cbn in E. lia.
  - rewrite Contains_cons. cbn [strings.replaceFrom].
    destruct (strings.HasPrefix (String c s) old) eqn:E; cbn [orb].
    + intros _. apply HasPrefix_length in E. cbn [String.length] in *.
      rewrite length_append.
      pose proof (replaceFrom_length old new (Nat.pred (String.length old)) s). lia.
    + intros Hc. cbn [String.length]. specialize (IH Hc). lia.
Qed.

(** *** Single bytes and pairs of bytes *)

Lemma Contains_byte (x c : ascii) (s : string) :
  strings.Contains (String x s) (String c "")
  = Ascii.eqb c x || strings.Contains s (String c "").
Proof.
  rewrite Contains_cons. f_equal.
  unfold strings.HasPrefix. cbn [strings.CutPrefix].
  destruct (Ascii.eqb c x); [now rewrite CutPrefix_nil | reflexivity].
Qed.

Lemma Contains_pair (x a b : ascii) (s : string) :
  strings.Contains (String x s) (String a (String b ""))
  = (Ascii.eqb a x && startsWith b s) || strings.Contains s (String a (String b "")).
Proof.
  rewrite Contains_cons. f_equal.
  unfold strings.HasPrefix. cbn [strings.CutPrefix].
  destruct (Ascii.eqb a x); [|reflexivity].
  destruct s as [|y s]; cbn [strings.CutPrefix startsWith andb]; [reflexivity|].
  destruct (Ascii.eqb b y); [now rewrite CutPrefix_nil | reflexivity].
Qed.

Lemma Contains_byte_append (c : ascii) (s t : string) :
  strings.Contains (s +:+ t) (String c "")
  = strings.Contains s (String c "") || strings.Contains t (String c "").
Proof.
  induction s as [|x s IH].
  - rewrite append_nil_l. reflexivity.
  - rewrite append_cons, !Contains_byte, IH. now rewrite orb_assoc.
Qed.

(** A replacement brings in no byte that neither the string nor the
    replacement text has. *)
Lemma replaceFrom_byte (old new : string) (c : ascii) (k : nat) (s : string) :
  strings.Contains new (String c "") = false ->
  strings.Contains s (String c "") = false ->
  strings.Contains (strings.replaceFrom old new k s) (String c "") = false.
Proof.
  intros Hnew. revert k. induction s as [|x s IH]; intros k Hs; [assumption|].
  rewrite Contains_byte in Hs. apply orb_false_elim in Hs as [Hx Hs].
  destruct k as [|k]; cbn [strings.replaceFrom]; [|auto].
  destruct (strings.HasPrefix (String x s) old).
  - rewrite Contains_byte_append, Hnew. cbn [orb]. auto.
  - rewrite Contains_byte, Hx. cbn [orb]. auto.
Qed.

Lemma mapBytes_byte (f : ascii -> ascii) (c : ascii) (s : string) :
  (forall a, Ascii.eqb c (f a) = false) ->
  strings.Contains (mapBytes f s) (String c "") = false.
Proof.
  intros Hf. induction s as [|x s IH]; [reflexivity|].
  cbn [mapBytes]. now rewrite Contains_byte, Hf, IH.
Qed.

(** The scan of [ReplaceAll] for a two-byte [old] and a one-byte [new],
    and for a three-byte [old] and a two-byte [new]. *)
Lemma ReplaceAll_2_1 (a b n x : ascii) (s : string) :
  strings.ReplaceAll (String x s) (String a (String b "")) (String n "")
  = if Ascii.eqb a x && startsWith b s
    then String n (strings.ReplaceAll (tail s) (String a (String b "")) (String n ""))
    else String x (strings.ReplaceAll s (String a (String b "")) (String n "")).
Proof.
  unfold strings.ReplaceAll. cbn [strings.replaceFrom].
  unfold strings.HasPrefix. cbn [strings.CutPrefix].
  destruct (Ascii.eqb a x); cbn [andb]; [|reflexivity].
  destruct s as [|y s]; cbn [strings.CutPrefix startsWith]; [reflexivity|].
  destruct (Ascii.eqb b y); [|reflexivity].
  rewrite CutPrefix_nil. reflexivity.
Qed.

Lemma ReplaceAll_3_2 (a b c n1 n2 x : ascii) (s : string) :
  strings.ReplaceAll (String x s) (String a (String b (String c "")))
                     (String n1 (String n2 ""))
  = if Ascii.eqb a x && startsWith b s && startsWith c (tail s)
    then String n1 (String n2
           (strings.ReplaceAll (tail (tail s)) (String a (String b (String c "")))
                               (String n1 (String n2 ""))))
    else String x (strings.ReplaceAll s (String a (String b (String c "")))
                                      (String n1 (String n2 ""))).
Proof.
  unfold strings.ReplaceAll. cbn [strings.replaceFrom].
  unfold strings.HasPrefix. cbn [strings.CutPrefix].
  destruct (Ascii.eqb a x); cbn [andb]; [|reflexivity].
  destruct s as [|y s]; cbn [strings.CutPrefix startsWith andb]; [reflexivity|].
  destruct (Ascii.eqb b y); cbn [andb]; [|reflexivity].
  destruct s as [|z s]; cbn [strings.CutPrefix startsWith tail]; [reflexivity|].
  destruct (Ascii.eqb c z); [|reflexivity].
  rewrite CutPrefix_nil. reflexivity.
Qed.

(** *** The three replacements around tags *)

Ltac chars :=
  repeat match goal with
    | E : Ascii.eqb _ _ = true |- _ => apply Ascii.eqb_eq in E; subst
    | E : _ && _ = true |- _ => apply andb_prop in E as [? ?]
    end.

(** ["> <"] to ["><"]: no two spaces in a row come up, and the first byte
    stays. *)
Lemma tag_gap_props (n : nat) (s : string) :
  (String.length s <= n)%nat ->
  strings.Contains s "  " = false ->
  strings.Contains (strings.ReplaceAll s "> <" "><") "  " = false /\
  forall c, startsWith c (strings.ReplaceAll s "> <" "><") = startsWith c s.
Proof.
  revert s. induction n as [|n IH]; intros [|x s] Hlen Hd;
    try (split; [assumption | reflexivity]); cbn [String.length] in Hlen; [lia|].
  rewrite ReplaceAll_3_2.
  rewrite Contains_pair in Hd. apply orb_false_elim in Hd as [Hx Hd].
  destruct (_ && _ && _) eqn:E.
  - destruct s as [|y [|z t]]; cbn [startsWith tail andb] in E;
      rewrite ?andb_false_r in E; try discriminate.
    chars. cbn [tail].
    rewrite !Contains_pair in Hd. cbn in Hd.
    destruct (IH t) as [IHd _]; [cbn [String.length] in Hlen; lia | assumption |].
    split; [|reflexivity].
    rewrite !Contains_pair. cbn. assumption.
  - destruct (IH s) as [IHd IHh]; [lia | assumption |].
    split; [|reflexivity].
    rewrite Contains_pair, IHh, Hx, IHd. reflexivity.
Qed.

(** ["> "] to [">"]: still no two spaces in a row, no ["> "] is left, and
    the first byte stays. *)
Lemma after_tag_props (n : nat) (s : string) :
  (String.length s <= n)%nat ->
  strings.Contains s "  " = false ->
  strings.Contains (strings.ReplaceAll s "> " ">") "  " = false /\
  strings.Contains (strings.ReplaceAll s "> " ">") "> " = false /\
  forall c, startsWith c (strings.ReplaceAll s "> " ">") = startsWith c s.
Proof.
  revert s. induction n as [|n IH]; intros [|x s] Hlen Hd;
    try (repeat split; assumption || reflexivity); cbn [String.length] in Hlen; [lia|].
  rewrite ReplaceAll_2_1.
  rewrite Contains_pair in Hd. apply orb_false_elim in Hd as [Hx Hd].
  destruct (Ascii.eqb ">" x && startsWith " " s) eqn:E.
  - destruct s as [|y t]; cbn [startsWith tail] in E;
      rewrite ?andb_false_r in E; try discriminate.
    chars. cbn [tail].
    rewrite Contains_pair in Hd. apply orb_false_elim in Hd as [Hy Hd].
    cbn in Hy.
    destruct (IH t) as (IHd & IHg & IHh); [cbn [String.length] in Hlen; lia | assumption |].
    repeat split.
    + rewrite Contains_pair. cbn. assumption.
    + rewrite Contains_pair, IHh, IHg, Hy. reflexivity.
  - destruct (IH s) as (IHd & IHg & IHh); [lia | assumption |].
    repeat split.
    + rewrite Contains_pair, IHh, Hx, IHd. reflexivity.
    + rewrite Contains_pair, IHh, E, IHg. reflexivity.
Qed.

(** [" <"] to ["<"]: still no two spaces in a row and no ["> "], no [" <"]
    is left, and the first byte stays unless it was the space of a [" <"]. *)
Lemma before_tag_props (n : nat) (s : string) :
  (String.length s <= n)%nat ->
  strings.Contains s "  " = false ->
  strings.Contains s "> " = false ->
  strings.Contains (strings.ReplaceAll s " <" "<") "  " = false /\
  strings.Contains (strings.ReplaceAll s " <" "<") "> " = false /\
  strings.Contains (strings.ReplaceAll s " <" "<") " <" = false /\
  ((forall c, startsWith c (strings.ReplaceAll s " <" "<") = startsWith c s) \/
   (startsWith " " s = true /\
    forall c, startsWith c (strings.ReplaceAll s " <" "<") = Ascii.eqb c "<")).
Proof.
  revert s. induction n as [|n IH]; intros [|x s] Hlen Hd Hg;
    try (repeat split; try left; assumption || reflexivity);
    cbn [String.length] in Hlen; [lia|].
  rewrite ReplaceAll_2_1.
  rewrite Contains_pair in Hd. apply orb_false_elim in Hd as [Hx Hd].
  rewrite Contains_pair in Hg. apply orb_false_elim in Hg as [Hxg Hg].
  destruct (Ascii.eqb " " x && startsWith "<" s) eqn:E.
  - destruct s as [|y t]; cbn [startsWith tail] in E;
      rewrite ?andb_false_r in E; try discriminate.
    chars. cbn [tail].
    rewrite Contains_pair in Hd. apply orb_false_elim in Hd as [_ Hd].
    rewrite Contains_pair in Hg. apply orb_false_elim in Hg as [_ Hg].
    destruct (IH t) as (IHd & IHg & IHl & _);
      [cbn [String.length] in Hlen; lia | assumption | assumption |].
    repeat split.
    + rewrite Contains_pair. cbn. assumption.
    + rewrite Contains_pair. cbn. assumption.
    + rewrite Contains_pair. cbn. assumption.
    + right. split; reflexivity.
  - destruct (IH s) as (IHd & IHg & IHl & [IHh | [Hsp IHh]]);
      [lia | assumption | assumption | |].
    + repeat split.
      * rewrite Contains_pair, IHh, Hx, IHd. reflexivity.
      * rewrite Contains_pair, IHh, Hxg, IHg. reflexivity.
      * rewrite Contains_pair, IHh, E, IHl. reflexivity.
      * left. reflexivity.
    + rewrite Hsp, andb_true_r in Hx.
      repeat split.
      * rewrite Contains_pair, IHh, IHd. cbn. now rewrite andb_false_r.
      * rewrite Contains_pair, IHh, IHg. cbn. now rewrite andb_false_r.
      * rewrite Contains_pair, IHh, IHl, Hx. reflexivity.
      * left. reflexivity.
Qed.

(** *** Collapsing runs of spaces *)

Lemma collapseSpaces_done (fuel : nat) (s : string) :
  (String.length s <= fuel)%nat ->
  strings.Contains (collapseSpaces fuel s) "  " = false.
Proof.
  revert s. induction fuel as [|fuel IH]; intros s Hlen; cbn [collapseSpaces].
  - destruct s; [reflexivity | cbn in Hlen; lia].
  - destruct (strings.Contains s "  ") eqn:E; [|assumption].
    apply IH.
    pose proof (ReplaceAll_shorter s "  " " " ltac:(cbn; lia) E). lia.
Qed.

Lemma collapseSpaces_id (fuel : nat) (s : string) :
  strings.Contains s "  " = false -> collapseSpaces fuel s = s.
Proof. intros E. destruct fuel; cbn [collapseSpaces]; [reflexivity | now rewrite E]. Qed.

Lemma collapseSpaces_byte (c : ascii) (fuel : nat) (s : string) :
  Ascii.eqb c " " = false ->
  strings.Contains s (String c "") = false ->
  strings.Contains (collapseSpaces fuel s) (String c "") = false.
Proof.
  intros Hc. revert s. induction fuel as [|fuel IH]; intros s Hs; cbn [collapseSpaces];
    [assumption|].
  destruct (strings.Contains s "  "); [|assumption].
  apply IH. apply replaceFrom_byte; [|assumption].
  rewrite Contains_byte, Hc. reflexivity.
Qed.

(** *** Trimming *)

Lemma reverse_append (s t : string) :
  strings.reverse (s +:+ t) = strings.reverse t +:+ strings.reverse s.
Proof.
  induction s as [|c s IH].
  - rewrite append_nil_l. cbn. now rewrite append_nil_r.
  - rewrite append_cons. cbn [strings.reverse]. now rewrite IH, append_assoc.
Qed.

Lemma reverse_involutive (s : string) : strings.reverse (strings.reverse s) = s.
Proof.
  induction s as [|c s IH]; [reflexivity|].
  cbn [strings.reverse]. rewrite reverse_append, IH. reflexivity.
Qed.

Lemma cutAny_Some (cutset : list string) (s r : string) :
  strings.cutAny cutset s = Some r -> exists p, In p cutset /\ s = p +:+ r.
Proof.
  induction cutset as [|p ps IH]; cbn [strings.cutAny]; [discriminate|].
  destruct (strings.CutPrefix s p) as [r'|] eqn:E.
  - intros [= <-]. apply CutPrefix_spec in E. exists p. cbn. auto.
  - intros Hr. destruct (IH Hr) as (q & Hq & Hs). exists q. cbn. auto.
Qed.

Lemma cutAny_None (cutset : list string) (s : string) :
  strings.cutAny cutset s = None <-> forall p, In p cutset -> strings.HasPrefix s p = false.
Proof.
  unfold strings.HasPrefix.
  induction cutset as [|p ps IH]; cbn [strings.cutAny].
  - split; [intros _ p [] | reflexivity].
  - destruct (strings.CutPrefix s p) as [r|] eqn:E.
    + split; [discriminate|]. intros Hall.
      specialize (Hall p (or_introl eq_refl)). rewrite E in Hall. discriminate.
    + rewrite IH. split.
      * intros Hall q [<-|Hq]; [now rewrite E | auto].
      * intros Hall q Hq. apply Hall. now right.
Qed.

Lemma cutAny_None_prefix (cutset : list string) (s b : string) :
  strings.cutAny cutset (s +:+ b) = None -> strings.cutAny cutset s = None.
Proof.
  rewrite !cutAny_None. intros Hall p Hp.
  destruct (strings.HasPrefix s p) eqn:E; [|reflexivity].
  apply (HasPrefix_append _ b) in E. rewrite Hall in E by assumption. discriminate.
Qed.

Lemma trimLeftAny_id (cutset : list string) (fuel : nat) (s : string) :
  strings.cutAny cutset s = None -> strings.trimLeftAny cutset fuel s = s.
Proof. intros E. destruct fuel; cbn [strings.trimLeftAny]; [reflexivity | now rewrite E]. Qed.

Lemma trimLeftAny_suffix (cutset : list string) (fuel : nat) (s : string) :
  exists a, s = a +:+ strings.trimLeftAny cutset fuel s.
Proof.
  revert s. induction fuel as [|fuel IH]; intros s; cbn [strings.trimLeftAny].
  - now exists ""%string.
  - destruct (strings.cutAny cutset s) as [r|] eqn:E; [|now exists ""%string].
    apply cutAny_Some in E as (p & _ & ->).
    destruct (IH r) as [a Ha]. exists (p +:+ a).
    rewrite append_assoc. now rewrite <- Ha.
Qed.

(** With enough rounds nothing of the cutset is left in front. *)
Lemma trimLeftAny_done (cutset : list string) (fuel : nat) (s : string) :
  (forall p, In p cutset -> p <> ""%string) ->
  (String.length s <= fuel)%nat ->
  strings.cutAny cutset (strings.trimLeftAny cutset fuel s) = None.
Proof.
  intros Hne. revert s. induction fuel as [|fuel IH]; intros s Hlen;
    cbn [strings.trimLeftAny].
  - destruct s; [|cbn in Hlen; lia].
    apply cutAny_None. intros p Hp.
    destruct (strings.HasPrefix "" p) eqn:E; [|reflexivity].
    apply HasPrefix_length in E. specialize (Hne p Hp).
    destruct p; [contradiction | cbn in E; lia].
  - destruct (strings.cutAny cutset s) as [r|] eqn:E; [|assumption].
    apply IH. apply cutAny_Some in E as (p & Hp & ->).
    specialize (Hne p Hp). rewrite length_append in Hlen.
    destruct p; [contradiction | cbn in Hlen; lia].
Qed.

Lemma spaces_nonempty (p : string) : In p strings.spaces -> p <> ""%string.
Proof. cbn. intros Hp. repeat (destruct Hp as [<-|Hp]; [discriminate|]). destruct Hp. Qed.

Lemma reversed_spaces_nonempty (p : string) :
  In p (map strings.reverse strings.spaces) -> p <> ""%string.
Proof. cbn. intros Hp. repeat (destruct Hp as [<-|Hp]; [discriminate|]). destruct Hp. Qed.

(** What [TrimSpace] returns is a part of its argument with no white space
    at either end. *)
Lemma TrimSpace_spec (s : string) :
  (exists a b, s = a +:+ strings.TrimSpace s +:+ b) /\
  strings.cutAny strings.spaces (strings.TrimSpace s) = None /\
  strings.cutAny (map strings.reverse strings.spaces)
                 (strings.reverse (strings.TrimSpace s)) = None.
Proof.
  unfold strings.TrimSpace.
  set (s1 := strings.trimLeftAny strings.spaces (String.length s) s).
  set (t := strings.trimLeftAny (map strings.reverse strings.spaces)
              (String.length s1) (strings.reverse s1)).
  destruct (trimLeftAny_suffix strings.spaces (String.length s) s) as [a Ha].
  fold s1 in Ha.
  destruct (trimLeftAny_suffix (map strings.reverse strings.spaces)
              (String.length s1) (strings.reverse s1)) as [b Hb].
  fold t in Hb.
  assert (Hs1 : s1 = strings.reverse t +:+ strings.reverse b).
  { rewrite <- reverse_append, <- Hb. symmetry. apply reverse_involutive. }
  assert (Ht : strings.cutAny (map strings.reverse strings.spaces) t = None).
  { apply trimLeftAny_done; [exact reversed_spaces_nonempty|].
    assert (forall u, String.length (strings.reverse u) = String.length u) as Hl.
    { induction u as [|c u IHu]; [reflexivity|].
      cbn [strings.reverse]. rewrite length_append, IHu. cbn. lia. }
    rewrite Hl. lia. }
  repeat split.
  - exists a, (strings.reverse b). now rewrite <- Hs1.
  - apply (cutAny_None_prefix _ _ (strings.reverse b)). rewrite <- Hs1.
    apply trimLeftAny_done; [exact spaces_nonempty | lia].
  - now rewrite reverse_involutive.
Qed.

Lemma TrimSpace_fixed (s : string) :
  strings.cutAny strings.spaces s = None ->
  strings.cutAny (map strings.reverse strings.spaces) (strings.reverse s) = None ->
  strings.TrimSpace s = s.
Proof.
  intros Hl Hr. unfold strings.TrimSpace.
  rewrite (trimLeftAny_id _ _ _ Hl), (trimLeftAny_id _ _ _ Hr).
  apply reverse_involutive.
Qed.

Lemma TrimSpace_idempotent (s : string) :
  strings.TrimSpace (strings.TrimSpace s) = strings.TrimSpace s.
Proof. destruct (TrimSpace_spec s) as (_ & Hl & Hr). now apply TrimSpace_fixed. Qed.

(** ** Normalized HTML *)

Lemma untrimmed_replaced (html : string) : replaced (untrimmed html).
Proof.
  unfold untrimmed.
  set (h3 := strings.ReplaceAll (strings.ReplaceAll (strings.ReplaceAll html LF " ") CR " ")
                                TAB " ").
  assert (Hbyte : forall c,
            (c = "010" \/ c = "013" \/ c = "009")%char ->
            strings.Contains h3 (String c "") = false).
  { intros c Hc. subst h3. unfold LF, CR, TAB.
    rewrite !ReplaceAll_byte, !mapBytes_compose.
    apply mapBytes_byte. intros a.
    destruct Hc as [-> | [-> | ->]];
      destruct (Ascii.eqb a "010") eqn:E1; try reflexivity;
      destruct (Ascii.eqb a "013") eqn:E2; try reflexivity;
      destruct (Ascii.eqb a "009") eqn:E3; try reflexivity;
      rewrite Ascii.eqb_sym; assumption. }
  set (h4 := collapseSpaces (String.length h3) h3).
  assert (Hd4 : strings.Contains h4 "  " = false)
    by (apply collapseSpaces_done; lia).
  destruct (tag_gap_props _ _ (le_n _) Hd4) as [Hd5 _].
  set (h5 := strings.ReplaceAll h4 "> <" "><") in *.
  destruct (after_tag_props _ _ (le_n _) Hd5) as (Hd6 & Hg6 & _).
  set (h6 := strings.ReplaceAll h5 "> " ">") in *.
  destruct (before_tag_props _ _ (le_n _) Hd6 Hg6) as (Hd7 & Hg7 & Hl7 & _).
  assert (Hbyte7 : forall c,
            (c = "010" \/ c = "013" \/ c = "009")%char ->
            strings.Contains (strings.ReplaceAll h6 " <" "<") (String c "") = false).
  { intros c Hc.
    assert (Ascii.eqb c " " = false /\ Ascii.eqb c ">" = false /\ Ascii.eqb c "<" = false)
      as (Hsp & Hgt & Hlt) by (destruct Hc as [-> | [-> | ->]]; repeat split; reflexivity).
    unfold strings.ReplaceAll.
    apply replaceFrom_byte; [now rewrite Contains_byte, Hlt|].
    apply replaceFrom_byte; [now rewrite Contains_byte, Hgt|].
    apply replaceFrom_byte; [now rewrite !Contains_byte, Hgt, Hlt|].
    apply collapseSpaces_byte; auto. }
  unfold replaced, LF, CR, TAB. repeat split; auto.
Qed.

Lemma replaced_infix (a s b : string) : replaced (a +:+ s +:+ b) -> replaced s.
Proof.
  unfold replaced. intros (H1 & H2 & H3 & H4 & H5 & H6).
  repeat split; eapply Contains_infix; eassumption.
Qed.

(** A string with nothing to replace and nothing to trim is its own
    normal form. *)
Lemma normalizeHTML_fixed (s : string) :
  replaced s -> strings.TrimSpace s = s -> normalizeHTML s = s.
Proof.
  intros (H1 & H2 & H3 & H4 & H5 & H6) Htrim. unfold normalizeHTML.
  rewrite (ReplaceAll_absent s LF) by assumption.
  rewrite (ReplaceAll_absent s CR) by assumption.
  rewrite (ReplaceAll_absent s TAB) by assumption.
  rewrite collapseSpaces_id by assumption.
  rewrite (ReplaceAll_absent s "> <")
    by (change "> <"%string with ("> " +:+ "<"); now apply Contains_shorter).
  rewrite (ReplaceAll_absent s "> ") by assumption.
  rewrite (ReplaceAll_absent s " <") by assumption.
  assumption.
Qed.

(** C8. [normalizeHTML] is idempotent, and "<div>  <span>A</span>  </div>"
    has the normal form of "<div><span>A</span></div>". *)
Theorem normalizeHTML_idempotent :
  (forall x : string, normalizeHTML (normalizeHTML x) = normalizeHTML x) /\
  normalizeHTML "<div>  <span>A</span>  </div>"
  = normalizeHTML "<div><span>A</span></div>".
Proof.
  split; [|vm_compute; reflexivity].
  intros x. change (normalizeHTML x) with (strings.TrimSpace (untrimmed x)).
  destruct (TrimSpace_spec (untrimmed x)) as ((a & b & Hab) & _).
  apply normalizeHTML_fixed.
  - apply (replaced_infix a _ b). rewrite <- Hab. apply untrimmed_replaced.
  - apply TrimSpace_idempotent.
Qed.

(** ** Screenshot baselines *)

Lemma TrimSuffix_cases (s suffix : string) :
  strings.TrimSuffix s suffix = s \/ s = strings.TrimSuffix s suffix +:+ suffix.
Proof.
  unfold strings.TrimSuffix, strings.CutSuffix.
  destruct (strings.CutPrefix (strings.reverse s) (strings.reverse suffix)) as [r|] eqn:E;
    cbn; [|now left].
  right. apply CutPrefix_spec in E.
  rewrite <- (reverse_involutive s), E, reverse_append.
  now rewrite reverse_involutive.
Qed.

Lemma append_longer (s t : string) : t <> ""%string -> s <> s +:+ t.
Proof.
  intros Ht E. apply (f_equal String.length) in E.
  rewrite length_append in E. destruct t; [contradiction | cbn in E; lia].
Qed.

(** The two artifacts never overwrite the baseline or each other. *)
Lemma artifact_paths_distinct (path : string) :
  let stem := strings.TrimSuffix path ".png" in
  path <> stem +:+ ".actual.png" /\
  path <> stem +:+ ".diff.png" /\
  stem +:+ ".actual.png" <> stem +:+ ".diff.png".
Proof.
  intros stem. repeat split.
  - destruct (TrimSuffix_cases path ".png") as [E|E]; fold stem in E.
    + rewrite <- E at 1. now apply append_longer.
    + rewrite E at 1. intros [=]%append_inj_l.
  - destruct (TrimSuffix_cases path ".png") as [E|E]; fold stem in E.
    + rewrite <- E at 1. now apply append_longer.
    + rewrite E at 1. intros [=]%append_inj_l.
  - intros [=]%append_inj_l.
Qed.

Lemma WriteFile_files (fs : os.FS) (name name' : string) (data : list byte) :
  os.files (os.WriteFile fs name data).1 !! name'
  = match os.fault fs (os.WriteFileOp name) with
    | Some _ =>
        match os.partial fs name with
        | Some k => if decide (name = name') then Some (take k data) else os.files fs !! name'
        | None => os.files fs !! name'
        end
    | None => if decide (name = name') then Some data else os.files fs !! name'
    end.
Proof.
  unfold os.WriteFile.
  destruct (os.fault fs (os.WriteFileOp name)); cbn;
    [destruct (os.partial fs name); cbn; [|reflexivity]|]; apply lookup_insert.
Qed.

Lemma WriteFile_fault (fs : os.FS) (name : string) (data : list byte) :
  os.fault (os.WriteFile fs name data).1 = os.fault fs.
Proof.
  unfold os.WriteFile.
  destruct (os.fault fs (os.WriteFileOp name)); [|reflexivity].
  now destruct (os.partial fs name).
Qed.

Lemma WriteFile_partial (fs : os.FS) (name : string) (data : list byte) :
  os.partial (os.WriteFile fs name data).1 = os.partial fs.
Proof.
  unfold os.WriteFile.
  destruct (os.fault fs (os.WriteFileOp name)); [|reflexivity].
  now destruct (os.partial fs name).
Qed.



Lemma ReadFile_files (fs : os.FS) (name : string) (data : list byte) :
  os.ReadFile fs name = inl data -> os.files fs !! name = Some data.
Proof.
  unfold os.ReadFile. destruct (os.fault fs (os.ReadFileOp name)); [discriminate|].
  destruct (os.files fs !! name); [now intros [= ->] | discriminate].
Qed.

(** What a file holds after the writes of a step. *)
Ltac written :=
  rewrite ?WriteFile_files, ?WriteFile_fault, ?WriteFile_partial;
  repeat match goal with
    | |- context [os.fault ?fs ?op] => destruct (os.fault fs op) eqn:?
    | |- context [os.partial ?fs ?name] => destruct (os.partial fs name) eqn:?
    end;
  repeat case_decide; congruence.

Section Baselines.

Context {lib : GoLib} {B : Type} {chrome : Browser B}.


(** C7 (amended). When the comparison with an existing baseline gives a
    difference above the threshold, the step fails with the message that
    carries the difference and the threshold in percent and the path of the
    baseline; before that the engine writes the capture to
    "<stem>.actual.png" and, when the comparison made a diff image, that
    image to "<stem>.diff.png", the stem being the baseline path without a
    final ".png". The comparison makes no diff image when the bounds of the
    two images differ, and then nothing is written to "<stem>.diff.png".
    The baseline itself is left as it is. *)
Theorem difference_above_threshold (r : Runner) (w : World B)
    (filename testName : string) (b : B) (evs : list ConsoleEvent)
    (shot baselineData : list byte) (diff : float) (diffImage : option (list byte)) :
  let resolved := resolveFilename ".png" (screenshotCounter r) filename testName in
  let r' := with_screenshotCounter r resolved.1 in
  let dir := Config.ScreenshotDir (config r) in
  let path := filepath_Join dir resolved.2 in
  let stem := strings.TrimSuffix path ".png" in
  let threshold := Config.ScreenshotThreshold (config r) in
  os.MkdirAll (disk w) dir = None ->
  chromedp_Run (chromedp.FullScreenshot 100) (browser w) = (b, evs, inl shot) ->
  os.Stat (disk w) path = None ->
  os.ReadFile (disk w) path = inl baselineData ->
  compareImages baselineData shot = (diff, diffImage, None) ->
  PrimFloat.ltb threshold diff = true ->
  (exists fs,
     takeScreenshot r w filename testName
     = (r', mkWorld b fs, evs,
        Some (Errorf
          "screenshot differs from baseline by %.2f%% (threshold: %.2f%%). Delete the old screenshot at %s to save the new one"
          [ArgFloat (PrimFloat.mul diff 100); ArgFloat (PrimFloat.mul threshold 100);
           ArgString path])) /\
     (os.fault (disk w) (os.WriteFileOp (stem +:+ ".actual.png")) = None ->
      os.files fs !! (stem +:+ ".actual.png") = Some shot) /\
     (forall d, diffImage = Some d ->
      os.fault (disk w) (os.WriteFileOp (stem +:+ ".diff.png")) = None ->
      os.files fs !! (stem +:+ ".diff.png") = Some d) /\
     (diffImage = None ->
      os.files fs !! (stem +:+ ".diff.png") = os.files (disk w) !! (stem +:+ ".diff.png")) /\
     os.files fs !! path = Some baselineData) /\
  (forall bi ci, png_Decode baselineData = inl bi -> png_Decode shot = inl ci ->
     image.Bounds bi <> image.Bounds ci -> diffImage = None).
Proof.
  intros resolved r' dir path stem threshold Hmk Hshot Hstat Hread Hcmp Hlt.
  assert (E : takeScreenshot r w filename testName
              = saveOrCompareScreenshot r' w resolved.2).
  { unfold takeScreenshot. subst r' resolved.
    now destruct (resolveFilename _ _ _ _). }
  destruct (artifact_paths_distinct path) as (Hpa & Hpd & Had).
  fold stem in Hpa, Hpd, Had.
  apply ReadFile_files in Hread as Hbase.
  split.
  - eexists. split; [|split; [|split; [|split]]].
    + rewrite E. unfold saveOrCompareScreenshot.
      change (Config.ScreenshotDir (config r')) with dir.
      rewrite Hmk, Hshot. cbn [disk]. fold path. rewrite Hstat, Hread, Hcmp.
      change (Config.ScreenshotThreshold (config r')) with threshold.
      rewrite Hlt. fold stem. reflexivity.
    + intros Hfa. destruct diffImage as [d|]; written.
    + intros d -> Hfd. written.
    + intros ->. written.
    + destruct diffImage as [d|]; written.
  - intros bi ci Hbi Hci Hne.
    rewrite (compareImages_bounds_differ _ _ bi ci) in Hcmp by assumption.
    congruence.
Qed.

End Baselines.


(** With a baseline missing and a full disk, the step fails and leaves the
    first byte of the capture at the path of the baseline. *)
Lemma missing_baseline_partly_written :
  let out := takeScreenshot (Start (NewRunner None)) fullDiskWorld "" "Login Test" in
  out.2 = Some (Errorf "failed to save screenshot: %v"
                       [ArgError (ExternalError "os" "no space left on device")]) /\
  os.files (disk out.1.1.2) !! "__screenshots__/Login_Test.png"%string = Some [x01].
Proof. vm_compute. auto. Qed.


Lemma difference_above_threshold_witness :
  exists fs,
    takeScreenshot (Start (NewRunner None)) resizedWorld "home.png" "Home"
    = (Start (NewRunner None), mkWorld (Stub.tick (browser resizedWorld)) fs, [],
       Some (Errorf
          "screenshot differs from baseline by %.2f%% (threshold: %.2f%%). Delete the old screenshot at %s to save the new one"
          [ArgFloat 100; ArgFloat 0; ArgString "__screenshots__/home.png"])).
Proof.
  edestruct (difference_above_threshold (Start (NewRunner None)) resizedWorld
               "home.png" "Home" (Stub.tick (browser resizedWorld)) []
               [x02; x01; x00; x00] [x01; x01; x00] 1%float None)
    as [(fs & E & _) _]; [reflexivity .. |].
  exists fs. exact E.
Defined.

(** A difference above the threshold with one artifact only: the baseline
    is 1 x 1, the capture 2 x 1, the threshold 0. The step fails, the
    capture is saved as "home.actual.png", and no "home.diff.png" exists. *)
Lemma bounds_mismatch_leaves_no_diff_image :
  let out := takeScreenshot (Start (NewRunner None)) resizedWorld "home.png" "Home" in
  compareImages [x01; x01; x00] [x02; x01; x00; x00] = (1%float, None, None) /\
  PrimFloat.ltb (Config.ScreenshotThreshold defaultConfig) 1 = true /\
  out.2 = Some (Errorf
          "screenshot differs from baseline by %.2f%% (threshold: %.2f%%). Delete the old screenshot at %s to save the new one"
          [ArgFloat 100; ArgFloat 0; ArgString "__screenshots__/home.png"]) /\
  os.files (disk out.1.1.2) !! "__screenshots__/home.actual.png"%string
    = Some [x02; x01; x00; x00] /\
  os.files (disk out.1.1.2) !! "__screenshots__/home.diff.png"%string = None.
Proof. vm_compute. auto 6. Qed.

(** ** One test *)

Section RunTest.

Context {lib : GoLib} {B : Type} {chrome : Browser B}.

Lemma executeStep_config (r : Runner) (w : World B) (step : Step.t) (testName : string) :
  config (executeStep r w step testName).1.1.1 = config r /\
  allocCtx (executeStep r w step testName).1.1.1 = allocCtx r.
Proof.
  unfold executeStep, takeScreenshot, takeSnapshot.
  repeat case_scrutinee;
    rewrite ?saveOrCompareScreenshot_runner, ?saveOrCompareSnapshot_runner;
    split; reflexivity.
Qed.

Lemma runSteps_config (steps : list Step.t) (r : Runner) (w : World B)
    (errors : list ConsoleError.t) (testName : string) :
  config (runSteps r w errors steps testName).1.1.1 = config r.
Proof.
  revert r w errors. induction steps as [|step rest IH]; intros r w errors;
    cbn [runSteps]; [reflexivity|].
  pose proof (executeStep_config r w step testName) as [Hc _].
  destruct (executeStep r w step testName) as [[[r1 w1] evs] [e|]]; cbn in Hc.
  - exact Hc.
  - now rewrite IH.
Qed.

(** The loop runs the steps in their order: a list of steps followed by
    another is the first list, and then, unless a step of it failed, the
    second from where the first ended. *)
Lemma runSteps_app (pre post : list Step.t) (r : Runner) (w : World B)
    (errors : list ConsoleError.t) (testName : string) :
  runSteps r w errors (pre ++ post) testName
  = match runSteps r w errors pre testName with
    | (r1, w1, errors1, None) => runSteps r1 w1 errors1 post testName
    | failed => failed
    end.
Proof.
  revert r w errors. induction pre as [|step rest IH]; intros r w errors;
    cbn [runSteps app]; [reflexivity|].
  destruct (executeStep r w step testName) as [[[r1 w1] evs] [e|]]; [reflexivity|].
  apply IH.
Qed.

Lemma succeed_runSteps (testName : string) (steps : list Step.t) r w errors r' w' errors' :
  succeed testName r w errors steps r' w' errors' ->
  runSteps r w errors steps testName = (r', w', errors', None).
Proof.
  induction 1 as [|r w errors step rest r1 w1 evs r2 w2 errors2 Hstep _ IH];
    cbn [runSteps]; [reflexivity|].
  now rewrite Hstep.
Qed.

Lemma runTests_app (before after : list Test.t) (r : Runner) (w : World B) :
  runTests r w (before ++ after)
  = let '(r1, w1, results1) := runTests r w before in
    let '(r2, w2, results2) := runTests r1 w1 after in
    (r2, w2, results1 ++ results2).
Proof.
  revert r w. induction before as [|test rest IH]; intros r w; cbn [runTests app].
  - now destruct (runTests r w after) as [[r2 w2] results2].
  - destruct (runTest r w test) as [[r1 w1] result].
    rewrite IH.
    destruct (runTests r1 w1 rest) as [[r2 w2] results1].
    now destruct (runTests r2 w2 after) as [[r3 w3] results2].
Qed.

Lemma runTests_length (ts : list Test.t) (r : Runner) (w : World B) :
  length (runTests r w ts).2 = length ts.
Proof.
  revert r w. induction ts as [|test rest IH]; intros r w; cbn [runTests]; [reflexivity|].
  destruct (runTest r w test) as [[r1 w1] result].
  specialize (IH r1 w1).
  destruct (runTests r1 w1 rest) as [[r2 w2] results]. cbn in *. now rewrite IH.
Qed.

(** [runTest] past the two early returns, in terms of the loop. *)
Lemma runTest_started (r : Runner) (w : World B) (test : Test.t) (b0 : B)
    r' w' errors stepErr :
  allocCtx r = true ->
  initialize (NewContext (browser w) (Config.Timeout (config r))) = (b0, None) ->
  runSteps r (mkWorld b0 (disk w)) [] (Test.Steps test) (Test.Name test)
    = (r', w', errors, stepErr) ->
  let consoleFailure :=
    Config.FailOnConsoleError (config r) && negb (Nat.eqb (length errors) 0) in
  runTest r w test
  = (r', mkWorld (Cancel (browser w')) (disk w'),
     TestResult.mk (Test.Name test)
       (if consoleFailure then false
        else match stepErr with Some _ => false | None => true end)
       (if consoleFailure
        then match stepErr with
             | None => Some (Errorf "console errors detected: %d errors"
                                    [ArgInt (Z.of_nat (length errors))])
             | Some e => Some e
             end
        else stepErr)
       (Now (browser w') - Now (browser w)) errors).
Proof.
  intros Hstarted Hnav Hloop consoleFailure. unfold runTest.
  rewrite Hstarted, Hnav. cbn [negb]. rewrite Hloop.
  pose proof (runSteps_config (Test.Steps test) r (mkWorld b0 (disk w)) []
                (Test.Name test)) as Hcfg.
  rewrite Hloop in Hcfg. cbn in Hcfg. rewrite Hcfg.
  assert ((0 <? Z.of_nat (length errors)) = negb (Nat.eqb (length errors) 0)) as ->.
  { destruct errors; reflexivity. }
  reflexivity.
Qed.

(** A listener whose filter suppresses everything captures nothing. *)
Lemma listener_suppressed (cfg : Config.t) (filter : ConsoleError.t -> bool)
    (evs : list ConsoleEvent) (errors : list ConsoleError.t) :
  Config.ErrorFilter cfg = Some filter -> (forall ce, filter ce = true) ->
  fold_left (listener cfg) evs errors = errors.
Proof.
  intros Hf Hall. revert errors. induction evs as [|ev evs IH]; intros errors;
    cbn [fold_left]; [reflexivity|].
  rewrite IH. unfold listener. rewrite Hf, Hall.
  now destruct (String.eqb (ev_Type ev) "error").
Qed.

Lemma runSteps_suppressed (filter : ConsoleError.t -> bool) (steps : list Step.t)
    (r : Runner) (w : World B) (errors : list ConsoleError.t) (testName : string) :
  Config.ErrorFilter (config r) = Some filter -> (forall ce, filter ce = true) ->
  (runSteps r w errors steps testName).1.2 = errors.
Proof.
  intros Hf Hall. revert r w errors Hf.
  induction steps as [|step rest IH]; intros r w errors Hf; cbn [runSteps]; [reflexivity|].
  pose proof (executeStep_config r w step testName) as [Hc _].
  destruct (executeStep r w step testName) as [[[r1 w1] evs] [e|]]; cbn in Hc;
    rewrite <- Hc in Hf.
  - cbn. now apply listener_suppressed with filter.
  - rewrite IH by assumption. now apply listener_suppressed with filter.
Qed.

End RunTest.

Section RunTestTheorems.

Context {lib : GoLib} {B : Type} {chrome : Browser B}.

(** C1. The step loop runs the steps of a test in their listed order and
    stops at the first step that returns an error: when the steps before
    [s] all succeed and [s] fails with [e], the loop ends in the state [s]
    left, the result has [Passed = false] and [Error = e], and neither
    depends on the steps after [s]. The tests a worker runs before and
    after that test are run as they are without it: each yields its
    result. *)
Theorem step_loop_stops_at_first_failure (r : Runner) (w : World B) (test : Test.t)
    (pre post : list Step.t) (s : Step.t) (e : error) (b0 : B)
    (r1 r2 : Runner) (w1 w2 : World B) (errors1 : list ConsoleError.t)
    (evs : list ConsoleEvent) :
  Test.Steps test = pre ++ s :: post ->
  allocCtx r = true ->
  initialize (NewContext (browser w) (Config.Timeout (config r))) = (b0, None) ->
  succeed (Test.Name test) r (mkWorld b0 (disk w)) [] pre r1 w1 errors1 ->
  executeStep r1 w1 s (Test.Name test) = (r2, w2, evs, Some e) ->
  let errors2 := fold_left (listener (config r2)) evs errors1 in
  runSteps r (mkWorld b0 (disk w)) [] (Test.Steps test) (Test.Name test)
    = (r2, w2, errors2, Some e) /\
  (exists result,
     runTest r w test = (r2, mkWorld (Cancel (browser w2)) (disk w2), result) /\
     TestResult.Name result = Test.Name test /\
     TestResult.Passed result = false /\
     TestResult.Error result = Some e /\
     TestResult.Errors result = errors2) /\
  (forall post',
     runTest r w (Test.mk (Test.Name test) (pre ++ s :: post')) = runTest r w test) /\
  (forall (r0 : Runner) (w0 : World B) (before after : list Test.t),
     let '(ra, wa, resultsBefore) := runTests r0 w0 before in
     let '(rb, wb, result) := runTest ra wa test in
     let '(rc, wc, resultsAfter) := runTests rb wb after in
     runTests r0 w0 (before ++ test :: after)
     = (rc, wc, resultsBefore ++ result :: resultsAfter) /\
     length resultsBefore = length before /\
     length resultsAfter = length after).
Proof.
  intros Hsteps Hstarted Hnav Hpre Hs errors2.
  assert (Hloop : forall post',
            runSteps r (mkWorld b0 (disk w)) [] (pre ++ s :: post') (Test.Name test)
            = (r2, w2, errors2, Some e)).
  { intros post'. rewrite runSteps_app, (succeed_runSteps _ _ _ _ _ _ _ _ Hpre).
    cbn [runSteps]. now rewrite Hs. }
  assert (Hrun : forall post',
            runTest r w (Test.mk (Test.Name test) (pre ++ s :: post'))
            = (r2, mkWorld (Cancel (browser w2)) (disk w2),
               TestResult.mk (Test.Name test) false (Some e)
                 (Now (browser w2) - Now (browser w)) errors2)).
  { intros post'.
    rewrite (runTest_started r w (Test.mk (Test.Name test) (pre ++ s :: post'))
               b0 r2 w2 errors2 (Some e) Hstarted Hnav (Hloop post')).
    cbn [Test.Name]. now destruct (_ && _). }
  assert (Etest : test = Test.mk (Test.Name test) (pre ++ s :: post)).
  { destruct test as [name steps]. cbn in *. now subst. }
  repeat split.
  - rewrite Hsteps. apply Hloop.
  - eexists. rewrite Etest at 1. rewrite Hrun. cbn. repeat split; reflexivity.
  - intros post'. rewrite Etest at 2. now rewrite !Hrun.
  - intros r0 w0 before after.
    rewrite runTests_app. cbn [runTests].
    pose proof (runTests_length before r0 w0) as Hb.
    destruct (runTests r0 w0 before) as [[ra wa] resultsBefore].
    destruct (runTest ra wa test) as [[rb wb] result].
    pose proof (runTests_length after rb wb) as Ha.
    destruct (runTests rb wb after) as [[rc wc] resultsAfter].
    cbn in *. auto.
Qed.

(** C9. Every result [runTest] returns has [Passed = false] when it has an
    [Error], and, when the configuration fails tests on console errors, when
    it has console errors. Past the set-up of the browser: an error of a
    step is the [Error] of the result; when every step succeeded, console
    errors under that policy make the result fail with the verdict "console
    errors detected"; and a filter that suppresses every console error
    leaves none recorded, so that a test whose steps all succeed passes. *)
Theorem result_verdict (r : Runner) (w : World B) (test : Test.t) :
  let result := (runTest r w test).2 in
  (TestResult.Error result <> None -> TestResult.Passed result = false) /\
  (Config.FailOnConsoleError (config r) = true ->
   TestResult.Errors result <> [] -> TestResult.Passed result = false) /\
  (forall b0 r' w' errors stepErr,
     allocCtx r = true ->
     initialize (NewContext (browser w) (Config.Timeout (config r))) = (b0, None) ->
     runSteps r (mkWorld b0 (disk w)) [] (Test.Steps test) (Test.Name test)
       = (r', w', errors, stepErr) ->
     TestResult.Errors result = errors /\
     (forall e, stepErr = Some e ->
        TestResult.Error result = Some e /\ TestResult.Passed result = false) /\
     (stepErr = None -> Config.FailOnConsoleError (config r) = true -> errors <> [] ->
        TestResult.Passed result = false /\
        TestResult.Error result
        = Some (Errorf "console errors detected: %d errors"
                       [ArgInt (Z.of_nat (length errors))])) /\
     (stepErr = None ->
        (Config.FailOnConsoleError (config r) = false \/ errors = []) ->
        TestResult.Passed result = true /\ TestResult.Error result = None) /\
     (forall filter,
        Config.ErrorFilter (config r) = Some filter -> (forall ce, filter ce = true) ->
        errors = [] /\
        (stepErr = None ->
           TestResult.Passed result = true /\ TestResult.Error result = None))).
Proof.
  intros result.
  assert (Hgen : forall b0 r' w' errors stepErr,
     allocCtx r = true ->
     initialize (NewContext (browser w) (Config.Timeout (config r))) = (b0, None) ->
     runSteps r (mkWorld b0 (disk w)) [] (Test.Steps test) (Test.Name test)
       = (r', w', errors, stepErr) ->
     result = TestResult.mk (Test.Name test)
       (if Config.FailOnConsoleError (config r) && negb (Nat.eqb (length errors) 0)
        then false
        else match stepErr with Some _ => false | None => true end)
       (if Config.FailOnConsoleError (config r) && negb (Nat.eqb (length errors) 0)
        then match stepErr with
             | None => Some (Errorf "console errors detected: %d errors"
                                    [ArgInt (Z.of_nat (length errors))])
             | Some e => Some e
             end
        else stepErr)
       (Now (browser w') - Now (browser w)) errors).
  { intros b0 r' w' errors stepErr Hstarted Hnav Hloop. subst result.
    now rewrite (runTest_started r w test b0 r' w' errors stepErr Hstarted Hnav Hloop). }
  split; [|split].
  - destruct (allocCtx r) eqn:Hstarted;
      [|subst result; unfold runTest; rewrite Hstarted; reflexivity].
    destruct (initialize (NewContext (browser w) (Config.Timeout (config r))))
      as [b0 [e|]] eqn:Hnav;
      [subst result; unfold runTest; rewrite Hstarted, Hnav; reflexivity|].
    destruct (runSteps r (mkWorld b0 (disk w)) [] (Test.Steps test) (Test.Name test))
      as [[[r' w'] errors] stepErr] eqn:Hloop.
    rewrite (Hgen _ _ _ _ _ eq_refl eq_refl Hloop). cbn.
    destruct (_ && _), stepErr; congruence.
  - intros Hpolicy.
    destruct (allocCtx r) eqn:Hstarted;
      [|subst result; unfold runTest; rewrite Hstarted; reflexivity].
    destruct (initialize (NewContext (browser w) (Config.Timeout (config r))))
      as [b0 [e|]] eqn:Hnav;
      [subst result; unfold runTest; rewrite Hstarted, Hnav; reflexivity|].
    destruct (runSteps r (mkWorld b0 (disk w)) [] (Test.Steps test) (Test.Name test))
      as [[[r' w'] errors] stepErr] eqn:Hloop.
    rewrite (Hgen _ _ _ _ _ eq_refl eq_refl Hloop). cbn. rewrite Hpolicy.
    destruct errors; [congruence | reflexivity].
  - intros b0 r' w' errors stepErr Hstarted Hnav Hloop.
    rewrite (Hgen _ _ _ _ _ Hstarted Hnav Hloop). cbn.
    split; [reflexivity|split; [|split; [|split]]].
    + intros e ->. now destruct (_ && _).
    + intros -> -> Hne. destruct errors; [contradiction | cbn; auto].
    + intros -> [-> | ->]; cbn; rewrite ?andb_false_r; auto.
    + intros filter Hf Hall.
      pose proof (runSteps_suppressed filter (Test.Steps test) r (mkWorld b0 (disk w))
                    [] (Test.Name test) Hf Hall) as Hnone.
      rewrite Hloop in Hnone. cbn in Hnone. subst errors.
      split; [reflexivity|]. intros ->. cbn. rewrite andb_false_r. auto.
Qed.

End RunTestTheorems.

Lemma step_loop_stops_at_first_failure_witness :
  exists r' w' result,
    runTest (Start (NewRunner None)) stubWorld thirdFails = (r', w', result) /\
    TestResult.Passed result = false /\
    TestResult.Error result = Some (ExternalError "chromedp" "context deadline exceeded") /\
    Stub.clock (browser w') = 4.
Proof.
  edestruct (step_loop_stops_at_first_failure (Start (NewRunner None)) stubWorld thirdFails
               [Step.mk "navigate" "about:blank" ""; Step.mk "click" "#ok" ""]
               [Step.mk "click" "#noisy" ""] (Step.mk "click" "#missing" ""))
    as (_ & (result & Hrun & _ & Hpassed & Herror & _) & _).
  - reflexivity.
  - reflexivity.
  - reflexivity.
  - eapply succeed_cons; [reflexivity|].
    eapply succeed_cons; [reflexivity|].
    apply succeed_nil.
  - reflexivity.
  - eexists _, _, result. repeat split; [exact Hrun | exact Hpassed | exact Herror | reflexivity].
Defined.

Lemma result_verdict_witness :
  TestResult.Passed (runTest (Start (NewRunner None)) stubWorld clickNoisy).2 = false /\
  TestResult.Passed (runTest (Start (NewRunner (Some suppressAll))) stubWorld clickNoisy).2
  = true.
Proof.
  split.
  - destruct (result_verdict (Start (NewRunner None)) stubWorld clickNoisy)
      as (_ & _ & H).
    edestruct H as (_ & _ & Hconsole & _); [reflexivity .. |].
    apply Hconsole; [reflexivity | reflexivity | discriminate].
  - destruct (result_verdict (Start (NewRunner (Some suppressAll))) stubWorld clickNoisy)
      as (_ & _ & H).
    edestruct H as (_ & _ & _ & _ & Hfilter); [reflexivity .. |].
    edestruct Hfilter as (_ & Hpass); [reflexivity | reflexivity |].
    apply (Hpass eq_refl).
Defined.

(** ** The worker pool *)

Section PoolFrame.

Context {lib : GoLib} {B : Type} {chrome : Browser B}.

Lemma executeStep_results (r : Runner) (w : World B) (step : Step.t) (testName : string) :
  results (executeStep r w step testName).1.1.1 = results r /\
  tests (executeStep r w step testName).1.1.1 = tests r.
Proof.
  unfold executeStep, takeScreenshot, takeSnapshot.
  repeat case_scrutinee;
    rewrite ?saveOrCompareScreenshot_runner, ?saveOrCompareSnapshot_runner;
    split; reflexivity.
Qed.

Lemma runSteps_results (steps : list Step.t) (r : Runner) (w : World B)
    (errors : list ConsoleError.t) (testName : string) :
  results (runSteps r w errors steps testName).1.1.1 = results r /\
  tests (runSteps r w errors steps testName).1.1.1 = tests r.
Proof.
  revert r w errors. induction steps as [|step rest IH]; intros r w errors;
    cbn [runSteps]; [split; reflexivity|].
  pose proof (executeStep_results r w step testName) as [Hr Ht].
  destruct (executeStep r w step testName) as [[[r1 w1] evs] [e|]]; cbn in Hr, Ht.
  - split; assumption.
  - destruct (IH r1 w1 (fold_left (listener (config r1)) evs errors)) as [Hr' Ht'].
    split; congruence.
Qed.

(** [runTest] names its result after its test and leaves [r.tests] and
    [r.results] alone. *)
Lemma runTest_frame (r : Runner) (w : World B) (test : Test.t) :
  TestResult.Name (runTest r w test).2 = Test.Name test /\
  results (runTest r w test).1.1 = results r /\
  tests (runTest r w test).1.1 = tests r.
Proof.
  unfold runTest.
  destruct (allocCtx r); cbn [negb]; [|repeat split; reflexivity].
  destruct (initialize _) as [b0 [e|]]; [repeat split; reflexivity|].
  pose proof (runSteps_results (Test.Steps test) r (mkWorld b0 (disk w)) []
                (Test.Name test)) as [Hr Ht].
  destruct (runSteps _ _ _ _ _) as [[[r' w'] errors] stepErr]. cbn in *.
  repeat split; assumption.
Qed.

End PoolFrame.

Lemma same_counts_length (l l' : list string) :
  (forall x, count_occ string_dec l x = count_occ string_dec l' x) ->
  length l = length l'.
Proof. intros Hc. apply Permutation_length. now apply (Permutation_count_occ string_dec). Qed.

Lemma workers_all_exited_or_not (ws : list Pool.worker) :
  Forall (fun x => x = Pool.Exited) ws \/
  exists ws1 x ws2, ws = ws1 ++ x :: ws2 /\ x <> Pool.Exited.
Proof.
  induction ws as [|x ws [IH | (ws1 & y & ws2 & -> & Hy)]].
  - left. constructor.
  - destruct x as [|test|result|].
    1-3: right; eexists [], _, ws; split; [reflexivity | discriminate].
    left. constructor; [reflexivity | assumption].
  - right. exists (x :: ws1), y, ws2. split; [reflexivity | assumption].
Qed.

Lemma held_all_exited (ws : list Pool.worker) :
  Forall (fun x => x = Pool.Exited) ws -> flat_map Pool.held ws = [].
Proof. induction 1 as [|x ws -> _ IH]; [reflexivity | exact IH]. Qed.

Section PoolInvariant.

Context {lib : GoLib} {B : Type} {chrome : Browser B}.

(** The capacity of the channels, the number of workers, and the names of
    the submitted tests. *)
Variables (capacity n : nat) (names : list string).

Ltac count_names Ha :=
  let x := fresh "x" in
  intros x; specialize (Ha x); unfold Pool.accounted in *; cbn in *;
  rewrite ?flat_map_app, ?map_app, ?count_occ_app in *; cbn in *;
  rewrite ?count_occ_app in *; cbn in *;
  try match goal with
    | Hn : TestResult.Name _ = Test.Name _, Hr : results _ = results _ |- _ =>
        rewrite Hn, Hr
    end;
  repeat destruct (string_dec _ _); lia.

Ltac exited_worker He :=
  let Hin := fresh "Hin" in
  intros Hin;
  first
    [ now split
    | edestruct He as [? ?];
      [ first
          [ exact Hin
          | rewrite in_app_iff in *; cbn [In] in *;
            destruct Hin as [? | [? | ?]]; first [discriminate | auto] ]
      | first [discriminate | auto] ] ].

Ltac not_all_exited Hr :=
  let Hc := fresh "Hc" in
  intros Hc; specialize (Hr Hc);
  apply Forall_app in Hr as [_ Hr]; inversion Hr; discriminate.

Lemma step_invariant (s s' : Pool.state B) :
  invariant n names s -> Pool.step capacity s s' -> invariant n names s'.
Proof.
  intros [Ha Hc He Hr Hret Hw] Hstep.
  destruct Hstep; cbn in *;
    try match goal with
      | H : runTest ?r ?w ?test = (?r', _, ?result) |- _ =>
          let Hname := fresh "Hname" in
          let Hres := fresh "Hres" in
          destruct (runTest_frame r w test) as (Hname & Hres & _);
          rewrite H in Hname, Hres; cbn in Hname, Hres
      end;
    constructor; cbn; trivial;
    try (rewrite !length_app in *; cbn in *; assumption);
    try discriminate;
    try match goal with
      | |- forall x, count_occ _ _ _ = _ => count_names Ha
      | |- In _ _ -> _ => exited_worker He
      | |- _ = true -> Forall _ _ => not_all_exited Hr
      | |- _ = Pool.Returned -> _ =>
          let Hm := fresh "Hm" in
          intros Hm; first
            [ now split
            | destruct (Hret Hm) as [_ Hrcc]; specialize (Hr Hrcc);
              apply Forall_app in Hr as [_ Hr]; inversion Hr; discriminate ]
      end.
Qed.

Lemma rtc_invariant (s s' : Pool.state B) :
  invariant n names s -> rtc (Pool.step capacity) s s' -> invariant n names s'.
Proof. intros Hs Hrtc. induction Hrtc; eauto using step_invariant. Qed.

(** Every step takes one off the weight of the state. *)
Lemma step_weight (s s' : Pool.state B) :
  Pool.step capacity s s' -> Pool.weight s = S (Pool.weight s').
Proof.
  intros Hstep. destruct Hstep; unfold Pool.weight; cbn;
    rewrite ?map_app, ?list_sum_app, ?length_app; cbn; try lia.
  destruct (runTest_frame r w test) as (_ & Hres & _).
  rewrite H in Hres. cbn in Hres. rewrite Hres. lia.
Qed.

Lemma nsteps_weight (k : nat) (s s' : Pool.state B) :
  nsteps (Pool.step capacity) k s s' -> Pool.weight s = (k + Pool.weight s')%nat.
Proof.
  induction 1 as [|k s1 s2 s3 Hstep _ IH]; [reflexivity|].
  apply step_weight in Hstep. lia.
Qed.

(** A state where [Run] has not returned has a goroutine that can move. *)
Lemma invariant_progress (s : Pool.state B) :
  length names = capacity -> invariant n names s ->
  Pool.main s = Pool.Returned \/ exists s', Pool.step capacity s s'.
Proof.
  intros Hcap [Ha Hc He Hr Hret Hw].
  pose proof (same_counts_length _ _ Ha) as Hlen.
  destruct s as [r w m ws tc tcc rc rcc]. unfold Pool.accounted in Hlen. cbn in *.
  rewrite !length_app, !length_map in Hlen.
  destruct m as [[|test rest] | |]; subst tcc.
  - right. eexists. apply Pool.step_close.
  - right. eexists. apply Pool.step_feed. cbn in Hlen. lia.
  - right. destruct rc as [|result rc]; [|eexists; apply Pool.step_collect].
    destruct rcc; [eexists; apply Pool.step_return|].
    destruct (workers_all_exited_or_not ws) as [Hall | (ws1 & x & ws2 & -> & Hx)];
      [eexists; now apply Pool.step_wait|].
    destruct x as [|test|result|]; [| | |contradiction].
    + destruct tc as [|test tc]; eexists;
        [apply Pool.step_exit | apply Pool.step_receive].
    + destruct (runTest r w test) as [[r' w'] result] eqn:Hrun.
      eexists. apply Pool.step_run. exact Hrun.
    + eexists. apply Pool.step_send.
      rewrite flat_map_app, length_app in Hlen. cbn in Hlen |- *. lia.
  - now left.
Qed.

(** When [Run] has returned, [r.results] has one result per submitted
    test. *)
Lemma invariant_returned (s : Pool.state B) :
  (1 <= n)%nat -> invariant n names s -> Pool.main s = Pool.Returned ->
  Permutation (map TestResult.Name (results (Pool.runner s))) names.
Proof.
  intros Hn [Ha Hc He Hr Hret Hw] Hm.
  destruct (Hret Hm) as [Hrc Hrcc]. specialize (Hr Hrcc).
  assert (In Pool.Exited (Pool.workers s)) as Hin.
  { destruct (Pool.workers s) as [|x ws]; [cbn in Hw; lia|].
    inversion Hr; subst. now left. }
  destruct (He Hin) as [Htc _].
  apply (Permutation_count_occ string_dec). intros x. rewrite <- Ha.
  unfold Pool.accounted. rewrite Hm, Htc, Hrc, (held_all_exited _ Hr). reflexivity.
Qed.

(** Once [Run] has returned nothing moves any more. *)
Lemma invariant_final (s s' : Pool.state B) :
  invariant n names s -> Pool.main s = Pool.Returned -> ~ Pool.step capacity s s'.
Proof.
  intros [Ha Hc He Hr Hret Hw] Hm Hstep.
  destruct (Hret Hm) as [_ Hrcc]. specialize (Hr Hrcc).
  destruct Hstep; cbn in *; try discriminate;
    apply Forall_app in Hr as [_ Hr]; inversion Hr; discriminate.
Qed.

End PoolInvariant.

Section PoolTheorems.

Context {lib : GoLib} {B : Type} {chrome : Browser B}.

Lemma init_invariant (n : nat) (r : Runner) (w : World B) :
  invariant n (map Test.Name (tests r)) (Pool.init n r w).
Proof.
  assert (Hheld : flat_map Pool.held (replicate n Pool.Receiving) = [])
    by (induction n; [reflexivity | assumption]).
  constructor; cbn; try discriminate.
  - intros x. unfold Pool.accounted. cbn.
    now rewrite Hheld, !app_nil_r.
  - reflexivity.
  - intros Hin. exfalso. induction n as [|n IH]; cbn in Hin; [assumption|].
    destruct Hin as [Hin | Hin]; [discriminate | auto].
  - apply length_replicate.
Qed.

Lemma init_weight (n : nat) (r : Runner) (w : World B) :
  Pool.weight (Pool.init n r w) = (6 * length (tests r) + n + 3)%nat.
Proof.
  assert (Hsum : list_sum (map Pool.workerWeight (replicate n Pool.Receiving)) = n)
    by (induction n as [|n IH]; [reflexivity | simpl; now f_equal]).
  unfold Pool.weight, Pool.init.
  cbn [Pool.main Pool.testChan Pool.workers Pool.resultChan Pool.runner
       Pool.resultChanClosed].
  rewrite Hsum. cbn [length results Pool.with_results]. lia.
Qed.

(** Some schedule takes any state that [Run] can be in to its return. *)
Lemma runs_to_return (capacity n : nat) (names : list string) (k : nat)
    (s : Pool.state B) :
  length names = capacity ->
  (Pool.weight s <= k)%nat -> invariant n names s ->
  exists s', rtc (Pool.step capacity) s s' /\ Pool.main s' = Pool.Returned.
Proof.
  intros Hcap. revert s. induction k as [|k IH]; intros s Hk Hinv.
  - destruct (invariant_progress capacity n names s Hcap Hinv) as [Hm | [s' Hstep]].
    + exists s. split; [constructor | assumption].
    + apply step_weight in Hstep. lia.
  - destruct (invariant_progress capacity n names s Hcap Hinv) as [Hm | [s' Hstep]].
    + exists s. split; [constructor | assumption].
    + destruct (IH s') as (s'' & Hrtc & Hm).
      * apply step_weight in Hstep. lia.
      * eapply step_invariant; eassumption.
      * exists s''. split; [econstructor; eassumption | assumption].
Qed.

(** C2. With at least one worker (the code starts four) and whatever the
    scheduler does, [Run] on [N] submitted tests ends, after at most
    6 N + n + 3 steps of its goroutines; until it has returned some
    goroutine can always move, so it never deadlocks; and when it returns,
    [r.results] holds exactly [N] results, one for each submitted test, in
    no particular order. With no test submitted it returns no result. Some
    schedule does take [Run] to its return, and nothing moves after it. *)
Theorem run_yields_one_result_per_test (n : nat) (r : Runner) (w : World B) :
  (1 <= n)%nat ->
  let N := length (tests r) in
  let start := Pool.init n r w in
  (forall k s, nsteps (Pool.step N) k start s -> (k <= 6 * N + n + 3)%nat) /\
  (forall s, rtc (Pool.step N) start s ->
     Pool.main s = Pool.Returned \/ exists s', Pool.step N s s') /\
  (forall s, rtc (Pool.step N) start s -> Pool.main s = Pool.Returned ->
     length (results (Pool.runner s)) = N /\
     Permutation (map TestResult.Name (results (Pool.runner s)))
                 (map Test.Name (tests r))) /\
  (tests r = [] ->
   forall s, rtc (Pool.step N) start s -> Pool.main s = Pool.Returned ->
     results (Pool.runner s) = []) /\
  (exists s, rtc (Pool.step N) start s /\ Pool.main s = Pool.Returned) /\
  (forall s s', rtc (Pool.step N) start s -> Pool.main s = Pool.Returned ->
     ~ Pool.step N s s').
Proof.
  intros Hn N start.
  assert (Hinv : forall s, rtc (Pool.step N) start s ->
                   invariant n (map Test.Name (tests r)) s).
  { intros s Hs. eapply rtc_invariant; [apply init_invariant | exact Hs]. }
  assert (Hresults : forall s, rtc (Pool.step N) start s ->
            Pool.main s = Pool.Returned ->
            Permutation (map TestResult.Name (results (Pool.runner s)))
                        (map Test.Name (tests r))).
  { intros s Hs Hm. eapply invariant_returned; eauto. }
  split; [|split; [|split; [|split; [|split]]]].
  - intros k s Hk. apply nsteps_weight in Hk.
    subst start. rewrite init_weight in Hk. subst N. lia.
  - intros s Hs. eapply invariant_progress; [|apply Hinv, Hs].
    apply length_map.
  - intros s Hs Hm. pose proof (Hresults s Hs Hm) as Hp.
    split; [|exact Hp].
    apply Permutation_length in Hp. now rewrite !length_map in Hp.
  - intros Hnone s Hs Hm.
    pose proof (Hresults s Hs Hm) as Hp. rewrite Hnone in Hp. cbn in Hp.
    apply Permutation_nil_r in Hp. now destruct (results (Pool.runner s)).
  - apply (runs_to_return N n (map Test.Name (tests r)) (Pool.weight start));
      [apply length_map | lia | apply init_invariant].
  - intros s s' Hs Hm. eapply invariant_final; [apply Hinv, Hs | exact Hm].
Qed.

End PoolTheorems.

Lemma run_yields_one_result_per_test_witness :
  let r := AddTest (AddTest (Start (NewRunner None)) clickNoisy) thirdFails in
  (1 <= Pool.numWorkers)%nat /\
  forall s, rtc (Pool.Run_step r) (Pool.Run_start r stubWorld) s ->
    Pool.main s = Pool.Returned -> length (results (Pool.runner s)) = 2%nat.
Proof.
  intros r. split; [unfold Pool.numWorkers; lia|].
  intros s Hs Hm.
  apply (run_yields_one_result_per_test Pool.numWorkers r stubWorld
           ltac:(unfold Pool.numWorkers; lia)); assumption.
Defined.

(* ===================================================================== *)
(** * Part V: further properties of the code *)
(* ===================================================================== *)

(** ** File names of snapshots *)

Section SnapshotNames.

Context {lib : GoLib} {B : Type} {chrome : Browser B}.

(** X1. A snapshot step without a file name is saved or compared under the
    sanitized test name followed by ".html" when it is the first such
    snapshot step of that test name since the runner was made, and by
    "_N.html" when it is the N-th (N >= 2, N within the range of [int]).
    This holds of a runner with any history since [NewRunner], and the
    runner of every state of [Run] and of [RunWithProgress] on such a
    runner is such a runner again. Only snapshot steps count: a screenshot
    step, named or not, leaves the snapshot counters as they are, and a
    snapshot step leaves the screenshot counters as they are. *)
Theorem auto_named_snapshot (cfg : option Config.t) (h : history) (w : World B)
    (testName : string) :
  let r := runnerAfter (NewRunner cfg) h in
  let n := autoNamed "snapshot" testName h + 1 in
  n <= max_int ->
  (takeSnapshot r w "" testName
   = saveOrCompareSnapshot
       (with_snapshotCounter r (<[testName := n]> (snapshotCounter r))) w
       (mapBytes sanitize testName +:+ occurrenceSuffix ".html" n)
   /\ occurrenceSuffix ".html" 1 = ".html"%string
   /\ (2 <= n -> occurrenceSuffix ".html" n = "_" +:+ itoa n +:+ ".html"))
  /\ ((forall (w0 : World B) (s : Pool.state B),
         rtc (Pool.Run_step r) (Pool.Run_start r w0) s ->
         exists h', Pool.runner s = runnerAfter (NewRunner cfg) (h ++ h')) /\
      (forall (w0 : World B) (s : Progress.state B),
         rtc (Progress.Run_step r) (Progress.Run_start r w0) s ->
         exists h', Pool.runner (Progress.pool s) = runnerAfter (NewRunner cfg) (h ++ h')))
  /\ (forall (x : Runner) (w' : World B) (filename name : string),
        snapshotCounter (takeScreenshot x w' filename name).1.1.1 = snapshotCounter x /\
        screenshotCounter (takeSnapshot x w' filename name).1.1.1 = screenshotCounter x).
Proof.
  intros r n Hn.
  pose proof (autoNamed_nonneg "snapshot" testName h) as Hh.
  assert (Hc : counterOf (snapshotCounter r) testName = n - 1).
  { subst r n. destruct (NewRunner_counters cfg testName) as [_ E0].
    rewrite snapshotCounter_counts; rewrite E0; lia. }
  split; [split; [|split; [reflexivity|]] | split].
  - unfold takeSnapshot. rewrite resolveFilename_auto.
    rewrite Hc. replace (n - 1 + 1) with n by lia.
    rewrite wrap64_small by (unfold max_int in *; lia).
    rewrite (increment_from _ _ n) by (unfold max_int in *; lia).
    now rewrite safeTestName_spec.
  - intros Hn2. unfold occurrenceSuffix.
    destruct (Z.eqb_spec n 1); [lia | reflexivity].
  - apply runs_continue_history.
  - intros x w' filename name. split.
    + apply takeScreenshot_snapshotCounter.
    + apply takeSnapshot_screenshotCounter.
Qed.

(** X2. The file name of a step without one is made of the sanitized test
    name and the occurrence number only. Two tests whose names differ only
    in spaces, slashes and backslashes therefore share their baseline
    files: the same occurrence of a screenshot or snapshot step reads and
    writes the same file for both, with the same outcome. *)
Theorem sanitized_names_share_baselines (r : Runner) (w : World B) (t1 t2 : string) :
  mapBytes sanitize t1 = mapBytes sanitize t2 ->
  counterOf (screenshotCounter r) t1 = counterOf (screenshotCounter r) t2 ->
  counterOf (snapshotCounter r) t1 = counterOf (snapshotCounter r) t2 ->
  (resolveFilename ".png" (screenshotCounter r) "" t1).2
  = (resolveFilename ".png" (screenshotCounter r) "" t2).2 /\
  (resolveFilename ".html" (snapshotCounter r) "" t1).2
  = (resolveFilename ".html" (snapshotCounter r) "" t2).2 /\
  (let '(_, w1, evs1, err1) := takeScreenshot r w "" t1 in
   let '(_, w2, evs2, err2) := takeScreenshot r w "" t2 in
   (w1, evs1, err1) = (w2, evs2, err2)) /\
  (let '(_, w1, evs1, err1) := takeSnapshot r w "" t1 in
   let '(_, w2, evs2, err2) := takeSnapshot r w "" t2 in
   (w1, evs1, err1) = (w2, evs2, err2)).
Proof.
  intros Hs Hc1 Hc2.
  rewrite !resolveFilename_auto. cbn [snd].
  rewrite !safeTestName_spec, Hs, Hc1, Hc2.
  split; [reflexivity|]. split; [reflexivity|].
  unfold takeScreenshot, takeSnapshot. rewrite !resolveFilename_auto.
  rewrite !safeTestName_spec, Hs, Hc1, Hc2.
  rewrite !saveOrCompareScreenshot_counters, !saveOrCompareSnapshot_counters.
  split.
  - now destruct (saveOrCompareScreenshot r w _) as [[[r1 w1] evs1] err1].
  - now destruct (saveOrCompareSnapshot r w _) as [[[r1 w1] evs1] err1].
Qed.

End SnapshotNames.

Lemma auto_named_snapshot_witness :
  let h := [Added (Test.mk "Login Test" [autoScreenshot; Step.mk "snapshot" "" ""]);
            Started;
            Executed stubWorld autoScreenshot "Login Test";
            Executed stubWorld (Step.mk "snapshot" "" "") "Login Test";
            Stored []] in
  let r := runnerAfter (NewRunner None) h in
  autoNamed "snapshot" "Login Test" h + 1 <= max_int /\
  takeSnapshot r stubWorld "" "Login Test"
  = saveOrCompareSnapshot
      (with_snapshotCounter r (<["Login Test"%string := 2]> (snapshotCounter r)))
      stubWorld "Login_Test_2.html".
Proof.
  intros h r. split; [vm_compute; discriminate|].
  destruct (auto_named_snapshot None h stubWorld "Login Test") as [(E & _) _];
    [vm_compute; discriminate|].
  vm_compute in E. vm_compute. exact E.
Defined.

Lemma sanitized_names_share_baselines_witness :
  (resolveFilename ".png" ∅ "" "Sign in").2 = (resolveFilename ".png" ∅ "" "Sign/in").2 /\
  (takeScreenshot (Start (NewRunner None)) stubWorld "" "Sign in").1.1.2
  = (takeScreenshot (Start (NewRunner None)) stubWorld "" "Sign/in").1.1.2.
Proof.
  destruct (sanitized_names_share_baselines (Start (NewRunner None)) stubWorld
              "Sign in" "Sign/in") as (E1 & _ & E2 & _);
    [reflexivity .. |].
  split; [exact E1|].
  destruct (takeScreenshot _ _ _ "Sign in") as [[[r1 w1] evs1] err1].
  destruct (takeScreenshot _ _ _ "Sign/in") as [[[r2 w2] evs2] err2].
  now injection E2.
Defined.

(** ** Snapshot baselines *)

(** The two artifacts of a snapshot never overwrite the baseline or each
    other. *)
Lemma snapshot_artifact_paths_distinct (path : string) :
  let stem := strings.TrimSuffix path ".html" in
  path <> stem +:+ ".actual.html" /\
  path <> stem +:+ ".diff.html" /\
  stem +:+ ".actual.html" <> stem +:+ ".diff.html".
Proof.
  intros stem. repeat split.
  - destruct (TrimSuffix_cases path ".html") as [E|E]; fold stem in E.
    + rewrite <- E at 1. now apply append_longer.
    + rewrite E at 1. intros [=]%append_inj_l.
  - destruct (TrimSuffix_cases path ".html") as [E|E]; fold stem in E.
    + rewrite <- E at 1. now apply append_longer.
    + rewrite E at 1. intros [=]%append_inj_l.
  - intros [=]%append_inj_l.
Qed.



Section Snapshots.

Context {lib : GoLib} {B : Type} {chrome : Browser B}.

Lemma takeScreenshot_resolved (r : Runner) (w : World B) (filename testName : string) :
  takeScreenshot r w filename testName
  = saveOrCompareScreenshot
      (with_screenshotCounter r
         (resolveFilename ".png" (screenshotCounter r) filename testName).1) w
      (resolveFilename ".png" (screenshotCounter r) filename testName).2.
Proof. unfold takeScreenshot. now destruct (resolveFilename _ _ _ _). Qed.

Lemma takeSnapshot_resolved (r : Runner) (w : World B) (filename testName : string) :
  takeSnapshot r w filename testName
  = saveOrCompareSnapshot
      (with_snapshotCounter r
         (resolveFilename ".html" (snapshotCounter r) filename testName).1) w
      (resolveFilename ".html" (snapshotCounter r) filename testName).2.
Proof. unfold takeSnapshot. now destruct (resolveFilename _ _ _ _). Qed.


(** A snapshot step that finds a baseline. *)
Lemma saveOrCompareSnapshot_present (r : Runner) (w : World B) (filename : string)
    (b : B) (evs : list ConsoleEvent) (html : string) (baselineData : list byte) :
  let dir := Config.SnapshotDir (config r) in
  let path := filepath_Join dir filename in
  let stem := strings.TrimSuffix path ".html" in
  let baseline := string_of_list_byte baselineData in
  os.MkdirAll (disk w) dir = None ->
  chromedp_Run (chromedp.Evaluate "document.documentElement.outerHTML") (browser w)
    = (b, evs, inl html) ->
  os.Stat (disk w) path = None ->
  os.ReadFile (disk w) path = inl baselineData ->
  saveOrCompareSnapshot r w filename
  = if compareSnapshots baseline html
    then (r, mkWorld b (disk w), evs, None)
    else
      (r,
       mkWorld b
         (os.WriteFile
            (os.WriteFile (disk w) (stem +:+ ".actual.html") (list_byte_of_string html)).1
            (stem +:+ ".diff.html")
            (list_byte_of_string (generateHTMLDiff baseline html))).1,
       evs,
       Some (Errorf
         "snapshot differs from baseline. Delete the old snapshot at %s to save the new one"
         [ArgString path])).
Proof.
  intros dir path stem baseline Hmk Hrun Hstat Hread.
  unfold saveOrCompareSnapshot. fold dir. rewrite Hmk, Hrun. cbn [disk].
  fold path. rewrite Hstat, Hread. fold baseline.
  now destruct (compareSnapshots baseline html).
Qed.


(** X4. When a snapshot has a baseline whose normal form differs from that
    of the captured HTML, the step fails with the message that names the
    baseline to delete. Before that it writes the captured HTML to
    "<stem>.actual.html" and the diff page to "<stem>.diff.html", the stem
    being the baseline path without a final ".html"; errors of the two
    writes are ignored. The baseline is left as it is. *)
Theorem snapshot_differs_from_baseline (r : Runner) (w : World B)
    (filename testName : string) (b : B) (evs : list ConsoleEvent) (html : string)
    (baselineData : list byte) :
  let resolved := resolveFilename ".html" (snapshotCounter r) filename testName in
  let r' := with_snapshotCounter r resolved.1 in
  let dir := Config.SnapshotDir (config r) in
  let path := filepath_Join dir resolved.2 in
  let stem := strings.TrimSuffix path ".html" in
  let baseline := string_of_list_byte baselineData in
  os.MkdirAll (disk w) dir = None ->
  chromedp_Run (chromedp.Evaluate "document.documentElement.outerHTML") (browser w)
    = (b, evs, inl html) ->
  os.Stat (disk w) path = None ->
  os.ReadFile (disk w) path = inl baselineData ->
  normalizeHTML baseline <> normalizeHTML html ->
  exists fs,
    takeSnapshot r w filename testName
    = (r', mkWorld b fs, evs,
       Some (Errorf
         "snapshot differs from baseline. Delete the old snapshot at %s to save the new one"
         [ArgString path])) /\
    (os.fault (disk w) (os.WriteFileOp (stem +:+ ".actual.html")) = None ->
     os.files fs !! (stem +:+ ".actual.html") = Some (list_byte_of_string html)) /\
    (os.fault (disk w) (os.WriteFileOp (stem +:+ ".diff.html")) = None ->
     os.files fs !! (stem +:+ ".diff.html")
     = Some (list_byte_of_string (generateHTMLDiff baseline html))) /\
    os.files fs !! path = Some baselineData /\
    (forall name, name <> stem +:+ ".actual.html" -> name <> stem +:+ ".diff.html" ->
       os.files fs !! name = os.files (disk w) !! name).
Proof.
  intros resolved r' dir path stem baseline Hmk Hrun Hstat Hread Hne.
  destruct (snapshot_artifact_paths_distinct path) as (Hpa & Hpd & Had).
  fold stem in Hpa, Hpd, Had.
  apply ReadFile_files in Hread as Hbase.
  eexists. split; [|split; [|split; [|split]]].
  - rewrite takeSnapshot_resolved. fold resolved r'.
    rewrite (saveOrCompareSnapshot_present r' w resolved.2 b evs html baselineData
               Hmk Hrun Hstat Hread).
    fold baseline. unfold compareSnapshots.
    destruct (String.eqb_spec (normalizeHTML baseline) (normalizeHTML html));
      [contradiction|].
    change (Config.SnapshotDir (config r')) with dir. fold path stem. reflexivity.
  - intros Hfa. written.
  - intros Hfd. written.
  - written.
  - intros name Hna Hnd. written.
Qed.


End Snapshots.


(** With no snapshot yet and a full disk, the step fails and leaves the
    first byte of the HTML at the path of the snapshot. *)
Lemma missing_snapshot_partly_written :
  let out := takeSnapshot (Start (NewRunner None)) fullDiskWorld "" "Login Test" in
  out.2 = Some (Errorf "failed to save snapshot: %v"
                       [ArgError (ExternalError "os" "no space left on device")]) /\
  os.files (disk out.1.1.2) !! "__snapshots__/Login_Test.html"%string
  = Some (list_byte_of_string "<").
Proof. vm_compute. auto. Qed.

Lemma snapshot_differs_from_baseline_witness :
  exists fs,
    takeSnapshot (Start (NewRunner None)) staleSnapshotWorld "home.html" "Home"
    = (Start (NewRunner None), mkWorld (Stub.tick (browser stubWorld)) fs, [],
       Some (Errorf
         "snapshot differs from baseline. Delete the old snapshot at %s to save the new one"
         [ArgString "__snapshots__/home.html"])) /\
    os.files fs !! "__snapshots__/home.actual.html"%string
    = Some (list_byte_of_string "<html><body>Hi</body></html>").
Proof.
  edestruct (snapshot_differs_from_baseline (Start (NewRunner None)) staleSnapshotWorld
               "home.html" "Home" (Stub.tick (browser stubWorld)) []
               "<html><body>Hi</body></html>"
               (list_byte_of_string "<html><body>Bye</body></html>"))
    as (fs & E & Ha & _); [reflexivity .. | vm_compute; discriminate |].
  exists fs. split; [exact E | apply Ha; reflexivity].
Defined.


(** ** Screenshot baselines, continued *)

Section Screenshots.

Context {lib : GoLib} {B : Type} {chrome : Browser B}.





(** X7. What a screenshot or snapshot step can write. It never changes a
    file other than the baseline and the two artifacts next to it, and it
    never changes the baseline when [os.Stat] finds it: an existing
    baseline is only ever read. A step that finds its baseline and
    succeeds leaves the whole disk as it is. *)
Theorem baseline_steps_write_only_their_files (r : Runner) (w : World B)
    (filename testName : string) :
  (let path := filepath_Join (Config.ScreenshotDir (config r))
                 (resolveFilename ".png" (screenshotCounter r) filename testName).2 in
   let stem := strings.TrimSuffix path ".png" in
   let out := takeScreenshot r w filename testName in
   os.fault (disk out.1.1.2) = os.fault (disk w) /\
   (forall name, name <> path -> name <> stem +:+ ".actual.png" ->
      name <> stem +:+ ".diff.png" ->
      os.files (disk out.1.1.2) !! name = os.files (disk w) !! name) /\
   (os.Stat (disk w) path = None ->
      os.files (disk out.1.1.2) !! path = os.files (disk w) !! path) /\
   (os.Stat (disk w) path = None -> out.2 = None -> disk out.1.1.2 = disk w)) /\
  (let path := filepath_Join (Config.SnapshotDir (config r))
                 (resolveFilename ".html" (snapshotCounter r) filename testName).2 in
   let stem := strings.TrimSuffix path ".html" in
   let out := takeSnapshot r w filename testName in
   os.fault (disk out.1.1.2) = os.fault (disk w) /\
   (forall name, name <> path -> name <> stem +:+ ".actual.html" ->
      name <> stem +:+ ".diff.html" ->
      os.files (disk out.1.1.2) !! name = os.files (disk w) !! name) /\
   (os.Stat (disk w) path = None ->
      os.files (disk out.1.1.2) !! path = os.files (disk w) !! path) /\
   (os.Stat (disk w) path = None -> out.2 = None -> disk out.1.1.2 = disk w)).
Proof.
  split.
  - intros path stem out.
    destruct (artifact_paths_distinct path) as (Hpa & Hpd & Had).
    fold stem in Hpa, Hpd, Had.
    subst out. rewrite takeScreenshot_resolved. unfold saveOrCompareScreenshot.
    cbn [config with_screenshotCounter]. fold path.
    destruct (os.MkdirAll _ _); [cbn; now repeat split|].
    destruct (chromedp_Run _ _) as [[b evs] [shot|err]]; [|cbn; now repeat split].
    cbn [disk]. destruct (os.Stat (disk w) path) as [e|] eqn:Hstat.
    + destruct (os.WriteFile (disk w) path shot) as [fs [e1|]] eqn:Ew;
        apply (f_equal fst) in Ew; cbn [fst] in Ew; subst fs; cbn [fst snd disk];
        (split; [apply WriteFile_fault|]);
        (split; [intros name Hn _ _; written|]);
        split; discriminate.
    + destruct (os.ReadFile _ _) as [baselineData|e] eqn:Hread; [|cbn; now repeat split].
      destruct (compareImages _ _) as [[diff diffImage] [err|]]; [cbn; now repeat split|].
      destruct (PrimFloat.ltb _ _); [|cbn; now repeat split].
      fold stem. cbn [fst snd disk].
      split; [destruct diffImage; now rewrite ?WriteFile_fault|].
      split; [intros name _ Hna Hnd; destruct diffImage; written|].
      split; [intros _; destruct diffImage; written | discriminate].
  - intros path stem out.
    destruct (snapshot_artifact_paths_distinct path) as (Hpa & Hpd & Had).
    fold stem in Hpa, Hpd, Had.
    subst out. rewrite takeSnapshot_resolved. unfold saveOrCompareSnapshot.
    cbn [config with_snapshotCounter]. fold path.
    destruct (os.MkdirAll _ _); [cbn; now repeat split|].
    destruct (chromedp_Run _ _) as [[b evs] [html|err]]; [|cbn; now repeat split].
    cbn [disk]. destruct (os.Stat (disk w) path) as [e|] eqn:Hstat.
    + destruct (os.WriteFile (disk w) path _) as [fs [e1|]] eqn:Ew;
        apply (f_equal fst) in Ew; cbn [fst] in Ew; subst fs; cbn [fst snd disk];
        (split; [apply WriteFile_fault|]);
        (split; [intros name Hn _ _; written|]);
        split; discriminate.
    + destruct (os.ReadFile _ _) as [baselineData|e] eqn:Hread; [|cbn; now repeat split].
      destruct (compareSnapshots _ _); cbn [negb]; [cbn; now repeat split|].
      fold stem. cbn [fst snd disk].
      split; [now rewrite ?WriteFile_fault|].
      split; [intros name _ Hna Hnd; written|].
      split; [intros _; written | discriminate].
Qed.

End Screenshots.


(** ** The step executor *)

Section Executor.

Context {lib : GoLib} {B : Type} {chrome : Browser B}.

Lemma executeStep_browser (r : Runner) (w : World B) (step : Step.t) (testName : string) :
  usesBaselines step = false ->
  executeStep r w step testName
  = let '(b, evs, err) := browserStep (config r) (browser w) step in
    (r, mkWorld b (disk w), evs, err).
Proof.
  unfold usesBaselines, executeStep. intros [-> ->]%orb_false_elim. reflexivity.
Qed.

(** The update flags have no part in what a step does. *)
Lemma executeStep_updates (r : Runner) (w : World B) (step : Step.t) (testName : string)
    (shots snaps : bool) :
  executeStep (with_config r (with_updates (config r) shots snaps)) w step testName
  = let '(r', w', evs, err) := executeStep r w step testName in
    (with_config r' (with_updates (config r) shots snaps), w', evs, err).
Proof.
  unfold executeStep.
  destruct (String.eqb (Step.Action step) "screenshot").
  { rewrite !takeScreenshot_resolved. unfold saveOrCompareScreenshot.
    cbn [config with_config with_updates with_screenshotCounter screenshotCounter
         Config.ScreenshotDir Config.ScreenshotThreshold].
    repeat case_scrutinee; first [reflexivity | congruence]. }
  destruct (String.eqb (Step.Action step) "snapshot").
  { rewrite !takeSnapshot_resolved. unfold saveOrCompareSnapshot.
    cbn [config with_config with_updates with_snapshotCounter snapshotCounter
         Config.SnapshotDir].
    repeat case_scrutinee; first [reflexivity | congruence]. }
  change (browserStep (config (with_config r (with_updates (config r) shots snaps))))
    with (browserStep (config r)).
  now destruct (browserStep _ _ _) as [[b evs] err].
Qed.

Lemma runSteps_updates (steps : list Step.t) (r : Runner) (w : World B)
    (errors : list ConsoleError.t) (testName : string) (cfg : Config.t) (shots snaps : bool) :
  config r = cfg ->
  runSteps (with_config r (with_updates cfg shots snaps)) w errors steps testName
  = let '(r', w', errors', err) := runSteps r w errors steps testName in
    (with_config r' (with_updates cfg shots snaps), w', errors', err).
Proof.
  revert r w errors. induction steps as [|step rest IH]; intros r w errors Hcfg;
    [reflexivity|].
  cbn [runSteps].
  pose proof (executeStep_updates r w step testName shots snaps) as E.
  rewrite Hcfg in E. rewrite E.
  pose proof (executeStep_config r w step testName) as [Hc _].
  destruct (executeStep r w step testName) as [[[r1 w1] evs] err]. cbn [fst] in Hc.
  cbn [config with_config].
  change (listener (with_updates cfg shots snaps)) with (listener cfg).
  rewrite Hc, Hcfg.
  destruct err as [e|]; [reflexivity|].
  apply IH. congruence.
Qed.

(** X8. The fields [UpdateScreenshots] and [UpdateSnapshots] of the
    configuration are never read by a test: whatever their values, a test
    does the same to the browser and to the disk and has the same result.
    In particular no setting makes a step replace a baseline that differs. *)
Theorem update_flags_are_ignored (r : Runner) (w : World B) (test : Test.t)
    (shots snaps : bool) :
  let flagged := with_updates (config r) shots snaps in
  runTest (with_config r flagged) w test
  = let '(r', w', result) := runTest r w test in (with_config r' flagged, w', result).
Proof.
  intros flagged. unfold runTest.
  cbn [allocCtx config with_config]. subst flagged.
  cbn [with_updates Config.Timeout Config.FailOnConsoleError].
  destruct (allocCtx r); cbn [negb]; [|reflexivity].
  destruct (initialize _) as [b [e|]]; [reflexivity|].
  rewrite (runSteps_updates _ r _ _ _ (config r)) by reflexivity.
  pose proof (runSteps_config (Test.Steps test) r (mkWorld b (disk w)) []
                (Test.Name test)) as Hc.
  destruct (runSteps r _ _ _ _) as [[[r1 w1] errors] stepErr]. cbn [fst] in Hc.
  cbn [config with_config with_updates Config.FailOnConsoleError]. rewrite Hc.
  reflexivity.
Qed.

(** X9. Tests without screenshot and snapshot steps leave the runner and
    the disk as they are, however their steps end. *)
Theorem browser_tests_leave_disk (ts : list Test.t) (r : Runner) (w : World B) :
  Forall (fun test => forallb (fun step => negb (usesBaselines step)) (Test.Steps test)
                      = true) ts ->
  (runTests r w ts).1.1 = r /\ disk (runTests r w ts).1.2 = disk w.
Proof.
  assert (Hsteps : forall steps (r : Runner) (w : World B) errors testName,
            forallb (fun step => negb (usesBaselines step)) steps = true ->
            (runSteps r w errors steps testName).1.1.1 = r /\
            disk (runSteps r w errors steps testName).1.1.2 = disk w).
  { induction steps as [|step rest IH]; intros r0 w0 errors testName Hall;
      [now split|].
    cbn [forallb] in Hall. apply andb_prop in Hall as [Hs Hall].
    apply negb_true_iff in Hs.
    cbn [runSteps]. rewrite (executeStep_browser _ _ _ _ Hs).
    destruct (browserStep _ _ _) as [[b evs] [e|]]; [now split|].
    destruct (IH r0 (mkWorld b (disk w0)) (fold_left (listener (config r0)) evs errors)
                testName Hall) as [E1 E2].
    now split. }
  assert (Htest : forall test (r : Runner) (w : World B),
            forallb (fun step => negb (usesBaselines step)) (Test.Steps test) = true ->
            (runTest r w test).1.1 = r /\ disk (runTest r w test).1.2 = disk w).
  { intros test r0 w0 Hall. unfold runTest.
    destruct (negb (allocCtx r0)); [now split|].
    destruct (initialize _) as [b [e|]]; [now split|].
    destruct (Hsteps (Test.Steps test) r0 (mkWorld b (disk w0)) [] (Test.Name test) Hall)
      as [E1 E2].
    destruct (runSteps _ _ _ _ _) as [[[r1 w1] errors] stepErr].
    now split. }
  revert r w. induction ts as [|test rest IH]; intros r w Hall; [now split|].
  inversion Hall as [|? ? Ht Hrest]; subst.
  cbn [runTests].
  destruct (Htest test r w Ht) as [E1 E2].
  destruct (runTest r w test) as [[r1 w1] result]. cbn [fst snd] in E1, E2. subst r1.
  destruct (IH r w1 Hrest) as [E3 E4].
  destruct (runTests r w1 rest) as [[r2 w2] more]. cbn [fst snd] in *.
  split; congruence.
Qed.

(** X10. A step whose action is none of the labels of the [switch] fails
    with "unknown action" before anything is done: the browser is not
    asked anything, the disk and the runner stay as they are. *)
Theorem unknown_action_touches_nothing (r : Runner) (w : World B) (step : Step.t)
    (testName : string) :
  ~ In (Step.Action step) knownActions ->
  executeStep r w step testName
  = (r, w, [], Some (Errorf "unknown action: %s" [ArgString (Step.Action step)])).
Proof.
  intros Hn. unfold executeStep, browserStep.
  repeat match goal with
    | |- context [String.eqb (Step.Action step) ?a] =>
        destruct (String.eqb_spec (Step.Action step) a) as [E|_];
          [exfalso; apply Hn; rewrite E; unfold knownActions; cbn; tauto|]
    end.
  now destruct w.
Qed.

End Executor.

Lemma browser_tests_leave_disk_witness :
  (runTests (Start (NewRunner None)) stubWorld [clickNoisy; thirdFails]).1.1
  = Start (NewRunner None) /\
  disk (runTests (Start (NewRunner None)) stubWorld [clickNoisy; thirdFails]).1.2
  = disk stubWorld.
Proof.
  apply (browser_tests_leave_disk [clickNoisy; thirdFails] (Start (NewRunner None))
           stubWorld).
  repeat constructor.
Defined.

Lemma unknown_action_touches_nothing_witness :
  executeStep (Start (NewRunner None)) stubWorld (Step.mk "dance" "#floor" "") "t"
  = (Start (NewRunner None), stubWorld, [],
     Some (Errorf "unknown action: %s" [ArgString "dance"])).
Proof.
  apply (unknown_action_touches_nothing (Start (NewRunner None)) stubWorld
           (Step.mk "dance" "#floor" "") "t").
  cbn. intuition discriminate.
Defined.

(** ** Waiting for a URL *)

Section WaitForURL.

Context {lib : GoLib} {B : Type} {chrome : Browser B}.

Lemma waitForURL_outcomes (fuel : nat) (deadline : Z) (target : string) (b : B) :
  (waitForURL fuel deadline target b).2 = None \/
  (waitForURL fuel deadline target b).2 = Some (timeoutURL target).
Proof.
  revert b. induction fuel as [|k IH]; intros b; cbn [waitForURL]; [now right|].
  destruct (Now b <? deadline); [|now right].
  destruct (chromedp_Run chromedp.Location b) as [[b1 evs] x].
  destruct (match x with inl u => strings.Contains u target | inr _ => false end);
    [now left|].
  destruct (Select b1) as [[b2 evs'] ticked].
  destruct ticked; [|now right].
  specialize (IH b2). destruct (waitForURL k deadline target b2) as [[b3 evs''] err].
  exact IH.
Qed.

Lemma browserStep_wait_for_url (cfg : Config.t) (b : B) (target value : string) :
  browserStep cfg b (Step.mk "wait_for_url" target value)
  = let deadline :=
      match Deadline b with
      | Some deadline => deadline
      | None => Now b + Config.Timeout cfg
      end in
    waitForURL (S (Z.to_nat ((deadline - Now b) / (50 * millisecond)))) deadline target b.
Proof. reflexivity. Qed.

(** X11. A wait_for_url step ends in one of two ways only: it succeeds, or
    it fails with "timeout waiting for URL to contain ...". An error of
    reading the location is never the error of the step: the loop goes on
    to the next tick. When the deadline has passed already the step times
    out without asking the browser anything; when the first location read
    contains the target the step succeeds at once. The deadline is that of
    the test's context, and without one the time of the call plus the
    configured timeout. *)
Theorem wait_for_url_outcomes (r : Runner) (w : World B) (step : Step.t)
    (testName : string) :
  Step.Action step = "wait_for_url"%string ->
  let b := browser w in
  let target := Step.Target step in
  let deadline :=
    match Deadline b with
    | Some deadline => deadline
    | None => Now b + Config.Timeout (config r)
    end in
  let out := executeStep r w step testName in
  (out.2 = None \/ out.2 = Some (timeoutURL target)) /\
  out.1.1.1 = r /\ disk out.1.1.2 = disk w /\
  (deadline <= Now b -> out = (r, w, [], Some (timeoutURL target))) /\
  (forall b1 evs url,
     Now b < deadline ->
     chromedp_Run chromedp.Location b = (b1, evs, inl url) ->
     strings.Contains url target = true ->
     out = (r, mkWorld b1 (disk w), evs, None)) /\
  (forall b1 evs b2 evs' x,
     Now b < deadline ->
     chromedp_Run chromedp.Location b = (b1, evs, x) ->
     match x with inl url => strings.Contains url target = false | inr _ => True end ->
     Select b1 = (b2, evs', false) ->
     out = (r, mkWorld b2 (disk w), evs ++ evs', Some (timeoutURL target))).
Proof.
  intros Ha b target deadline out.
  destruct step as [action tgt value]. cbn in Ha, target. subst action.
  assert (E : out = let '(b', evs, err) :=
                      waitForURL (S (Z.to_nat ((deadline - Now b) / (50 * millisecond))))
                                 deadline target b in
                    (r, mkWorld b' (disk w), evs, err)) by reflexivity.
  rewrite E. clear E out.
  pose proof (waitForURL_outcomes (S (Z.to_nat ((deadline - Now b) / (50 * millisecond))))
                deadline target b) as Hout.
  split; [|split; [|split; [|split; [|split]]]].
  - now destruct (waitForURL _ _ _ _) as [[b' evs] err].
  - now destruct (waitForURL _ _ _ _) as [[b' evs] err].
  - now destruct (waitForURL _ _ _ _) as [[b' evs] err].
  - intros Hd. cbn [waitForURL].
    destruct (Z.ltb_spec (Now b) deadline); [lia|]. now destruct w.
  - intros b1 evs url Hd Hrun Hc. cbn [waitForURL].
    destruct (Z.ltb_spec (Now b) deadline); [|lia].
    rewrite Hrun, Hc. reflexivity.
  - intros b1 evs b2 evs' x Hd Hrun Hx Hsel. cbn [waitForURL].
    destruct (Z.ltb_spec (Now b) deadline); [|lia].
    rewrite Hrun.
    replace (match x with inl u => strings.Contains u target | inr _ => false end)
      with false by (destruct x; congruence).
    rewrite Hsel. reflexivity.
Qed.

End WaitForURL.

(** ** Console errors *)

Section ConsoleErrors.

Context {lib : GoLib} {B : Type} {chrome : Browser B}.

Lemma listener_recorded (cfg : Config.t) (errors : list ConsoleError.t) (ev : ConsoleEvent) :
  listener cfg errors ev
  = if recorded cfg ev then errors ++ [consoleErrorOf ev] else errors.
Proof.
  unfold listener, recorded, consoleErrorOf.
  destruct (String.eqb (ev_Type ev) "error"); cbn [andb]; [|reflexivity].
  destruct (Config.ErrorFilter cfg) as [filter|]; [|reflexivity].
  now destruct (filter _).
Qed.

Lemma listener_fold (cfg : Config.t) (evs : list ConsoleEvent) (errors : list ConsoleError.t) :
  fold_left (listener cfg) evs errors
  = errors ++ map consoleErrorOf (List.filter (recorded cfg) evs).
Proof.
  revert errors. induction evs as [|ev evs IH]; intros errors; cbn [fold_left List.filter].
  - now rewrite app_nil_r.
  - rewrite IH, listener_recorded.
    destruct (recorded cfg ev); [|reflexivity].
    now rewrite <- app_assoc.
Qed.

Lemma recorded_reportable (cfg : Config.t) (ev : ConsoleEvent) :
  recorded cfg ev = true -> reportable cfg (consoleErrorOf ev).
Proof.
  unfold recorded, reportable. intros [Ht Hf]%andb_prop.
  apply String.eqb_eq in Ht. split; [exact Ht|].
  intros filter Hfilter. rewrite Hfilter in Hf. now apply negb_true_iff in Hf.
Qed.

Lemma runSteps_reportable (steps : list Step.t) (r : Runner) (w : World B)
    (errors : list ConsoleError.t) (testName : string) :
  Forall (reportable (config r)) errors ->
  Forall (reportable (config r)) (runSteps r w errors steps testName).1.2.
Proof.
  revert r w errors. induction steps as [|step rest IH]; intros r w errors Hall;
    [exact Hall|].
  cbn [runSteps].
  pose proof (executeStep_config r w step testName) as [Hc _].
  destruct (executeStep r w step testName) as [[[r1 w1] evs] err]. cbn [fst] in Hc.
  assert (Hall1 : Forall (reportable (config r1))
                    (fold_left (listener (config r1)) evs errors)).
  { rewrite listener_fold, Hc. apply Forall_app. split; [exact Hall|].
    apply List.Forall_forall. intros ce (ev & <- & Hin)%in_map_iff.
    apply filter_In in Hin as [_ Hrec]. now apply recorded_reportable. }
  destruct err as [e|]; cbn; [now rewrite <- Hc|].
  rewrite <- Hc. now apply IH.
Qed.

(** X12. What a test reports as console errors. The listener adds to
    [result.Errors] one entry for every console event of type "error" that
    the filter, if there is one, does not suppress, in the order of the
    events, and nothing for any other event. So every entry of the
    [Errors] of a result has the type "error" and is one the filter does
    not suppress; warnings and logs never fail a test. *)
Theorem console_errors_recorded (r : Runner) (w : World B) (test : Test.t) :
  (forall evs errors,
     fold_left (listener (config r)) evs errors
     = errors ++ map consoleErrorOf (List.filter (recorded (config r)) evs)) /\
  (forall ev, ev_Type ev <> "error"%string -> recorded (config r) ev = false) /\
  Forall (reportable (config r)) (TestResult.Errors (runTest r w test).2).
Proof.
  split; [intros; apply listener_fold|]. split.
  - intros ev Hne. unfold recorded.
    now destruct (String.eqb_spec (ev_Type ev) "error").
  - unfold runTest. destruct (negb (allocCtx r)); [constructor|].
    destruct (initialize _) as [b [e|]]; [constructor|].
    pose proof (runSteps_reportable (Test.Steps test) r (mkWorld b (disk w)) []
                  (Test.Name test) (List.Forall_nil _)) as Hall.
    now destruct (runSteps _ _ _ _ _) as [[[r1 w1] errors] stepErr].
Qed.

End ConsoleErrors.

Lemma wait_for_url_outcomes_witness :
  executeStep (Start (NewRunner None)) stubWorld (Step.mk "wait_for_url" "blank" "") "t"
  = (Start (NewRunner None), mkWorld (Stub.tick (browser stubWorld)) (disk stubWorld),
     [], None).
Proof.
  destruct (wait_for_url_outcomes (Start (NewRunner None)) stubWorld
              (Step.mk "wait_for_url" "blank" "") "t" eq_refl)
    as (_ & _ & _ & _ & H & _).
  apply (H (Stub.tick (browser stubWorld)) [] "about:blank"%string);
    [cbn; lia | reflexivity | reflexivity].
Defined.

(** ** The target of assert_attribute *)

Lemma HasPrefix_byte (x c : ascii) (s : string) :
  strings.HasPrefix (String x s) (String c "") = Ascii.eqb c x.
Proof.
  unfold strings.HasPrefix. cbn [strings.CutPrefix].
  destruct (Ascii.eqb c x); [now rewrite CutPrefix_nil | reflexivity].
Qed.

Lemma splitFrom_byte_length (c : ascii) (cur s : string) :
  length (strings.splitFrom (String c "") O cur s) = S (countByte c s).
Proof.
  revert cur. induction s as [|x s IH]; intros cur; [reflexivity|].
  cbn [strings.splitFrom countByte]. rewrite HasPrefix_byte.
  destruct (Ascii.eqb c x); cbn [Nat.pred String.length length]; now rewrite IH.
Qed.

Lemma splitFrom_byte_absent (c : ascii) (cur s : string) :
  countByte c s = O -> strings.splitFrom (String c "") O cur s = [cur +:+ s].
Proof.
  revert cur. induction s as [|x s IH]; intros cur Hc.
  - now rewrite append_nil_r.
  - cbn [strings.splitFrom countByte] in *. rewrite HasPrefix_byte.
    destruct (Ascii.eqb c x); [discriminate|].
    rewrite IH by exact Hc.
    now rewrite append_assoc, append_cons, append_nil_l.
Qed.

Lemma splitFrom_byte_first (c : ascii) (cur a rest : string) :
  countByte c a = O ->
  strings.splitFrom (String c "") O cur (a +:+ String c rest)
  = (cur +:+ a) :: strings.splitFrom (String c "") O "" rest.
Proof.
  revert cur. induction a as [|x a IH]; intros cur Hc.
  - rewrite append_nil_l, append_nil_r. cbn [strings.splitFrom].
    now rewrite HasPrefix_byte, Ascii.eqb_refl.
  - rewrite append_cons. cbn [strings.splitFrom countByte] in *.
    rewrite HasPrefix_byte.
    destruct (Ascii.eqb c x); [discriminate|].
    rewrite IH by exact Hc.
    now rewrite append_assoc, append_cons, append_nil_l.
Qed.

Section AssertAttribute.

Context {lib : GoLib} {B : Type} {chrome : Browser B}.

(** X13. The target of an assert_attribute step is read as
    "selector|attribute". A target made of a selector and an attribute
    name without a bar, joined by one bar, is taken apart into these two,
    and the step asks the browser for that attribute of that selector and
    nothing else; its verdict is the error of the browser, "attribute not
    found", the mismatch of the value, or success. A target with no bar or
    with more than one, as a selector that has a bar of its own gives,
    fails with "invalid assert_attribute format" before the browser is
    asked anything. *)
Theorem assert_attribute_target (r : Runner) (w : World B) (value testName : string) :
  (forall selector attribute b evs x,
     countByte "|" selector = O -> countByte "|" attribute = O ->
     chromedp_Run (chromedp.AttributeValue selector attribute) (browser w) = (b, evs, x) ->
     executeStep r w (Step.mk "assert_attribute" (selector +:+ "|" +:+ attribute) value)
                 testName
     = (r, mkWorld b (disk w), evs,
        match x with
        | inr err => Some err
        | inl (found, ok) =>
            if negb ok
            then Some (Errorf "attribute '%s' not found" [ArgString attribute])
            else if negb (String.eqb found value)
            then Some (Errorf "expected attribute '%s' to be '%s', got '%s'"
                              [ArgString attribute; ArgString value; ArgString found])
            else None
        end)) /\
  (forall target,
     countByte "|" target <> 1%nat ->
     executeStep r w (Step.mk "assert_attribute" target value) testName
     = (r, w, [], Some (Errorf "invalid assert_attribute format" []))).
Proof.
  split.
  - intros selector attribute b evs x Hs Ha Hrun.
    assert (E : strings.Split (selector +:+ "|" +:+ attribute) "|" = [selector; attribute]).
    { unfold strings.Split.
      change ("|" +:+ attribute)%string with (String "|" attribute).
      rewrite splitFrom_byte_first by exact Hs.
      rewrite splitFrom_byte_absent by exact Ha.
      now rewrite !append_nil_l. }
    unfold executeStep, browserStep. cbn [Step.Action Step.Target Step.Value String.eqb
      Ascii.eqb Bool.eqb].
    rewrite E. unfold runThen. rewrite Hrun.
    destruct x as [[found ok]|err]; [|reflexivity].
    destruct ok; cbn [negb]; [|now rewrite app_nil_r].
    destruct (String.eqb found value); cbn [negb]; now rewrite app_nil_r.
  - intros target Hn.
    pose proof (splitFrom_byte_length "|" "" target) as Hlen.
    fold (strings.Split target "|") in Hlen.
    unfold executeStep, browserStep. cbn [Step.Action Step.Target Step.Value String.eqb
      Ascii.eqb Bool.eqb].
    destruct (strings.Split target "|") as [|p1 [|p2 [|p3 ps]]]; cbn [length] in Hlen;
      try (now destruct w).
    exfalso. apply Hn. lia.
Qed.

End AssertAttribute.

(** ** The diff page of a snapshot *)

Lemma ReplaceAll_removes_byte (c : ascii) (new s : string) :
  strings.Contains new (String c "") = false ->
  strings.Contains (strings.ReplaceAll s (String c "") new) (String c "") = false.
Proof.
  intros Hnew. unfold strings.ReplaceAll.
  induction s as [|x s IH]; [reflexivity|].
  cbn [strings.replaceFrom]. rewrite HasPrefix_byte.
  destruct (Ascii.eqb c x) eqn:E; cbn [Nat.pred String.length].
  - now rewrite Contains_byte_append, Hnew, IH.
  - now rewrite Contains_byte, E, IH.
Qed.

Lemma ReplaceAll_keeps_absent (c : ascii) (old new s : string) :
  strings.Contains new (String c "") = false ->
  strings.Contains s (String c "") = false ->
  strings.Contains (strings.ReplaceAll s old new) (String c "") = false.
Proof. intros Hnew Hs. now apply replaceFrom_byte. Qed.

(** X14. The text that [escapeHTML] returns holds none of the characters
    less-than, greater-than, double quote and single quote, whatever the
    input is, so the HTML under test cannot open or close a tag or an
    attribute in the diff page. A text that has none of these four and no
    ampersand is returned as it is. *)
Theorem escapeHTML_leaves_no_markup (s : string) :
  (strings.Contains (escapeHTML s) "<" = false /\
   strings.Contains (escapeHTML s) ">" = false /\
   strings.Contains (escapeHTML s) DQ = false /\
   strings.Contains (escapeHTML s) "'" = false) /\
  (strings.Contains s "&" = false -> strings.Contains s "<" = false ->
   strings.Contains s ">" = false -> strings.Contains s DQ = false ->
   strings.Contains s "'" = false -> escapeHTML s = s).
Proof.
  unfold escapeHTML. split; [repeat split|].
  - do 3 (apply ReplaceAll_keeps_absent; [reflexivity|]).
    now apply ReplaceAll_removes_byte.
  - do 2 (apply ReplaceAll_keeps_absent; [reflexivity|]).
    now apply ReplaceAll_removes_byte.
  - apply ReplaceAll_keeps_absent; [reflexivity|].
    now apply ReplaceAll_removes_byte.
  - now apply ReplaceAll_removes_byte.
  - intros Ha Hl Hg Hq Hs.
    now rewrite (ReplaceAll_absent s "&"), (ReplaceAll_absent s "<"),
      (ReplaceAll_absent s ">"), (ReplaceAll_absent s DQ), (ReplaceAll_absent s "'").
Qed.

(** ** The full pass of the comparison *)

Lemma differing_app (b c : image.Image) (l1 l2 : list (Z * Z)) :
  differing b c (l1 ++ l2) = differing b c l1 + differing b c l2.
Proof. unfold differing. rewrite List.filter_app, length_app. lia. Qed.

Lemma differing_cons (b c : image.Image) (p : Z * Z) (l : list (Z * Z)) :
  differing b c (p :: l) = (if differsAt b c p then 1 else 0) + differing b c l.
Proof.
  unfold differing. cbn [List.filter].
  destruct (differsAt b c p); cbn [length]; lia.
Qed.

Lemma differing_bounds (b c : image.Image) (l : list (Z * Z)) :
  0 <= differing b c l <= Z.of_nat (length l).
Proof.
  unfold differing. pose proof (List.filter_length_le (differsAt b c) l). lia.
Qed.

Lemma rowOf_nil (x0 x1 y : Z) : x1 <= x0 -> rowOf x0 x1 y = [].
Proof. intros Hx. unfold rowOf. now rewrite seqZ_nil by lia. Qed.

Lemma rowOf_cons (x0 x1 y : Z) :
  x0 < x1 -> rowOf x0 x1 y = (x0, y) :: rowOf (x0 + 1) x1 y.
Proof.
  intros Hx. unfold rowOf. rewrite seqZ_cons by lia. cbn [map].
  do 3 f_equal; lia.
Qed.

Lemma length_rowOf (x0 x1 y : Z) :
  x0 <= x1 -> Z.of_nat (length (rowOf x0 x1 y)) = x1 - x0.
Proof. intros Hx. unfold rowOf. rewrite length_map, length_seqZ. lia. Qed.

Lemma grid_nil (x0 x1 y0 y1 : Z) : y1 <= y0 -> grid x0 x1 y0 y1 = [].
Proof. intros Hy. unfold grid. now rewrite seqZ_nil by lia. Qed.

Lemma grid_cons (x0 x1 y0 y1 : Z) :
  y0 < y1 -> grid x0 x1 y0 y1 = rowOf x0 x1 y0 ++ grid x0 x1 (y0 + 1) y1.
Proof.
  intros Hy. unfold grid. rewrite seqZ_cons by lia. cbn [flat_map].
  do 3 f_equal; lia.
Qed.

Lemma grid_app (x0 x1 y0 y1 y2 : Z) :
  y0 <= y1 <= y2 -> grid x0 x1 y0 y2 = grid x0 x1 y0 y1 ++ grid x0 x1 y1 y2.
Proof.
  intros Hy. unfold grid.
  replace (y2 - y0) with ((y1 - y0) + (y2 - y1)) by lia.
  rewrite seqZ_app by lia. rewrite flat_map_app.
  do 3 f_equal; lia.
Qed.

Lemma length_grid (x0 x1 y0 y1 : Z) :
  x0 <= x1 -> y0 <= y1 ->
  Z.of_nat (length (grid x0 x1 y0 y1)) = (y1 - y0) * (x1 - x0).
Proof.
  intros Hx Hy.
  remember (Z.to_nat (y1 - y0)) as n eqn:En.
  revert y0 Hy En. induction n as [|n IH]; intros y0 Hy En.
  - rewrite grid_nil by lia. cbn. nia.
  - rewrite grid_cons by lia. rewrite length_app, Nat2Z.inj_add.
    rewrite length_rowOf by lia. rewrite IH by lia. nia.
Qed.

Section FullPass.

Context (b c : image.Image) (bounds : image.Rectangle).
Hypothesis bounds_png : png_bounds bounds.

Local Notation "'W'" := (image.X (image.Max bounds)).
Local Notation "'H'" := (image.Y (image.Max bounds)).

Lemma png_bounds_Dx : image.Dx bounds = W.
Proof.
  destruct bounds_png as (Hmin & HW & HH). unfold image.Dx. rewrite Hmin. cbn.
  rewrite Z.sub_0_r. apply wrap64_small. unfold max_int. lia.
Qed.

Lemma png_bounds_Dy : image.Dy bounds = H.
Proof.
  destruct bounds_png as (Hmin & HW & HH). unfold image.Dy. rewrite Hmin. cbn.
  rewrite Z.sub_0_r. apply wrap64_small. unfold max_int. lia.
Qed.

Lemma png_bounds_In (x y : Z) :
  image.In x y bounds = true <-> 0 <= x < W /\ 0 <= y < H.
Proof.
  destruct bounds_png as (Hmin & HW & HH). unfold image.In. rewrite Hmin. cbn.
  rewrite !andb_true_iff, !Z.leb_le, !Z.ltb_lt. lia.
Qed.

Lemma pixelsOf_png : pixelsOf bounds = grid 0 W 0 H.
Proof.
  destruct bounds_png as (Hmin & _). unfold pixelsOf. now rewrite Hmin.
Qed.

(** One round of the inner loop paints the pixel and counts it when it
    differs. *)
Lemma fullRow_spec (fuel : nat) (y x d : Z) (img : image.RGBAImage) :
  0 <= x <= W -> (Z.to_nat (W - x) <= fuel)%nat -> 0 <= y < H ->
  image.RGBA_Rect img = bounds -> 0 <= d -> d + (W - x) <= max_int ->
  exists img',
    fullRow b c bounds fuel y x (d, img) = (d + differing b c (rowOf x W y), img') /\
    image.RGBA_Rect img' = bounds /\
    (forall x', x <= x' < W ->
       image.Pix img' !! (x', y) = Some (diffColor b c x' y)) /\
    (forall x' y', ~ (y' = y /\ x <= x' < W) ->
       image.Pix img' !! (x', y') = image.Pix img !! (x', y')).
Proof.
  revert x d img. induction fuel as [|k IH]; intros x d img Hx Hfuel Hy Hrect Hd Hmax.
  - exists img. rewrite rowOf_nil by lia. cbn. rewrite Z.add_0_r.
    repeat split; [assumption | intros; lia].
  - cbn [fullRow]. destruct (Z.ltb_spec x W) as [Hlt|Hge].
    + assert (Hin : image.In x y (image.RGBA_Rect img) = true).
      { rewrite Hrect. apply png_bounds_In. lia. }
      set (img1 := image.mkRGBAImage (image.RGBA_Rect img)
                     (<[(x, y) := diffColor b c x y]> (image.Pix img))).
      assert (E : (if negb (colorsEqual (image.At b x y) (image.At c x y))
                   then (wrap64 (d + 1),
                         image.Set_ img x y (color.mkRGBA 255 0 0 255))
                   else (d,
                         image.Set_ img x y
                           (color.mkRGBA (grayOf (image.At b x y)) (grayOf (image.At b x y))
                                         (grayOf (image.At b x y)) 128)))
                  = (d + (if differsAt b c (x, y) then 1 else 0), img1)).
      { unfold image.Set_, img1, diffColor, differsAt. rewrite Hin. cbn [fst snd].
        destruct (negb (colorsEqual _ _)).
        - rewrite wrap64_small by (unfold max_int in *; lia). reflexivity.
        - now rewrite Z.add_0_r. }
      rewrite E.
      assert (Hc : 0 <= (if differsAt b c (x, y) then 1 else 0) <= 1)
        by (destruct (differsAt b c (x, y)); lia).
      destruct (IH (x + 1) (d + (if differsAt b c (x, y) then 1 else 0)) img1)
        as (img' & Erun & Hrect' & Hin' & Hout'); try lia; [exact Hrect|].
      exists img'. rewrite Erun, (rowOf_cons x W y), differing_cons by lia.
      split; [f_equal; lia|]. split; [exact Hrect'|]. split.
      * intros x' Hx'. destruct (Z.eq_dec x' x) as [->|Hne].
        -- rewrite Hout' by lia. unfold img1. cbn. apply lookup_insert_eq.
        -- apply Hin'. lia.
      * intros x' y' Hn. rewrite Hout' by lia. unfold img1. cbn.
        apply lookup_insert_ne. intros [= -> ->]. lia.
    + exists img. rewrite rowOf_nil by lia. cbn. rewrite Z.add_0_r.
      repeat split; [assumption | intros; lia].
Qed.

Lemma fullRows_spec (fuel : nat) (y endY d : Z) (img : image.RGBAImage) :
  0 <= y <= endY -> endY <= H -> (Z.to_nat (endY - y) <= fuel)%nat ->
  image.RGBA_Rect img = bounds -> 0 <= d -> d + (endY - y) * W <= max_int ->
  exists img',
    fullRows b c bounds fuel y endY (d, img)
    = (d + differing b c (grid 0 W y endY), img') /\
    image.RGBA_Rect img' = bounds /\
    (forall x' y', y <= y' < endY -> 0 <= x' < W ->
       image.Pix img' !! (x', y') = Some (diffColor b c x' y')) /\
    (forall x' y', ~ (y <= y' < endY /\ 0 <= x' < W) ->
       image.Pix img' !! (x', y') = image.Pix img !! (x', y')).
Proof.
  destruct bounds_png as (Hmin & HW & HH).
  revert y d img. induction fuel as [|k IH]; intros y d img Hy Hend Hfuel Hrect Hd Hmax.
  - exists img. rewrite grid_nil by lia. cbn. rewrite Z.add_0_r.
    repeat split; [assumption | intros; lia].
  - cbn [fullRows]. destruct (Z.ltb_spec y endY) as [Hlt|Hge].
    + rewrite png_bounds_Dx, Hmin. cbn [image.X].
      assert (Hmore : 0 <= (endY - y - 1) * W) by (apply Z.mul_nonneg_nonneg; lia).
      destruct (fullRow_spec (Z.to_nat W) y 0 d img)
        as (img1 & Erow & Hrect1 & Hin1 & Hout1); try lia; [exact Hrect|].
      rewrite Erow.
      pose proof (differing_bounds b c (rowOf 0 W y)) as Hb.
      rewrite length_rowOf in Hb by lia.
      destruct (IH (y + 1) (d + differing b c (rowOf 0 W y)) img1)
        as (img' & Erun & Hrect' & Hin' & Hout'); try lia; [exact Hrect1|].
      exists img'. rewrite Erun, (grid_cons 0 W y endY), differing_app by lia.
      split; [f_equal; lia|]. split; [exact Hrect'|]. split.
      * intros x' y' Hy' Hx'. destruct (Z.eq_dec y' y) as [->|Hne].
        -- rewrite Hout' by lia. apply Hin1. lia.
        -- apply Hin'; lia.
      * intros x' y' Hn. rewrite Hout' by lia. apply Hout1. lia.
    + exists img. rewrite grid_nil by lia. cbn. rewrite Z.add_0_r.
      repeat split; [assumption | intros; lia].
Qed.

End FullPass.

Section FullPassWorkers.

Context (b c : image.Image) (bounds : image.Rectangle).
Hypothesis bounds_png : png_bounds bounds.

Local Notation "'W'" := (image.X (image.Max bounds)).
Local Notation "'H'" := (image.Y (image.Max bounds)).

(** Worker [w] paints and counts the rows from [w * (H / 4)] on: a quarter
    of the rows, rounded down, and for the last worker all that are left. *)
Lemma fullWorker_spec (w dp startY endY : Z) (img : image.RGBAImage) :
  0 <= w <= 3 ->
  startY = w * (H / 4) ->
  endY = (if w =? 3 then H else (w + 1) * (H / 4)) ->
  image.RGBA_Rect img = bounds -> 0 <= dp -> dp + (endY - startY) * W <= max_int ->
  exists img',
    fullWorker b c bounds w (dp, img)
    = (dp + differing b c (grid 0 W startY endY), img') /\
    image.RGBA_Rect img' = bounds /\
    (forall x' y', startY <= y' < endY -> 0 <= x' < W ->
       image.Pix img' !! (x', y') = Some (diffColor b c x' y')) /\
    (forall x' y', ~ (startY <= y' < endY /\ 0 <= x' < W) ->
       image.Pix img' !! (x', y') = image.Pix img !! (x', y')).
Proof.
  intros Hw Hs He Hrect Hdp Hmax.
  destruct bounds_png as (Hmin & HW & HH).
  assert (Hq : 0 <= H / 4) by (apply Z.div_pos; lia).
  assert (Hq4 : 4 * (H / 4) <= H) by (apply Z.mul_div_le; lia).
  unfold fullWorker. rewrite (png_bounds_Dy bounds bounds_png), Hmin. cbn [image.Y].
  unfold numWorkers. rewrite Z.quot_div_nonneg by lia.
  change (4 - 1) with 3.
  assert (Ew : w = 0 \/ w = 1 \/ w = 2 \/ w = 3) by lia.
  assert (Es : wrap64 (0 + wrap64 (w * (H / 4))) = startY).
  { subst startY. rewrite (wrap64_small (w * (H / 4)));
      [|unfold max_int; destruct Ew as [-> | [-> | [-> | ->]]]; lia].
    rewrite Z.add_0_l. apply wrap64_small.
    unfold max_int; destruct Ew as [-> | [-> | [-> | ->]]]; lia. }
  rewrite Es.
  assert (Ee : (if w =? 3 then H else wrap64 (startY + H / 4)) = endY).
  { subst startY endY. destruct (w =? 3); [reflexivity|].
    rewrite wrap64_small; [lia|].
    unfold max_int; destruct Ew as [-> | [-> | [-> | ->]]]; lia. }
  rewrite Ee.
  assert (Hse : 0 <= startY <= endY /\ endY <= H).
  { subst startY endY. destruct Ew as [-> | [-> | [-> | ->]]]; cbn [Z.eqb Pos.eqb]; lia. }
  assert (Hblock : 0 <= (endY - startY) * W) by (apply Z.mul_nonneg_nonneg; lia).
  destruct (fullRows_spec b c bounds bounds_png (Z.to_nat (endY - startY))
              startY endY 0 img)
    as (img' & Erun & Hrect' & Hin' & Hout'); try lia; [exact Hrect|].
  rewrite Erun. rewrite Z.add_0_l.
  pose proof (differing_bounds b c (grid 0 W startY endY)) as Hb.
  rewrite length_grid in Hb by lia. rewrite Z.sub_0_r in Hb.
  rewrite wrap64_small by (unfold max_int in *; lia).
  exists img'. repeat split; assumption.
Qed.

(** The four workers together paint every pixel of the rectangle and count
    the pixels that differ. *)
Lemma fullPass_spec :
  exists img,
    fullPass b c bounds = (differing b c (pixelsOf bounds), img) /\
    image.RGBA_Rect img = bounds /\
    (forall x y, 0 <= x < W -> 0 <= y < H ->
       image.Pix img !! (x, y) = Some (diffColor b c x y)) /\
    (forall x y, ~ (0 <= x < W /\ 0 <= y < H) -> image.Pix img !! (x, y) = None).
Proof.
  destruct bounds_png as (Hmin & HW & HH).
  set (q := H / 4).
  assert (Hq : 0 <= q) by (apply Z.div_pos; lia).
  assert (Hq4 : 4 * q <= H) by (apply Z.mul_div_le; lia).
  assert (HT : H * W < 2 ^ 62) by nia.
  assert (HP : 0 <= q * W) by (apply Z.mul_nonneg_nonneg; lia).
  assert (HPT : 4 * (q * W) <= H * W).
  { rewrite Z.mul_assoc. apply Z.mul_le_mono_nonneg_r; lia. }
  pose proof (differing_bounds b c (grid 0 W 0 q)) as B0.
  pose proof (differing_bounds b c (grid 0 W q (2 * q))) as B1.
  pose proof (differing_bounds b c (grid 0 W (2 * q) (3 * q))) as B2.
  rewrite length_grid in B0, B1, B2 by lia.
  unfold fullPass. cbn [fold_left].
  destruct (fullWorker_spec 0 0 0 q (image.NewRGBA bounds))
    as (img0 & E0 & R0 & I0 & O0);
    [lia | lia | cbn [Z.eqb Pos.eqb]; lia | reflexivity | lia | unfold max_int; lia |].
  rewrite E0.
  destruct (fullWorker_spec 1 (0 + differing b c (grid 0 W 0 q)) q (2 * q) img0)
    as (img1 & E1 & R1 & I1 & O1);
    [lia | lia | cbn [Z.eqb Pos.eqb]; lia | exact R0 | lia | unfold max_int; lia |].
  rewrite E1.
  destruct (fullWorker_spec 2
              (0 + differing b c (grid 0 W 0 q) + differing b c (grid 0 W q (2 * q)))
              (2 * q) (3 * q) img1)
    as (img2 & E2 & R2 & I2 & O2);
    [lia | lia | cbn [Z.eqb Pos.eqb]; lia | exact R1 | lia | unfold max_int; lia |].
  rewrite E2.
  destruct (fullWorker_spec 3
              (0 + differing b c (grid 0 W 0 q) + differing b c (grid 0 W q (2 * q))
               + differing b c (grid 0 W (2 * q) (3 * q)))
              (3 * q) H img2)
    as (img3 & E3 & R3 & I3 & O3);
    [lia | lia | reflexivity | exact R2 | lia | unfold max_int; lia |].
  rewrite E3.
  exists img3. split; [|split; [exact R3|split]].
  - f_equal. rewrite (pixelsOf_png bounds bounds_png).
    rewrite (grid_app 0 W 0 (3 * q) H) by lia.
    rewrite (grid_app 0 W 0 (2 * q) (3 * q)) by lia.
    rewrite (grid_app 0 W 0 q (2 * q)) by lia.
    rewrite !differing_app. lia.
  - intros x y Hx Hy.
    destruct (Z_lt_le_dec y (3 * q)); [|apply I3; lia].
    rewrite O3 by lia.
    destruct (Z_lt_le_dec y (2 * q)); [|apply I2; lia].
    rewrite O2 by lia.
    destruct (Z_lt_le_dec y q); [|apply I1; lia].
    rewrite O1 by lia. apply I0; lia.
  - intros x y Hn.
    rewrite O3, O2, O1, O0 by lia. reflexivity.
Qed.

(** The loops of the earlier runners count the same pixels. *)
Lemma Legacy_countRow_spec (fuel : nat) (y x d : Z) :
  0 <= x <= W -> (Z.to_nat (W - x) <= fuel)%nat ->
  0 <= d -> d + (W - x) <= max_int ->
  Legacy.countRow b c bounds fuel y x d = d + differing b c (rowOf x W y).
Proof.
  revert x d. induction fuel as [|k IH]; intros x d Hx Hfuel Hd Hmax.
  - rewrite rowOf_nil by lia. unfold differing. cbn. lia.
  - cbn [Legacy.countRow]. destruct (Z.ltb_spec x W) as [Hlt|Hge].
    + rewrite (rowOf_cons x W y), differing_cons by lia.
      unfold differsAt at 1. cbn [fst snd].
      destruct (negb (colorsEqual _ _)).
      * rewrite wrap64_small by (unfold max_int in *; lia).
        rewrite IH by lia. lia.
      * rewrite IH by lia. lia.
    + rewrite rowOf_nil by lia. unfold differing. cbn. lia.
Qed.

Lemma Legacy_countRows_spec (fuel : nat) (y d : Z) :
  0 <= y <= H -> (Z.to_nat (H - y) <= fuel)%nat ->
  0 <= d -> d + (H - y) * W <= max_int ->
  Legacy.countRows b c bounds fuel y d = d + differing b c (grid 0 W y H).
Proof.
  destruct bounds_png as (Hmin & HW & HH).
  revert y d. induction fuel as [|k IH]; intros y d Hy Hfuel Hd Hmax.
  - rewrite grid_nil by lia. unfold differing. cbn. lia.
  - cbn [Legacy.countRows]. destruct (Z.ltb_spec y H) as [Hlt|Hge].
    + rewrite (png_bounds_Dx bounds bounds_png), Hmin. cbn [image.X].
      assert (Hmore : 0 <= (H - y - 1) * W) by (apply Z.mul_nonneg_nonneg; lia).
      rewrite Legacy_countRow_spec by lia.
      pose proof (differing_bounds b c (rowOf 0 W y)) as Hb.
      rewrite length_rowOf in Hb by lia.
      rewrite IH by lia.
      rewrite (grid_cons 0 W y H), differing_app by lia. lia.
    + rewrite grid_nil by lia. unfold differing. cbn. lia.
Qed.

End FullPassWorkers.

Lemma in_grid (x0 x1 y0 y1 x y : Z) :
  In (x, y) (grid x0 x1 y0 y1) <-> x0 <= x < x1 /\ y0 <= y < y1.
Proof.
  unfold grid, rowOf. rewrite in_flat_map. split.
  - intros (y' & Hy & Hx). apply in_map_iff in Hx as (x' & [= <- <-] & Hx).
    apply list_elem_of_In, elem_of_seqZ in Hy, Hx. lia.
  - intros [Hx Hy]. exists y. split.
    + apply list_elem_of_In, elem_of_seqZ. lia.
    + apply in_map_iff. exists x. split; [reflexivity|].
      apply list_elem_of_In, elem_of_seqZ. lia.
Qed.

Lemma differing_positive (b c : image.Image) (ps : list (Z * Z)) (p : Z * Z) :
  In p ps -> differsAt b c p = true -> 1 <= differing b c ps.
Proof.
  intros Hin Hd. unfold differing.
  assert (Hf : In p (List.filter (differsAt b c) ps)) by (apply filter_In; auto).
  destruct (List.filter (differsAt b c) ps); [contradiction | cbn [length]; lia].
Qed.

Section FullPassTheorems.

Context {lib : GoLib}.

(** X15. The full pass of the comparison, on two images of the bounds of
    a decoded PNG. Its four workers together count exactly the pixels of
    the rectangle at which the two images differ in some channel, and the
    diff image they paint has the bounds of the baseline and shows every
    pixel of it: red and opaque where the images differ, the gray level of
    the baseline at half opacity where they agree. No row is left out or
    counted twice, whatever the height is modulo four. *)
Theorem full_pass_marks_differing_pixels (b c : image.Image) (bounds : image.Rectangle) :
  png_bounds bounds ->
  let differentPixels := (fullPass b c bounds).1 in
  let diffImg := (fullPass b c bounds).2 in
  differentPixels = differing b c (pixelsOf bounds) /\
  0 <= differentPixels <= image.Dx bounds * image.Dy bounds /\
  image.RGBA_Rect diffImg = bounds /\
  (forall x y,
     image.Pix diffImg !! (x, y)
     = if image.In x y bounds then Some (diffColor b c x y) else None).
Proof.
  intros Hpng differentPixels diffImg.
  destruct (fullPass_spec b c bounds Hpng) as (img & E & Hrect & Hin & Hout).
  subst differentPixels diffImg. rewrite E. cbn [fst snd].
  split; [reflexivity|]. split; [|split; [exact Hrect|]].
  - pose proof (differing_bounds b c (pixelsOf bounds)) as Hb.
    rewrite (pixelsOf_png bounds Hpng) in *.
    rewrite (png_bounds_Dx bounds Hpng), (png_bounds_Dy bounds Hpng).
    destruct Hpng as (_ & HW & HH).
    rewrite length_grid in Hb by lia. lia.
  - intros x y. destruct (image.In x y bounds) eqn:Ein.
    + apply (png_bounds_In bounds Hpng) in Ein as [Hx Hy]. now apply Hin.
    + apply Hout. intros Hxy. apply (png_bounds_In bounds Hpng) in Hxy. congruence.
Qed.

(** What the earlier comparison returns for two images of the same bounds. *)
Lemma Legacy_compareImages_decoded (baseline current : list byte) (b c : image.Image) :
  png_Decode baseline = inl b -> png_Decode current = inl c ->
  image.Bounds b = image.Bounds c ->
  Legacy.compareImages baseline current
  = (PrimFloat.div (float64_of_int (differing b c (pixelsOf (image.Bounds b))))
                   (float64_of_int (image.Dx (image.Bounds b) * image.Dy (image.Bounds b))),
     None).
Proof.
  intros Hb Hc Hbounds.
  pose proof (png_Decode_bounds _ _ Hb) as Hpng.
  unfold Legacy.compareImages. rewrite Hb, Hc.
  rewrite (proj2 (Rectangle_eqb_eq _ _) Hbounds). cbn [negb].
  rewrite (png_bounds_Dx _ Hpng), (png_bounds_Dy _ Hpng).
  destruct Hpng as (Hmin & HW & HH) eqn:Ep. rewrite Hmin. cbn [image.Y].
  assert (HT : 0 <= image.Y (image.Max (image.Bounds b))
                    * image.X (image.Max (image.Bounds b)) < 2 ^ 62) by nia.
  rewrite (Legacy_countRows_spec b c (image.Bounds b) (conj Hmin (conj HW HH)));
    [|lia|lia|lia|unfold max_int; lia].
  rewrite Z.add_0_l, <- (pixelsOf_png _ (conj Hmin (conj HW HH))).
  rewrite wrap64_small by (unfold max_int; lia).
  reflexivity.
Qed.

(** What the comparison returns when its full pass runs and the diff
    image can be encoded. *)
Lemma compareImages_full (baseline current : list byte) (b c : image.Image)
    (x y : Z) (diffBuf : list byte) :
  png_Decode baseline = inl b -> png_Decode current = inl c ->
  image.Bounds b = image.Bounds c ->
  sampled (image.Bounds b) x y -> image.At b x y <> image.At c x y ->
  png_Encode (fullPass b c (image.Bounds b)).2 = inl diffBuf ->
  compareImages baseline current
  = (PrimFloat.div (float64_of_int (differing b c (pixelsOf (image.Bounds b))))
                   (float64_of_int (image.Dx (image.Bounds b) * image.Dy (image.Bounds b))),
     bytes.Buffer_Bytes diffBuf, None).
Proof.
  intros Hb Hc Hbounds Hs Hne Henc.
  pose proof (png_Decode_bounds _ _ Hb) as Hpng.
  assert (Hbytes : baseline <> current).
  { intros ->. rewrite Hb in Hc. injection Hc as ->. contradiction. }
  rewrite (compareImages_decoded _ _ b c Hb Hc Hbytes).
  rewrite (proj2 (Rectangle_eqb_eq _ _) Hbounds). cbn [negb].
  assert (Hneeds : needsDiff b c (image.Bounds b) = true).
  { apply (needsDiff_spec b c _ Hpng). exists x, y. split; [exact Hs|].
    destruct (colorsEqual _ _) eqn:E; [|reflexivity].
    apply colorsEqual_eq in E. contradiction. }
  rewrite Hneeds. cbn [negb]. unfold fullComparison.
  destruct (fullPass_spec b c _ Hpng) as (img & E & _).
  rewrite E in Henc |- *. cbn [snd] in Henc. rewrite Henc.
  rewrite (png_bounds_Dx _ Hpng), (png_bounds_Dy _ Hpng).
  destruct Hpng as (Hmin & HW & HH).
  rewrite wrap64_small by (unfold max_int; nia).
  reflexivity.
Qed.

(** X16. The difference that [compareImages] reports after its full pass.
    When both inputs decode to images of the same bounds, some sampled
    pixel differs and the diff image can be encoded, the result is the
    number of pixels that differ divided by the number of pixels, both as
    [float64], together with the encoded diff image and no error; at least
    one pixel is counted. *)
Theorem full_comparison_ratio (baseline current : list byte) (b c : image.Image)
    (x y : Z) (diffBuf : list byte) :
  png_Decode baseline = inl b -> png_Decode current = inl c ->
  image.Bounds b = image.Bounds c ->
  sampled (image.Bounds b) x y -> image.At b x y <> image.At c x y ->
  png_Encode (fullPass b c (image.Bounds b)).2 = inl diffBuf ->
  let differentPixels := differing b c (pixelsOf (image.Bounds b)) in
  let totalPixels := image.Dx (image.Bounds b) * image.Dy (image.Bounds b) in
  compareImages baseline current
  = (PrimFloat.div (float64_of_int differentPixels) (float64_of_int totalPixels),
     bytes.Buffer_Bytes diffBuf, None) /\
  1 <= differentPixels <= totalPixels.
Proof.
  intros Hb Hc Hbounds Hs Hne Henc differentPixels totalPixels.
  split; [now apply (compareImages_full _ _ b c x y)|].
  pose proof (png_Decode_bounds _ _ Hb) as Hpng.
  subst differentPixels totalPixels.
  split.
  - apply (differing_positive b c _ (x, y)).
    + destruct Hs as (i & j & Hi & Hj & Hx & Hy & Hx' & Hy').
      unfold pixelsOf. apply in_grid. lia.
    + unfold differsAt. cbn [fst snd].
      destruct (colorsEqual _ _) eqn:E; [|reflexivity].
      apply colorsEqual_eq in E. contradiction.
  - pose proof (differing_bounds b c (pixelsOf (image.Bounds b))) as Hd.
    rewrite (pixelsOf_png _ Hpng) in *.
    rewrite (png_bounds_Dx _ Hpng), (png_bounds_Dy _ Hpng).
    destruct Hpng as (_ & HW & HH).
    rewrite length_grid in Hd by lia. lia.
Qed.

(** X17. The comparison of this runner against that of the earlier
    runners, which count every pixel in one pass, on inputs that decode.
    For images of different bounds both report 1.0. For images of the same
    bounds the earlier comparison reports the number of differing pixels
    over the number of pixels, and whenever this runner's comparison makes
    a diff image it reports that very difference. The two differ only
    where this runner returns early: on identical bytes and on images
    whose sampled pixels all agree it reports 0 without counting. *)
Theorem comparison_agrees_with_earlier_runners (baseline current : list byte)
    (b c : image.Image) :
  png_Decode baseline = inl b -> png_Decode current = inl c ->
  (image.Bounds b <> image.Bounds c ->
   compareImages baseline current = (1%float, None, None) /\
   Legacy.compareImages baseline current = (1%float, None)) /\
  (image.Bounds b = image.Bounds c ->
   Legacy.compareImages baseline current
   = (PrimFloat.div (float64_of_int (differing b c (pixelsOf (image.Bounds b))))
                    (float64_of_int (image.Dx (image.Bounds b) * image.Dy (image.Bounds b))),
      None)) /\
  (forall diff diffImage,
     compareImages baseline current = (diff, Some diffImage, None) ->
     Legacy.compareImages baseline current = (diff, None)) /\
  (compareImages baseline current = (0%float, None, None) \/
   compareImages baseline current = (1%float, None, None) \/
   compareImages baseline current = fullComparison b c).
Proof.
  intros Hb Hc.
  pose proof (png_Decode_bounds _ _ Hb) as Hpng.
  assert (Hcases : compareImages baseline current = (0%float, None, None) \/
                   compareImages baseline current = (1%float, None, None) \/
                   (compareImages baseline current = fullComparison b c /\
                    baseline <> current /\ image.Bounds b = image.Bounds c /\
                    needsDiff b c (image.Bounds b) = true)).
  { unfold compareImages at 1 2 3. rewrite Hb, Hc.
    destruct (bytes.Equal baseline current) eqn:Eb; [now left|].
    destruct (image.Rectangle_eqb _ _) eqn:Er; cbn [negb]; [|now right; left].
    destruct (needsDiff _ _ _) eqn:En; cbn [negb]; [|now left].
    right; right. split; [reflexivity|]. split.
    - intros ->. now rewrite (proj2 (bytes_Equal_eq _ _) eq_refl) in Eb.
    - split; [now apply Rectangle_eqb_eq | reflexivity]. }
  split; [|split; [|split]].
  - intros Hne. split; [now apply (compareImages_bounds_differ _ _ b c)|].
    unfold Legacy.compareImages. rewrite Hb, Hc.
    destruct (image.Rectangle_eqb _ _) eqn:Er; [|reflexivity].
    apply Rectangle_eqb_eq in Er. contradiction.
  - now apply Legacy_compareImages_decoded.
  - intros diff diffImage E.
    destruct Hcases as [E0 | [E1 | (Ef & Hbytes & Hbounds & Hneeds)]];
      [congruence | congruence |].
    rewrite (Legacy_compareImages_decoded _ _ b c Hb Hc Hbounds).
    rewrite Ef in E. unfold fullComparison in E.
    destruct (fullPass_spec b c _ Hpng) as (img & Epass & _).
    rewrite Epass in E.
    destruct (png_Encode img) as [diffBuf|err]; [|discriminate].
    rewrite (png_bounds_Dx _ Hpng), (png_bounds_Dy _ Hpng) in *.
    destruct Hpng as (Hmin & HW & HH).
    rewrite wrap64_small in E by (unfold max_int; nia).
    now injection E as <- _.
  - destruct Hcases as [E0 | [E1 | (Ef & _)]]; auto.
Qed.

End FullPassTheorems.

Lemma full_pass_marks_differing_pixels_witness :
  let b := stubImage [x02; x01; x00; x05] in
  let c := stubImage [x02; x01; x01; x05] in
  png_bounds (image.Bounds b) /\
  (fullPass b c (image.Bounds b)).1 = differing b c (pixelsOf (image.Bounds b)) /\
  differing b c (pixelsOf (image.Bounds b)) = 1.
Proof.
  assert (Hpng : png_bounds (image.Bounds (stubImage [x02; x01; x00; x05]))).
  { unfold png_bounds. cbn. repeat split; lia. }
  split; [exact Hpng|]. split; [|reflexivity].
  exact (proj1 (full_pass_marks_differing_pixels
                  (stubImage [x02; x01; x00; x05]) (stubImage [x02; x01; x01; x05])
                  _ Hpng)).
Defined.

Lemma full_comparison_ratio_witness :
  compareImages [x02; x01; x00; x05] [x02; x01; x01; x05]
  = (PrimFloat.div (float64_of_int 1) (float64_of_int 2), Some [x02; x01], None).
Proof.
  refine (proj1 (full_comparison_ratio [x02; x01; x00; x05] [x02; x01; x01; x05]
                   (stubImage [x02; x01; x00; x05]) (stubImage [x02; x01; x01; x05])
                   0 0 [x02; x01] eq_refl eq_refl eq_refl _ _ eq_refl)).
  - exists 0, 0. vm_compute. repeat split; (reflexivity || discriminate).
  - vm_compute. discriminate.
Defined.

Lemma comparison_agrees_with_earlier_runners_witness :
  Legacy.compareImages [x02; x01; x00; x05] [x02; x01; x01; x05] = (0.5%float, None).
Proof.
  refine (proj1 (proj2 (proj2 (comparison_agrees_with_earlier_runners
                   [x02; x01; x00; x05] [x02; x01; x01; x05]
                   (stubImage [x02; x01; x00; x05]) (stubImage [x02; x01; x01; x05])
                   eq_refl eq_refl))) 0.5%float [x02; x01] _).
  vm_compute. reflexivity.
Defined.

(** ** The page tester *)

Section PageTesterTheorems.

Context {B : Type}.
Variable Do : forall A : Type, chromedp.Action A -> Z -> B -> B * (A + error).

Lemma invoke_failed (c : call) (pt : PageTester.t) (b : B) :
  TestResult.Error (PageTester.result pt) <> None -> invoke Do c pt b = (pt, b).
Proof.
  intros Hne.
  destruct c; cbn [invoke];
    unfold PageTester.Navigate, PageTester.Click, PageTester.Type_, PageTester.WaitFor,
      PageTester.AssertText, PageTester.AssertTextVisible;
    now destruct (TestResult.Error (PageTester.result pt)).
Qed.

Lemma chain_failed (calls : list call) (pt : PageTester.t) (b : B) :
  TestResult.Error (PageTester.result pt) <> None -> chain Do calls pt b = (pt, b).
Proof.
  intros Hne. unfold chain. induction calls as [|c calls IH]; [reflexivity|].
  cbn [fold_left]. now rewrite invoke_failed.
Qed.

Lemma chain_app (pre post : list call) (pt : PageTester.t) (b : B) :
  chain Do (pre ++ post) pt b
  = chain Do post (chain Do pre pt b).1 (chain Do pre pt b).2.
Proof.
  unfold chain. rewrite fold_left_app.
  now destruct (fold_left _ pre (pt, b)).
Qed.

(** No method but [Result] writes to the fields of the result other than
    [Error]. *)
Lemma invoke_fields (c : call) (pt : PageTester.t) (b : B) :
  let pt' := (invoke Do c pt b).1 in
  PageTester.with_Error pt' None = PageTester.with_Error pt None.
Proof.
  destruct c; cbn [invoke];
    unfold PageTester.Navigate, PageTester.Click, PageTester.Type_, PageTester.WaitFor,
      PageTester.AssertText, PageTester.AssertTextVisible;
    destruct (TestResult.Error (PageTester.result pt)); try reflexivity;
    destruct (Do _ _ _ _) as [b' [a|err]]; try reflexivity;
    now destruct (negb _).
Qed.

Lemma chain_fields (calls : list call) (pt : PageTester.t) (b : B) :
  PageTester.with_Error (chain Do calls pt b).1 None = PageTester.with_Error pt None.
Proof.
  revert pt b. unfold chain.
  induction calls as [|c calls IH]; intros pt b; [reflexivity|].
  cbn [fold_left]. pose proof (invoke_fields c pt b) as E.
  destruct (invoke Do c pt b) as [pt1 b1]. cbn in E. now rewrite IH.
Qed.

(** X18. A page tester keeps the first error. Once a call of a chain has
    failed, every later call returns at once, without running its action:
    the tester and the browser stay as the failing call left them, and
    [Result] hands out that error with [Passed] false. For any chain of
    calls on a new tester, [Result] has [Passed] true exactly when no call
    has left an error, and the other fields of the result are never
    written. *)
Theorem page_tester_keeps_first_error (timeout : Z) (b : B) (pre post : list call)
    (c : call) (e : error) :
  let before := chain Do pre (PageTester.NewPageTester timeout) b in
  let failed := invoke Do c before.1 before.2 in
  TestResult.Error (PageTester.result failed.1) = Some e ->
  chain Do (pre ++ c :: post) (PageTester.NewPageTester timeout) b = failed /\
  (PageTester.Result failed.1).2 = TestResult.mk "" false (Some e) 0 [] /\
  (forall calls,
     let pt := (chain Do calls (PageTester.NewPageTester timeout) b).1 in
     (PageTester.Result pt).2
     = TestResult.mk ""
         match TestResult.Error (PageTester.result pt) with
         | None => true
         | Some _ => false
         end
         (TestResult.Error (PageTester.result pt)) 0 []).
Proof.
  intros before failed He.
  assert (Hall : forall calls,
            let pt := (chain Do calls (PageTester.NewPageTester timeout) b).1 in
            (PageTester.Result pt).2
            = TestResult.mk ""
                match TestResult.Error (PageTester.result pt) with
                | None => true
                | Some _ => false
                end
                (TestResult.Error (PageTester.result pt)) 0 []).
  { intros calls pt.
    pose proof (chain_fields calls (PageTester.NewPageTester timeout) b) as E.
    fold pt in E. unfold PageTester.with_Error in E. cbn in E.
    injection E as En Ep Ed Ee _.
    unfold PageTester.Result.
    destruct pt as [[name passed err duration errors] t]. cbn in *. subst.
    now destruct err. }
  split; [|split; [|exact Hall]].
  - rewrite chain_app. fold before. unfold chain at 1. cbn [fold_left].
    fold failed. destruct failed as [pt2 b2] eqn:Ef. cbn in He.
    apply chain_failed. now rewrite He.
  - specialize (Hall (pre ++ [c])). cbn zeta in Hall.
    rewrite chain_app in Hall. fold before in Hall.
    change (chain Do [c] before.1 before.2) with failed in Hall.
    now rewrite Hall, He.
Qed.

End PageTesterTheorems.

Lemma page_tester_keeps_first_error_witness :
  chain stubDo
    [CallNavigate "about:blank"; CallClick "#missing"; CallClick "#ok"]
    (PageTester.NewPageTester 1000) (browser stubWorld)
  = (PageTester.mk (TestResult.mk "" true (Some Stub.deadlineExceeded) 0 []) 1000,
     Stub.tick (Stub.tick (browser stubWorld))).
Proof.
  refine (proj1 (page_tester_keeps_first_error stubDo 1000 (browser stubWorld)
                   [CallNavigate "about:blank"] [CallClick "#ok"] (CallClick "#missing")
                   Stub.deadlineExceeded _)).
  reflexivity.
Defined.

(** ** What is kept while [Run] runs *)

Lemma Permutation_move {A : Type} (x : A) (l1 l2 : list A) :
  Permutation (l1 ++ x :: l2) (x :: l1 ++ l2).
Proof. symmetry. apply Permutation_middle. Qed.

Lemma sending_all_exited (ws : list Pool.worker) :
  Forall (fun x => x = Pool.Exited) ws -> flat_map sending ws = [].
Proof. induction 1 as [|x ws -> _ IH]; [reflexivity | exact IH]. Qed.

Section PoolResources.

Context {lib : GoLib} {B : Type} {chrome : Browser B}.

Variable capacity : nat.

(** A property of the tests still to be run, the results there are, the
    runner and the world, that does not depend on where the tests and the
    results are, that is kept when a test is run and becomes its result,
    and that, once there is a result, does not look at [r.results] but
    through the results given. *)
Variable J : list Test.t -> list TestResult.t -> Runner -> World B -> Prop.

Hypothesis J_perm : forall l l' rs rs' r w,
  Permutation l l' -> Permutation rs rs' -> J l rs r w -> J l' rs' r w.
Hypothesis J_run : forall l rs r w test,
  J (test :: l) rs r w ->
  J l ((runTest r w test).2 :: rs) (runTest r w test).1.1 (runTest r w test).1.2.
Hypothesis J_results : forall l rs r w result x,
  J l (result :: rs) r w -> J l (result :: rs) (Pool.with_results r x) w.

Lemma step_resources (s s' : Pool.state B) :
  Pool.step capacity s s' ->
  J (pendingTests s) (producedResults s) (Pool.runner s) (Pool.world s) ->
  J (pendingTests s') (producedResults s') (Pool.runner s') (Pool.world s').
Proof.
  intros Hstep. destruct Hstep; unfold pendingTests, producedResults; cbn;
    rewrite ?flat_map_app; cbn; intros HJ; try exact HJ.
  - (* feed *)
    eapply J_perm; [| reflexivity | exact HJ].
    replace (rest ++ (tc ++ [test]) ++ flat_map running ws)
      with ((rest ++ tc) ++ test :: flat_map running ws)
      by (now rewrite <- !app_assoc).
    apply Permutation_cons_app. now rewrite <- app_assoc.
  - (* receive *)
    eapply J_perm; [| reflexivity | exact HJ].
    apply Permutation_app_head.
    replace (tc ++ flat_map running ws1 ++ test :: flat_map running ws2)
      with ((tc ++ flat_map running ws1) ++ test :: flat_map running ws2)
      by (now rewrite <- !app_assoc).
    apply Permutation_cons_app. now rewrite <- app_assoc.
  - (* run *)
    destruct (runTest_frame r w test) as (_ & Hres & _).
    pose proof (J_run (match m with Pool.Feeding rest => rest | _ => [] end ++
                       tc ++ flat_map running ws1 ++ flat_map running ws2)
                      ((flat_map sending ws1 ++ flat_map sending ws2) ++ rc ++ results r)
                      r w test) as Hrun.
    rewrite H in Hrun, Hres. cbn [fst snd] in Hrun, Hres. rewrite Hres.
    eapply J_perm; [reflexivity | | apply Hrun].
    + rewrite <- !app_assoc. apply Permutation_cons_app. reflexivity.
    + eapply J_perm; [| reflexivity | exact HJ].
      symmetry.
      replace (match m with Pool.Feeding rest => rest | _ => [] end ++
               tc ++ flat_map running ws1 ++ test :: flat_map running ws2)
        with ((match m with Pool.Feeding rest => rest | _ => [] end ++
               tc ++ flat_map running ws1) ++ test :: flat_map running ws2)
        by (now rewrite <- !app_assoc).
      apply Permutation_cons_app. now rewrite <- !app_assoc.
  - (* send *)
    eapply J_perm; [reflexivity | | exact HJ].
    transitivity (result :: flat_map sending ws1 ++ flat_map sending ws2 ++ rc ++ results r).
    + rewrite <- !app_assoc. cbn [app]. symmetry. apply Permutation_cons_app. reflexivity.
    + replace ((flat_map sending ws1 ++ flat_map sending ws2) ++ (rc ++ [result]) ++ results r)
        with ((flat_map sending ws1 ++ flat_map sending ws2 ++ rc) ++ result :: results r)
        by (now rewrite <- !app_assoc).
      apply Permutation_cons_app. now rewrite <- !app_assoc.
  - (* collect *)
    eapply (J_perm _ _ (result :: flat_map sending ws ++ rc ++ results r));
      [reflexivity | |].
    + replace (flat_map sending ws ++ rc ++ results r ++ [result])
        with ((flat_map sending ws ++ rc ++ results r) ++ [result])
        by (now rewrite <- !app_assoc).
      apply Permutation_cons_app. now rewrite app_nil_r.
    + apply J_results.
      eapply J_perm; [reflexivity | | exact HJ].
      symmetry. apply Permutation_cons_app. reflexivity.
Qed.

Lemma rtc_resources (s s' : Pool.state B) :
  rtc (Pool.step capacity) s s' ->
  J (pendingTests s) (producedResults s) (Pool.runner s) (Pool.world s) ->
  J (pendingTests s') (producedResults s') (Pool.runner s') (Pool.world s').
Proof. induction 1; eauto using step_resources. Qed.

End PoolResources.

Lemma running_all_exited (ws : list Pool.worker) :
  Forall (fun x => x = Pool.Exited) ws -> flat_map running ws = [].
Proof. induction 1 as [|x ws -> _ IH]; [reflexivity | exact IH]. Qed.

Lemma running_receiving (n : nat) : flat_map running (replicate n Pool.Receiving) = [].
Proof. induction n; [reflexivity | assumption]. Qed.

Lemma sending_receiving (n : nat) : flat_map sending (replicate n Pool.Receiving) = [].
Proof. induction n; [reflexivity | assumption]. Qed.

(** When [Run] has returned, no test is left and every result is in
    [r.results]. *)
Lemma returned_resources {B : Type} (n : nat) (names : list string) (s : Pool.state B) :
  (1 <= n)%nat -> invariant n names s -> Pool.main s = Pool.Returned ->
  pendingTests s = [] /\ producedResults s = results (Pool.runner s).
Proof.
  intros Hn [Ha Hc He Hr Hret Hw] Hm.
  destruct (Hret Hm) as [Hrc Hrcc]. specialize (Hr Hrcc).
  assert (In Pool.Exited (Pool.workers s)) as Hin.
  { destruct (Pool.workers s) as [|x ws]; [cbn in Hw; lia|].
    inversion Hr; subst. now left. }
  destruct (He Hin) as [Htc _].
  unfold pendingTests, producedResults.
  now rewrite Hm, Htc, Hrc, (running_all_exited _ Hr), (sending_all_exited _ Hr).
Qed.

Section RunTheorems.

Context {lib : GoLib} {B : Type} {chrome : Browser B}.

(** X19. [Run] on a runner that was not started. Every test gets the
    result that has its name, [Passed] false and the error "browser not
    started"; [Run] returns these results, one for each test, in some
    order; and at no moment of the run has the browser or the disk been
    touched. *)
Theorem run_before_start (r : Runner) (w : World B) (s : Pool.state B) :
  allocCtx r = false ->
  rtc (Pool.Run_step r) (Pool.Run_start r w) s ->
  Pool.world s = w /\
  (forall result, In result (producedResults s) -> exists test,
     In test (tests r) /\ result = notStarted test) /\
  (Pool.main s = Pool.Returned ->
   Permutation (results (Pool.runner s)) (map notStarted (tests r))).
Proof.
  intros Halloc Hs.
  set (J := fun (l : list Test.t) (rs : list TestResult.t) (r' : Runner) (w' : World B) =>
              allocCtx r' = false /\ w' = w /\
              Permutation (map notStarted l ++ rs) (map notStarted (tests r))).
  assert (HJ : J (pendingTests s) (producedResults s) (Pool.runner s) (Pool.world s)).
  { refine (rtc_resources (length (tests r)) J _ _ _ _ _ Hs _).
    - intros l l' rs rs' r' w' Hl Hrs (Ha & Hw & Hp). repeat split; trivial.
      now rewrite <- Hl, <- Hrs.
    - intros l rs r' w' test (Ha & -> & Hp). unfold runTest. rewrite Ha. cbn.
      repeat split; trivial.
      rewrite <- Hp. fold (notStarted test). cbn [map].
      symmetry. apply Permutation_middle.
    - intros l rs r' w' result x (Ha & Hw & Hp). now repeat split.
    - unfold Pool.Run_start, Pool.init, pendingTests, producedResults. cbn.
      rewrite ?running_receiving, ?sending_receiving. cbn.
      repeat split; trivial. now rewrite !app_nil_r. }
  destruct HJ as (_ & Hw & Hp).
  split; [exact Hw|]. split.
  - intros result Hin.
    assert (Hin' : In result (map notStarted (tests r))).
    { apply (Permutation_in _ Hp). apply in_or_app. now right. }
    apply in_map_iff in Hin' as (test & <- & Ht). eauto.
  - intros Hm.
    assert (Hinv : invariant Pool.numWorkers (map Test.Name (tests r)) s).
    { eapply rtc_invariant; [apply init_invariant | exact Hs]. }
    assert (Hn : (1 <= Pool.numWorkers)%nat) by (unfold Pool.numWorkers; lia).
    destruct (returned_resources _ _ s Hn Hinv Hm) as [Hpend Hprod].
    now rewrite Hpend, Hprod in Hp.
Qed.

End RunTheorems.

Lemma run_before_start_witness :
  Pool.world (Pool.Run_start (AddTest (NewRunner None) clickNoisy) stubWorld) = stubWorld.
Proof.
  exact (proj1 (run_before_start (AddTest (NewRunner None) clickNoisy) stubWorld _
                  eq_refl (rtc_refl _ _))).
Defined.

(** ** The test builder *)

Lemma with_results_results (r : Runner) (r0 : Runner) (rs : list TestResult.t) :
  Pool.with_results r [] = Pool.with_results r0 [] -> results r = rs ->
  r = Pool.with_results r0 rs.
Proof.
  destruct r, r0. unfold Pool.with_results. cbn. intros [= -> -> -> -> ->] ->.
  reflexivity.
Qed.

Section BuilderTheorems.

Context {lib : GoLib} {B : Type} {chrome : Browser B}.

(** X20. [TestBuilder.Run]. The call returns, and what it returns is the
    head of the results of the runner, which has one result for each test
    of the runner: the branch that makes up a failed result with
    [ErrNoTestResults] is never taken, and the result has the name of one
    of the tests of the runner. On a runner with no other test the result
    is the one [runTest] gives for the builder's test, run from the runner
    and the world as they were, and the runner is left with that one
    result. *)
Theorem builder_run_returns_a_result (r : Runner) (w : World B) (tb : TestBuilder.t) :
  (exists result r' w', TestBuilder.Run r w tb result r' w') /\
  (forall result r' w', TestBuilder.Run r w tb result r' w' ->
     length (results r') = S (length (tests r)) /\
     (exists rest, results r' = result :: rest) /\
     exists test, In test (tests r ++ [tb]) /\ TestResult.Name result = Test.Name test) /\
  (tests r = [] ->
   forall result r' w', TestBuilder.Run r w tb result r' w' ->
     let ran := runTest (Pool.with_results (AddTest r tb) []) w tb in
     result = ran.2 /\ w' = ran.1.2 /\ r' = Pool.with_results ran.1.1 [result]).
Proof.
  set (r1 := AddTest r tb).
  assert (Hn : (1 <= Pool.numWorkers)%nat) by (unfold Pool.numWorkers; lia).
  assert (Hinv : forall s, rtc (Pool.Run_step r1) (Pool.Run_start r1 w) s ->
                   invariant Pool.numWorkers (map Test.Name (tests r1)) s).
  { intros s Hs. eapply rtc_invariant; [apply init_invariant | exact Hs]. }
  assert (Hresults : forall s, rtc (Pool.Run_step r1) (Pool.Run_start r1 w) s ->
            Pool.main s = Pool.Returned ->
            Permutation (map TestResult.Name (results (Pool.runner s)))
                        (map Test.Name (tests r ++ [tb]))).
  { intros s Hs Hm. eapply invariant_returned; eauto. }
  split; [|split].
  - destruct (runs_to_return (length (tests r1)) Pool.numWorkers
                (map Test.Name (tests r1)) (Pool.weight (Pool.Run_start r1 w))
                (Pool.Run_start r1 w)) as (s & Hs & Hm);
      [apply length_map | lia | apply init_invariant |].
    eexists _, _, _. exists s. repeat split; eauto.
  - intros result r' w' (s & Hs & Hm & -> & -> & ->).
    pose proof (Hresults s Hs Hm) as Hp.
    pose proof (Permutation_length Hp) as Hlen.
    rewrite !length_map, length_app in Hlen. cbn in Hlen.
    split; [lia|].
    destruct (results (Pool.runner s)) as [|first rest] eqn:E; [cbn in Hlen; lia|].
    split; [eauto|].
    assert (Hin : In (TestResult.Name first) (map Test.Name (tests r ++ [tb]))).
    { apply (Permutation_in _ Hp). now left. }
    apply in_map_iff in Hin as (test & Hname & Hin). eauto.
  - intros Hnone result r' w' (s & Hs & Hm & -> & -> & ->) ran.
    set (r0 := Pool.with_results r1 []) in *.
    set (J := fun (l : list Test.t) (rs : list TestResult.t) (r' : Runner) (w' : World B) =>
                (l = [tb] /\ rs = [] /\ r' = r0 /\ w' = w) \/
                (l = [] /\ rs = [ran.2] /\
                 Pool.with_results r' [] = Pool.with_results ran.1.1 [] /\ w' = ran.1.2)).
    assert (HJ : J (pendingTests s) (producedResults s) (Pool.runner s) (Pool.world s)).
    { refine (rtc_resources (length (tests r1)) J _ _ _ _ _ Hs _).
      - intros l l' rs rs' r' w' Hl Hrs [(-> & -> & Hr & Hw) | (-> & -> & Hr & Hw)].
        + left. apply Permutation_length_1_inv in Hl. apply Permutation_nil in Hrs.
          now repeat split.
        + right. apply Permutation_nil in Hl. apply Permutation_length_1_inv in Hrs.
          now repeat split.
      - intros l rs r' w' test [(Hl & -> & -> & ->) | (Hl & _)]; [|discriminate].
        injection Hl as -> ->. right. now repeat split.
      - intros l rs r' w' result' x [(_ & Hrs & _) | (-> & Hrs & Hr & Hw)];
          [discriminate|].
        right. now repeat split.
      - left. unfold Pool.Run_start, Pool.init, pendingTests, producedResults. cbn.
        rewrite Hnone. now repeat split. }
    pose proof (Hresults s Hs Hm) as Hp.
    apply Permutation_length in Hp. rewrite !length_map, Hnone in Hp. cbn in Hp.
    destruct (returned_resources _ _ s Hn (Hinv s Hs) Hm) as [Hpend Hprod].
    rewrite Hpend, Hprod in HJ.
    destruct HJ as [(Hl & _) | (_ & Hrs & Hr & Hw)]; [discriminate|].
    rewrite Hrs. repeat split; [exact Hw|].
    now apply with_results_results.
Qed.

End BuilderTheorems.

(** ** [RunWithProgress] *)

Section ProgressTheorems.

Context {lib : GoLib} {B : Type} {chrome : Browser B}.

Variable capacity : nat.

(** A step of [RunWithProgress] is a step of [Run], or the end of a send. *)
Lemma progress_step_pool (s s' : Progress.state B) :
  Progress.step capacity s s' ->
  Pool.step capacity (Progress.pool s) (Progress.pool s') \/
  Progress.pool s' = Progress.pool s.
Proof.
  intros Hstep. destruct Hstep; cbn; try (now right); left.
  - now apply Pool.step_feed.
  - apply Pool.step_close.
  - apply Pool.step_receive.
  - apply Pool.step_exit.
  - now apply Pool.step_run.
  - now apply Pool.step_send.
  - now apply Pool.step_wait.
  - apply Pool.step_collect.
  - apply Pool.step_return.
Qed.

Lemma progress_rtc_pool (s s' : Progress.state B) :
  rtc (Progress.step capacity) s s' ->
  rtc (Pool.step capacity) (Progress.pool s) (Progress.pool s').
Proof.
  induction 1 as [|s1 s2 s3 Hstep _ IH]; [constructor|].
  destruct (progress_step_pool _ _ Hstep) as [Hp | Hp].
  - econstructor; eassumption.
  - now rewrite <- Hp.
Qed.

(** A step of [Run] that the caller is free to take is a step of
    [RunWithProgress]. *)
Lemma pool_step_progress (p p' : Pool.state B) (f : list TestResult.t) (k : nat) :
  Pool.step capacity p p' ->
  exists s', Progress.step capacity (Progress.mkState p f None k) s'.
Proof.
  intros Hstep. destruct Hstep; eexists.
  - apply Progress.step_feed. eassumption.
  - apply Progress.step_close.
  - apply Progress.step_receive.
  - apply Progress.step_exit.
  - eapply Progress.step_run. eassumption.
  - apply Progress.step_send. eassumption.
  - apply Progress.step_wait. eassumption.
  - apply Progress.step_collect.
  - apply Progress.step_return.
Qed.

Lemma step_forwarding (s s' : Progress.state B) :
  Progress.step capacity s s' -> forwarding s -> forwarding s'.
Proof.
  intros Hstep (Hres & Hwg & Hout).
  destruct Hstep; unfold forwarding in *; cbn in *;
    try match goal with
      | H : runTest ?r ?w ?test = _ |- _ =>
          let Hr := fresh "Hr" in
          destruct (runTest_frame r w test) as (_ & Hr & _);
          rewrite H in Hr; cbn in Hr; rewrite Hr
      end;
    try (repeat split; (assumption || congruence)).
  - rewrite app_nil_r in Hres. rewrite Hres, length_app in *. cbn.
    repeat split; lia.
  - rewrite Hres, app_nil_r. cbn. repeat split; congruence.
Qed.

Lemma rtc_forwarding (s s' : Progress.state B) :
  rtc (Progress.step capacity) s s' -> forwarding s -> forwarding s'.
Proof. induction 1; eauto using step_forwarding. Qed.

Lemma progress_step_weight (s s' : Progress.state B) :
  Progress.step capacity s s' -> (Progress.weight s' < Progress.weight s)%nat.
Proof.
  intros Hstep. unfold Progress.weight.
  destruct Hstep;
    match goal with
    | |- context [Progress.mkState ?p (_ ++ [_]) None _] => cbn; lia
    | |- context [Progress.pool (Progress.mkState ?p _ _ _)] =>
        match goal with
        | |- context [Progress.pool (Progress.mkState ?p' _ _ _) ] =>
            lazymatch p' with
            | p => fail
            | _ =>
                let Hw := fresh "Hw" in
                assert (Hw : Pool.weight p = S (Pool.weight p'))
                  by (apply (step_weight capacity); econstructor; eassumption);
                cbn [Progress.pool Progress.outgoing]; rewrite Hw;
                repeat match goal with |- context [match ?o with _ => _ end] =>
                  destruct o end; lia
            end
        end
    end.
Qed.

End ProgressTheorems.

Section ProgressRuns.

Context {lib : GoLib} {B : Type} {chrome : Browser B}.

Lemma progress_nsteps_weight (capacity k : nat) (s s' : Progress.state B) :
  nsteps (Progress.step capacity) k s s' ->
  (k + Progress.weight s' <= Progress.weight s)%nat.
Proof.
  induction 1 as [|k s1 s2 s3 Hstep _ IH]; [lia|].
  apply progress_step_weight in Hstep. lia.
Qed.

Lemma progress_step_invariant (capacity n : nat) (names : list string)
    (s s' : Progress.state B) :
  Progress.step capacity s s' ->
  invariant n names (Progress.pool s) -> invariant n names (Progress.pool s').
Proof.
  intros Hstep Hinv. destruct (progress_step_pool _ _ _ Hstep) as [Hp | ->];
    [eapply step_invariant; eassumption | exact Hinv].
Qed.

(** Until it has returned, [RunWithProgress] can move, provided that what
    it sends is received. *)
Lemma progress_can_step (capacity n : nat) (names : list string) (s : Progress.state B) :
  length names = capacity -> invariant n names (Progress.pool s) ->
  Pool.main (Progress.pool s) = Pool.Returned \/ exists s', Progress.step capacity s s'.
Proof.
  intros Hcap Hinv. destruct s as [p f [result|] k]; cbn in *.
  - right. eexists. apply Progress.step_forward.
  - destruct (invariant_progress capacity n names p Hcap Hinv) as [Hm | [p' Hstep]];
      [now left | right].
    now apply (pool_step_progress capacity p p').
Qed.

Lemma progress_runs_to_return (capacity n : nat) (names : list string) (k : nat)
    (s : Progress.state B) :
  length names = capacity ->
  (Progress.weight s <= k)%nat -> invariant n names (Progress.pool s) ->
  exists s', rtc (Progress.step capacity) s s' /\
             Pool.main (Progress.pool s') = Pool.Returned.
Proof.
  intros Hcap. revert s. induction k as [|k IH]; intros s Hk Hinv.
  - destruct (progress_can_step capacity n names s Hcap Hinv) as [Hm | [s' Hstep]].
    + exists s. split; [constructor | assumption].
    + apply progress_step_weight in Hstep. lia.
  - destruct (progress_can_step capacity n names s Hcap Hinv) as [Hm | [s' Hstep]].
    + exists s. split; [constructor | assumption].
    + destruct (IH s') as (s'' & Hrtc & Hm).
      * apply progress_step_weight in Hstep. lia.
      * eapply progress_step_invariant; eassumption.
      * exists s''. split; [econstructor; eassumption | assumption].
Qed.

(** X21. [RunWithProgress], with at least one worker (the code starts
    four) and whatever the scheduler does. At every moment the results
    collected so far are the results that were received from
    [resultsChan], in that order, followed by the one that is being sent,
    and the wait group was added to once for each of them. The run ends
    within 2 (6 N + n + 3) steps, and until it has returned it can always
    move as long as what it sends is received. When it returns, every one
    of the [N] results it returns has been received from the channel, once
    and in the order of the results returned, and there is one result for
    each test. *)
Theorem run_with_progress_forwards_every_result (n : nat) (r : Runner) (w : World B) :
  (1 <= n)%nat ->
  let N := length (tests r) in
  let start := Progress.init n r w in
  (forall s, rtc (Progress.step N) start s -> forwarding s) /\
  (forall s, rtc (Progress.step N) start s ->
     Pool.main (Progress.pool s) = Pool.Returned ->
     Progress.forwarded s = results (Pool.runner (Progress.pool s)) /\
     Progress.outgoing s = None /\
     Progress.wgAdded s = N /\
     Permutation (map TestResult.Name (Progress.forwarded s)) (map Test.Name (tests r))) /\
  (forall k s, nsteps (Progress.step N) k start s -> (k <= 2 * (6 * N + n + 3))%nat) /\
  (forall s, rtc (Progress.step N) start s ->
     Pool.main (Progress.pool s) = Pool.Returned \/ exists s', Progress.step N s s') /\
  (exists s, rtc (Progress.step N) start s /\
             Pool.main (Progress.pool s) = Pool.Returned).
Proof.
  intros Hn N start.
  assert (Hinv : forall s, rtc (Progress.step N) start s ->
                   invariant n (map Test.Name (tests r)) (Progress.pool s)).
  { intros s Hs. apply progress_rtc_pool in Hs.
    eapply rtc_invariant; [apply init_invariant | exact Hs]. }
  assert (Hfwd : forall s, rtc (Progress.step N) start s -> forwarding s).
  { intros s Hs. apply (rtc_forwarding N start s Hs).
    unfold forwarding, start, Progress.init. cbn. repeat split; congruence. }
  assert (Hw : Progress.weight start = (2 * (6 * N + n + 3))%nat).
  { unfold Progress.weight, start, Progress.init. cbn [Progress.pool Progress.outgoing].
    rewrite init_weight. subst N. lia. }
  split; [exact Hfwd|]. split; [|split; [|split]].
  - intros s Hs Hm. destruct (Hfwd s Hs) as (Hres & Hwg & Hout).
    assert (Hnone : Progress.outgoing s = None).
    { destruct (Progress.outgoing s) as [result|]; [|reflexivity].
      rewrite Hout in Hm by discriminate. discriminate. }
    rewrite Hnone in Hres. cbn in Hres. rewrite app_nil_r in Hres.
    assert (Hp : Permutation (map TestResult.Name (results (Pool.runner (Progress.pool s))))
                             (map Test.Name (tests r))).
    { eapply invariant_returned; eauto. }
    rewrite <- Hres. repeat split; trivial.
    rewrite Hwg. apply Permutation_length in Hp. now rewrite !length_map in Hp.
  - intros k s Hk. apply progress_nsteps_weight in Hk. lia.
  - intros s Hs. eapply progress_can_step; [apply length_map | apply Hinv, Hs].
  - apply (progress_runs_to_return N n (map Test.Name (tests r)) (Progress.weight start));
      [apply length_map | lia | apply init_invariant].
Qed.

End ProgressRuns.

Lemma run_with_progress_forwards_every_result_witness :
  let r := AddTest (AddTest (Start (NewRunner None)) clickNoisy) thirdFails in
  (1 <= Pool.numWorkers)%nat /\
  forall s, rtc (Progress.Run_step r) (Progress.Run_start r stubWorld) s ->
    Pool.main (Progress.pool s) = Pool.Returned ->
    Progress.forwarded s = results (Pool.runner (Progress.pool s)) /\
    Progress.wgAdded s = 2%nat.
Proof.
  intros r.
  assert (Hn : (1 <= Pool.numWorkers)%nat) by (unfold Pool.numWorkers; lia).
  split; [exact Hn|].
  intros s Hs Hm.
  destruct (run_with_progress_forwards_every_result Pool.numWorkers r stubWorld Hn)
    as (_ & Hret & _).
  destruct (Hret s Hs Hm) as (Hf & _ & Hk & _).
  split; [exact Hf | exact Hk].
Defined.

(** ** The configuration of the command line *)

(** What applying a loaded file makes of a configuration, field by field. *)
Lemma applyFile_fields (flags : main.Flags) (fileConfig : config.FileConfig)
    (c : Config.t) :
  main.applyFile flags fileConfig c
  = Config.mk
      match config.Headless fileConfig with
      | Some v => if main.isFlagSet flags "headless" then Config.Headless c else v
      | None => Config.Headless c
      end
      match config.Timeout fileConfig with
      | Some v => if main.isFlagSet flags "timeout" then Config.Timeout c else v
      | None => Config.Timeout c
      end
      match config.FailOnConsoleError fileConfig with
      | Some v =>
          if main.isFlagSet flags "fail-on-console-error"
          then Config.FailOnConsoleError c else v
      | None => Config.FailOnConsoleError c
      end
      (Config.ErrorFilter c)
      (if negb (String.eqb (config.ScreenshotDir fileConfig) "") &&
          String.eqb (main.screenshotDir flags) ""
       then config.ScreenshotDir fileConfig else Config.ScreenshotDir c)
      (if config.UpdateScreenshots fileConfig && negb (main.updateScreenshots flags)
       then config.UpdateScreenshots fileConfig else Config.UpdateScreenshots c)
      (config.ScreenshotThreshold fileConfig)
      (Config.SnapshotDir c) (Config.UpdateSnapshots c).
Proof.
  unfold main.applyFile. destruct c as [h t f ef d u th sd us].
  destruct (config.Headless fileConfig) as [vh|];
    [destruct (main.isFlagSet flags "headless")|];
    (destruct (config.Timeout fileConfig) as [vt|];
      [destruct (main.isFlagSet flags "timeout")|]);
    (destruct (config.FailOnConsoleError fileConfig) as [vf|];
      [destruct (main.isFlagSet flags "fail-on-console-error")|]);
    destruct (negb _ && _); destruct (_ && negb _); reflexivity.
Qed.

(** What the flags for the screenshot directory and the update, and then
    the defaults of [NewRunner], make of a configuration. *)
Lemma flags_then_defaults (c : Config.t) (dir : string) (update : bool) :
  config (NewRunner (Some
    (if update
     then main.setUpdateScreenshots
            (if negb (String.eqb dir "") then main.setScreenshotDir c dir else c) true
     else if negb (String.eqb dir "") then main.setScreenshotDir c dir else c)))
  = Config.mk (Config.Headless c) (Config.Timeout c) (Config.FailOnConsoleError c)
      (Config.ErrorFilter c)
      (if String.eqb dir ""
       then if String.eqb (Config.ScreenshotDir c) "" then "__screenshots__"
            else Config.ScreenshotDir c
       else dir)
      (update || Config.UpdateScreenshots c)
      (Config.ScreenshotThreshold c)
      (if String.eqb (Config.SnapshotDir c) "" then "__snapshots__"
       else Config.SnapshotDir c)
      (Config.UpdateSnapshots c).
Proof.
  destruct c as [h t f ef d u th sd us]. unfold NewRunner.
  destruct update, (String.eqb dir "") eqn:Edir,
    (String.eqb d "") eqn:Ed, (String.eqb sd "") eqn:Esd;
    cbn; rewrite ?Edir, ?Ed, ?Esd; cbn; rewrite ?Esd; reflexivity.
Qed.

Section CommandLine.

Variables yaml_Unmarshal json_Unmarshal : list byte -> config.FileConfig + error.

(** X22. The configuration of the runner that [main] starts, after
    [NewRunner] has filled in its defaults. The snapshot directory is
    always "__snapshots__", there is never an error filter, and the
    screenshot directory is never empty. A flag given on the command line
    wins over the file. Without a file, or with a file that cannot be
    loaded, the flags alone decide. With a file, a flag that was not given
    takes the value of the file when the file has one; the threshold is
    always that of the file; and [UpdateScreenshots] is the flag or the
    file, so the flag cannot switch off what the file switches on. *)
Theorem command_line_configuration (flags : main.Flags) (fs : os.FS) :
  let cfg :=
    config (NewRunner (Some (main.runnerConfig yaml_Unmarshal json_Unmarshal flags fs))) in
  let path :=
    if String.eqb (main.configFile flags) "" then config.FindConfigFile fs
    else main.configFile flags in
  let loaded := config.LoadConfig yaml_Unmarshal json_Unmarshal fs path in
  let dirOr (dir : string) := if String.eqb (main.screenshotDir flags) "" then dir
                              else main.screenshotDir flags in
  (Config.SnapshotDir cfg = "__snapshots__"%string /\
   Config.UpdateSnapshots cfg = false /\
   Config.ErrorFilter cfg = None /\
   Config.ScreenshotDir cfg <> ""%string) /\
  ((main.screenshotDir flags <> ""%string ->
    Config.ScreenshotDir cfg = main.screenshotDir flags) /\
   (main.isFlagSet flags "headless" = true ->
    Config.Headless cfg = main.headless flags) /\
   (main.isFlagSet flags "timeout" = true ->
    Config.Timeout cfg = main.timeout flags) /\
   (main.isFlagSet flags "fail-on-console-error" = true ->
    Config.FailOnConsoleError cfg = main.failOnConsoleError flags) /\
   (main.updateScreenshots flags = true -> Config.UpdateScreenshots cfg = true)) /\
  ((path = ""%string \/ (exists err, loaded = inr err)) ->
   cfg = Config.mk (main.headless flags) (main.timeout flags)
                   (main.failOnConsoleError flags) None (dirOr "__screenshots__")
                   (main.updateScreenshots flags) 0%float "__snapshots__" false) /\
  (forall fileConfig, path <> ""%string -> loaded = inl fileConfig ->
   Config.Headless cfg
   = (if main.isFlagSet flags "headless" then main.headless flags
      else default (main.headless flags) (config.Headless fileConfig)) /\
   Config.Timeout cfg
   = (if main.isFlagSet flags "timeout" then main.timeout flags
      else default (main.timeout flags) (config.Timeout fileConfig)) /\
   Config.FailOnConsoleError cfg
   = (if main.isFlagSet flags "fail-on-console-error" then main.failOnConsoleError flags
      else default (main.failOnConsoleError flags) (config.FailOnConsoleError fileConfig)) /\
   Config.ScreenshotDir cfg
   = dirOr (if String.eqb (config.ScreenshotDir fileConfig) "" then "__screenshots__"
            else config.ScreenshotDir fileConfig) /\
   Config.UpdateScreenshots cfg
   = (main.updateScreenshots flags || config.UpdateScreenshots fileConfig) /\
   Config.ScreenshotThreshold cfg = config.ScreenshotThreshold fileConfig).
Proof.
  intros cfg path loaded dirOr.
  set (base := Config.mk (main.headless flags) (main.timeout flags)
                 (main.failOnConsoleError flags) None "" false 0%float "" false).
  set (mid := if negb (String.eqb path "")
              then match loaded with
                   | inl fileConfig => main.applyFile flags fileConfig base
                   | inr _ => base
                   end
              else base).
  assert (Ecfg : cfg
            = Config.mk (Config.Headless mid) (Config.Timeout mid)
                (Config.FailOnConsoleError mid) (Config.ErrorFilter mid)
                (dirOr (if String.eqb (Config.ScreenshotDir mid) "" then "__screenshots__"
                        else Config.ScreenshotDir mid))
                (main.updateScreenshots flags || Config.UpdateScreenshots mid)
                (Config.ScreenshotThreshold mid)
                (if String.eqb (Config.SnapshotDir mid) "" then "__snapshots__"
                 else Config.SnapshotDir mid)
                (Config.UpdateSnapshots mid)).
  { exact (flags_then_defaults mid (main.screenshotDir flags)
             (main.updateScreenshots flags)). }
  (* the two shapes of the configuration before the last two flags *)
  assert (Hmid : (mid = base /\ (path = ""%string \/ exists err, loaded = inr err)) \/
                 exists fileConfig, path <> ""%string /\ loaded = inl fileConfig /\
                                    mid = main.applyFile flags fileConfig base).
  { unfold mid. destruct (String.eqb_spec path "") as [E|E]; cbn [negb]; [now left; auto|].
    destruct loaded as [fileConfig|err]; [right; eauto | left; eauto]. }
  clearbody cfg mid loaded path.
  assert (Hfixed : Config.ErrorFilter mid = None /\ Config.SnapshotDir mid = ""%string /\
                   Config.UpdateSnapshots mid = false).
  { destruct Hmid as [[E _] | (fileConfig & _ & _ & E)]; rewrite E;
      [now repeat split|].
    rewrite applyFile_fields. now repeat split. }
  destruct Hfixed as (Hef & Hsd & Hus).
  rewrite Ecfg, Hef, Hsd, Hus. clear Ecfg cfg.
  cbn [String.eqb Config.SnapshotDir Config.UpdateSnapshots
    Config.ErrorFilter Config.ScreenshotDir Config.Headless Config.Timeout
    Config.FailOnConsoleError Config.UpdateScreenshots Config.ScreenshotThreshold].
  split; [|split; [|split]].
  - repeat split. subst dirOr. cbn beta.
    destruct (String.eqb_spec (main.screenshotDir flags) ""); [|assumption].
    destruct (String.eqb_spec (Config.ScreenshotDir mid) ""); [discriminate | assumption].
  - split; [|split; [|split; [|split]]].
    + intros Hne. subst dirOr. cbn beta.
      now destruct (String.eqb_spec (main.screenshotDir flags) "").
    + intros Hset. destruct Hmid as [[E _] | (fileConfig & _ & _ & E)]; rewrite E;
        [reflexivity|].
      rewrite applyFile_fields. cbn [Config.Headless]. rewrite Hset.
      now destruct (config.Headless fileConfig).
    + intros Hset. destruct Hmid as [[E _] | (fileConfig & _ & _ & E)]; rewrite E;
        [reflexivity|].
      rewrite applyFile_fields. cbn [Config.Timeout]. rewrite Hset.
      now destruct (config.Timeout fileConfig).
    + intros Hset. destruct Hmid as [[E _] | (fileConfig & _ & _ & E)]; rewrite E;
        [reflexivity|].
      rewrite applyFile_fields. cbn [Config.FailOnConsoleError]. rewrite Hset.
      now destruct (config.FailOnConsoleError fileConfig).
    + now intros ->.
  - intros Hno.
    assert (Emid : mid = base).
    { destruct Hmid as [[E _] | (fileConfig & Hpath & Hload & _)]; [exact E|].
      destruct Hno as [E | [err E]]; [contradiction | congruence]. }
    rewrite Emid. subst base. cbn. now rewrite orb_false_r.
  - intros fileConfig Hpath Hload.
    assert (Emid : mid = main.applyFile flags fileConfig base).
    { destruct Hmid as [[_ [E | [err E]]] | (fc & _ & Hfc & E)];
        [contradiction | congruence | congruence]. }
    rewrite Emid, applyFile_fields. subst base dirOr.
    cbn [Config.Headless Config.Timeout Config.FailOnConsoleError Config.ScreenshotDir
         Config.UpdateScreenshots Config.ScreenshotThreshold String.eqb].
    split; [|split; [|split; [|split; [|split]]]].
    + destruct (config.Headless fileConfig);
        now destruct (main.isFlagSet flags "headless").
    + destruct (config.Timeout fileConfig);
        now destruct (main.isFlagSet flags "timeout").
    + destruct (config.FailOnConsoleError fileConfig);
        now destruct (main.isFlagSet flags "fail-on-console-error").
    + destruct (String.eqb (main.screenshotDir flags) "") eqn:Efd; [|reflexivity].
      rewrite andb_true_r.
      destruct (String.eqb (config.ScreenshotDir fileConfig) "") eqn:Ed; cbn [negb];
        [reflexivity | now rewrite Ed].
    + destruct (main.updateScreenshots flags), (config.UpdateScreenshots fileConfig);
        reflexivity.
    + reflexivity.
Qed.

End CommandLine.
